(** * QueryBuilder: a shallow embedding of [src/query-builder/QueryBuilder.ts]

    The first part follows the TypeScript class method by method: the
    property-path substitution engine ([replacePropertyNames]), comment
    rendering ([createComment]), the parameter ledger ([setParameter],
    [setParameters], [setNativeParameters], [getParameters]), the WHERE
    compilers ([createWhereExpression], [computeWhereParameter],
    [createWhereIdsExpression]), the operator translator
    ([computeFindOperatorExpression]), the methods that set the query
    type and the flags, table names ([getTableName],
    [getMainTableName]) and the RETURNING compiler
    ([createReturningExpression]).  The second part holds concrete
    builders and the vocabulary of the properties; the third part holds
    the facts.

    Texts are [string]s over 8-bit code units, so the line terminators
    are line feed and carriage return.  JavaScript objects used as maps
    are association lists in insertion order.  Numbers are integers.  The
    driver and the Metadata Port are parameters of the builder. *)

From Stdlib Require Import String Ascii List Bool Arith ZArith Lia DecimalString.
From Stdlib Require Import DecimalNat.
Import ListNotations.
Open Scope string_scope.
Set Warnings "-register-all".

(* ================================================================== *)
(** ** Strings *)

Module Str.

(** [strip_prefix p s] is [Some r] exactly when [s = p ++ r]: literal
    matching of the text [p] at the head of [s]. *)
Fixpoint strip_prefix (p s : string) : option string :=
  match p with
  | EmptyString => Some s
  | String a p' =>
      match s with
      | String b s' => if Ascii.eqb a b then strip_prefix p' s' else None
      | EmptyString => None
      end
  end.

(** Every character of the text satisfies [f]. *)
Fixpoint forallb (f : ascii -> bool) (s : string) : bool :=
  match s with
  | EmptyString => true
  | String c s' => f c && forallb f s'
  end.

(** [Array.prototype.join]. *)
Fixpoint join (sep : string) (l : list string) : string :=
  match l with
  | [] => EmptyString
  | [x] => x
  | x :: rest => x ++ sep ++ join sep rest
  end.

(** Decimal rendering of an index, as string concatenation with a number
    does. *)
Definition of_nat (n : nat) : string := NilZero.string_of_uint (Nat.to_uint n).

Definition of_Z (z : Z) : string :=
  match z with
  | Z0 => "0"
  | Zpos p => of_nat (Pos.to_nat p)
  | Zneg p => "-" ++ of_nat (Pos.to_nat p)
  end.

(** [String.prototype.startsWith]. *)
Definition startsWith (s p : string) : bool :=
  match strip_prefix p s with Some _ => true | None => false end.

End Str.

(* ================================================================== *)
(** ** JavaScript objects used as maps *)

Module JsObj.

Section Obj.
Context {V : Type}.

(** An object literal: own string-keyed properties in insertion order. *)
Definition t := list (string * V).

Fixpoint get (o : t) (k : string) : option V :=
  match o with
  | [] => None
  | (k', v) :: o' => if String.eqb k' k then Some v else get o' k
  end.

(** [o[k] = v] for a key other than [__proto__]: an existing property
    keeps its position.  (On a plain object an assignment to [__proto__]
    sets the prototype and creates no own property; the facts about the
    objects that the builder writes leave that key out.) *)
Fixpoint set (o : t) (k : string) (v : V) : t :=
  match o with
  | [] => [(k, v)]
  | (k', v') :: o' =>
      if String.eqb k' k then (k', v) :: o' else (k', v') :: set o' k v
  end.

Definition has (o : t) (k : string) : bool :=
  match get o k with Some _ => true | None => false end.

End Obj.

Arguments t : clear implicits.

(** A canonical array index: decimal digits without a leading zero, at
    most 2^32 - 2.  [Object.keys] lists such keys first, in ascending
    numeric order, and the remaining keys in insertion order. *)
Definition is_digit (c : ascii) : bool :=
  let n := nat_of_ascii c in ((48 <=? n)%nat && (n <=? 57)%nat)%bool.

Fixpoint digits_value (acc : N) (s : string) : N :=
  match s with
  | EmptyString => acc
  | String c s' => digits_value (acc * 10 + N.of_nat (nat_of_ascii c - 48)) s'
  end.

Definition array_index (k : string) : option N :=
  match k with
  | EmptyString => None
  | String c rest =>
      if Str.forallb is_digit k
         && (negb (Ascii.eqb c "0") || String.eqb rest EmptyString)
         && (String.length k <=? 10)%nat
      then
        let n := digits_value 0 k in
        if (n <=? 4294967294)%N then Some n else None
      else None
  end.

Fixpoint insert_index (x : N * string) (l : list (N * string)) : list (N * string) :=
  match l with
  | [] => [x]
  | y :: l' => if (fst x <=? fst y)%N then x :: l else y :: insert_index x l'
  end.

Fixpoint sort_indices (l : list (N * string)) : list (N * string) :=
  match l with
  | [] => []
  | x :: l' => insert_index x (sort_indices l')
  end.

Fixpoint index_keys (ks : list string) : list (N * string) :=
  match ks with
  | [] => []
  | k :: ks' =>
      match array_index k with
      | Some n => (n, k) :: index_keys ks'
      | None => index_keys ks'
      end
  end.

Definition is_plain_key (k : string) : bool :=
  match array_index k with Some _ => false | None => true end.

Definition keys {V} (o : t V) : list string :=
  (map snd (sort_indices (index_keys (map fst o)))
     ++ filter is_plain_key (map fst o))%list.

End JsObj.

(* ================================================================== *)
(** ** Values, operator descriptors and metadata *)

(** The operator variants of [FindOperatorType] that
    [computeFindOperatorExpression] switches on; [OtherOperator] stands
    for any other runtime tag. *)
Inductive FindOperatorType :=
| Not | LessThan | LessThanOrEqual | MoreThan | MoreThanOrEqual | Equal
| Like | ILike | Between | In_ | Any | IsNull | Raw
| OtherOperator (tag : string).

(** JavaScript values bound as parameters.  Numbers are the integers;
    a function is identified by its source text. *)
Inductive JsValue :=
| JsUndefined
| JsNull
| JsBoolean (b : bool)
| JsNumber (z : Z)
| JsString (s : string)
| JsArray (items : list JsValue)
| JsObject (fields : list (string * JsValue))
| JsFunction (source : string)
| JsOperator (op : FindOperator)
(** The properties of a [FindOperator] that the query builder reads. *)
with FindOperator :=
| MkFindOperator
    (type : FindOperatorType)
    (child : option FindOperator)
    (value : JsValue)
    (useParameter : bool)
    (multipleParameters : bool)
    (objectLiteralParameters : option (list (string * JsValue)))
    (getSql : option (string -> string)).

Definition ObjectLiteral := JsObj.t JsValue.

Module FindOp.
Definition type (o : FindOperator) :=
  let 'MkFindOperator t _ _ _ _ _ _ := o in t.
Definition child (o : FindOperator) :=
  let 'MkFindOperator _ c _ _ _ _ _ := o in c.
Definition value (o : FindOperator) :=
  let 'MkFindOperator _ _ v _ _ _ _ := o in v.
Definition useParameter (o : FindOperator) :=
  let 'MkFindOperator _ _ _ u _ _ _ := o in u.
Definition multipleParameters (o : FindOperator) :=
  let 'MkFindOperator _ _ _ _ m _ _ := o in m.
Definition objectLiteralParameters (o : FindOperator) :=
  let 'MkFindOperator _ _ _ _ _ p _ := o in p.
Definition getSql (o : FindOperator) :=
  let 'MkFindOperator _ _ _ _ _ _ g := o in g.
End FindOp.

(** [value instanceof Function]. *)
Definition instanceof_Function (v : JsValue) : bool :=
  match v with JsFunction _ => true | _ => false end.

(** String conversion of a value inside a template literal.  A number
    is printed in decimal digits, as JavaScript prints the integers
    below 10^21 in magnitude. *)
Fixpoint js_toString (v : JsValue) : string :=
  match v with
  | JsUndefined => "undefined"
  | JsNull => "null"
  | JsBoolean true => "true"
  | JsBoolean false => "false"
  | JsNumber z => Str.of_Z z
  | JsString s => s
  | JsArray items =>
      Str.join ","
        (map (fun x => match x with
                       | JsUndefined | JsNull => EmptyString
                       | _ => js_toString x
                       end) items)
  | JsObject _ => "[object Object]"
  | JsFunction source => source
  | JsOperator _ => "[object Object]"
  end.

(** Column metadata: the fields read by the query builder.
    [transformer] tells whether a value transformer is declared. *)
Record ColumnMetadata := {
  databaseName : string;
  propertyName : string;
  propertyPath : string;
  transformer : bool;
}.

(** A join column of a relation.  The source reads
    [joinColumn.referencedColumn!.propertyPath]: the referenced column is
    asserted present, so it is a plain field here. *)
Record JoinColumnMetadata := {
  joinColumn : ColumnMetadata;
  referencedColumn : ColumnMetadata;
}.

Record RelationMetadata := {
  relationPropertyPath : string;
  joinColumns : list JoinColumnMetadata;
  inverseJoinColumns : list JoinColumnMetadata;
}.

Inductive EntityMetadata := {
  tablePath : string;
  relations : list RelationMetadata;
  columns : list ColumnMetadata;
  primaryColumns : list ColumnMetadata;
  hasMultiplePrimaryKeys : bool;
  embeddeds : list string;
  deleteDateColumn : option ColumnMetadata;
  discriminatorColumn : option ColumnMetadata;
  discriminatorValue : JsValue;
  parentEntityMetadata : option EntityMetadata;
  childEntityMetadatas : list EntityMetadata;
}.

(** An alias; [hasMetadata] is the presence of [metadata]. *)
Record Alias := {
  name : string;
  metadata : option EntityMetadata;
}.

Definition hasMetadata (a : Alias) : bool :=
  match metadata a with Some _ => true | None => false end.

Inductive QueryType :=
| QSelect | QInsert | QUpdate | QDelete | QSoftDelete | QRestore | QRelation.

Inductive WhereType := WhereSimple | WhereAnd | WhereOr.

Record WhereClause := {
  where_type : WhereType;
  where_condition : string;
}.

(** The fields of [QueryExpressionMap] used by [QueryBuilder], with the
    parent builder of sub-query mode. *)
Inductive QueryExpressionMap := {
  aliases : list Alias;
  mainAlias : option Alias;
  aliasNamePrefixingEnabled : bool;
  disableEscaping : bool;
  queryType : QueryType;
  withDeleted : bool;
  wheres : list WhereClause;
  extraAppendedAndWhereCondition : string;
  comment : option string;
  parameters : ObjectLiteral;
  nativeParameters : ObjectLiteral;
  parentQueryBuilder : option QueryExpressionMap;
}.

Definition with_parameters (m : QueryExpressionMap) (p : ObjectLiteral) :=
  {| aliases := aliases m; mainAlias := mainAlias m;
     aliasNamePrefixingEnabled := aliasNamePrefixingEnabled m;
     disableEscaping := disableEscaping m; queryType := queryType m;
     withDeleted := withDeleted m; wheres := wheres m;
     extraAppendedAndWhereCondition := extraAppendedAndWhereCondition m;
     comment := comment m; parameters := p;
     nativeParameters := nativeParameters m;
     parentQueryBuilder := parentQueryBuilder m |}.

Definition with_nativeParameters (m : QueryExpressionMap) (p : ObjectLiteral) :=
  {| aliases := aliases m; mainAlias := mainAlias m;
     aliasNamePrefixingEnabled := aliasNamePrefixingEnabled m;
     disableEscaping := disableEscaping m; queryType := queryType m;
     withDeleted := withDeleted m; wheres := wheres m;
     extraAppendedAndWhereCondition := extraAppendedAndWhereCondition m;
     comment := comment m; parameters := parameters m;
     nativeParameters := p;
     parentQueryBuilder := parentQueryBuilder m |}.

Definition with_parent (m : QueryExpressionMap) (p : option QueryExpressionMap) :=
  {| aliases := aliases m; mainAlias := mainAlias m;
     aliasNamePrefixingEnabled := aliasNamePrefixingEnabled m;
     disableEscaping := disableEscaping m; queryType := queryType m;
     withDeleted := withDeleted m; wheres := wheres m;
     extraAppendedAndWhereCondition := extraAppendedAndWhereCondition m;
     comment := comment m; parameters := parameters m;
     nativeParameters := nativeParameters m;
     parentQueryBuilder := p |}.

(* ================================================================== *)
(** ** The boundary pattern built by [replacePropertyNames]

    The regular expression is
    [([ =(]|^.{0})PREFIX(k1|...|kn)(?=[ =),]|.{0}$)] with flags [gm],
    where [PREFIX] and the keys are escaped and hence matched literally.
    [exec_at] is one match attempt at a position of the statement,
    [replace] is [String.prototype.replace] with that pattern and a
    replacer callback. *)

Module Pattern.

Definition LF : ascii := ascii_of_nat 10.
Definition CR : ascii := ascii_of_nat 13.

(** Line terminators among the modelled code units. *)
Definition is_line_terminator (c : ascii) : bool :=
  Ascii.eqb c LF || Ascii.eqb c CR.

(** The class [[ =(]] of the first group. *)
Definition in_pre_class (c : ascii) : bool :=
  Ascii.eqb c " " || Ascii.eqb c "=" || Ascii.eqb c "(".

(** The class [[ =),]] of the lookahead. *)
Definition in_post_class (c : ascii) : bool :=
  Ascii.eqb c " " || Ascii.eqb c "=" || Ascii.eqb c ")" || Ascii.eqb c ",".

(** [^] under flag [m]: [prev] is the character before the position. *)
Definition at_line_start (prev : option ascii) : bool :=
  match prev with
  | None => true
  | Some c => is_line_terminator c
  end.

(** [$] under flag [m]: [s] is the text from the position on. *)
Definition at_line_end (s : string) : bool :=
  match s with
  | EmptyString => true
  | String c _ => is_line_terminator c
  end.

(** The lookahead [(?=[ =),]|.{0}$)]. *)
Definition lookahead (s : string) : bool :=
  match s with
  | String c _ => in_post_class c
  | EmptyString => false
  end || at_line_end s.

Section Exec.
Variable prefix : string.
Variable keys : list string.

(** The alternation [(k1|...|kn)] followed by the lookahead: the first
    key, in order, that matches with the lookahead satisfied. *)
Fixpoint match_keys (ks : list string) (s : string) : option string :=
  match ks with
  | [] => None
  | k :: ks' =>
      match Str.strip_prefix k s with
      | Some rest => if lookahead rest then Some k else match_keys ks' s
      | None => match_keys ks' s
      end
  end.

Definition match_body (s : string) : option string :=
  match Str.strip_prefix prefix s with
  | Some s' => match_keys keys s'
  | None => None
  end.

(** One attempt at a position: the captures [(pre, p)] of the two
    groups.  The first alternative of group 1 consumes a character of
    [[ =(]]; the second is empty and needs a line start. *)
Definition exec_at (prev : option ascii) (s : string) : option (string * string) :=
  let at_start :=
    if at_line_start prev
    then option_map (fun p => (EmptyString, p)) (match_body s)
    else None in
  match s with
  | String c s' =>
      if in_pre_class c then
        match match_body s' with
        | Some p => Some (String c EmptyString, p)
        | None => at_start
        end
      else at_start
  | EmptyString => at_start
  end.

Definition match_length (m : string * string) : nat :=
  String.length (fst m) + String.length prefix + String.length (snd m).

Variable replacer : string -> string -> string.

(** The global replace, left to right.  [skip] counts the characters
    of the current match still to be consumed; after an empty match the
    search resumes one character further. *)
Fixpoint replace_from (skip : nat) (prev : option ascii) (s : string) : string :=
  match skip with
  | S n =>
      match s with
      | EmptyString => EmptyString
      | String c s' => replace_from n (Some c) s'
      end
  | O =>
      match exec_at prev s with
      | Some m =>
          replacer (fst m) (snd m) ++
          match s with
          | EmptyString => EmptyString
          | String c s' =>
              match match_length m with
              | O => String c (replace_from 0 (Some c) s')
              | S n => replace_from n (Some c) s'
              end
          end
      | None =>
          match s with
          | EmptyString => EmptyString
          | String c s' => String c (replace_from 0 (Some c) s')
          end
      end
  end.

Definition replace (s : string) : string := replace_from 0 None s.

End Exec.

End Pattern.

(** [String.prototype.replace] with a string pattern: the first
    occurrence only. *)
Fixpoint String_replace (s pattern replacement : string) : string :=
  match Str.strip_prefix pattern s with
  | Some rest => replacement ++ rest
  | None =>
      match s with
      | EmptyString => EmptyString
      | String c s' => String c (String_replace s' pattern replacement)
      end
  end.

(** [String.prototype.trim] leaves a non-empty text exactly when some
    character is not white space. *)
Definition is_white_space (c : ascii) : bool :=
  let n := nat_of_ascii c in
  ((9 <=? n)%nat && (n <=? 13)%nat) || (n =? 32)%nat || (n =? 160)%nat.

Definition trim_is_empty (s : string) : bool := Str.forallb is_white_space s.

(* ================================================================== *)
(** ** Errors *)

Inductive Error :=
| FunctionParameterNotSupported (key : string)
| EntityColumnNotFound (path : string)
| UnsupportedFindOperator
| TypeError (what : string).

Inductive Result (A : Type) :=
| Ok (a : A)
| Throw (e : Error).

Arguments Ok {A} a.
Arguments Throw {A} e.

Definition bind {A B} (r : Result A) (k : A -> Result B) : Result B :=
  match r with
  | Ok a => k a
  | Throw e => Throw e
  end.

Notation "x <- r ;; k" := (bind r (fun x => k))
  (at level 61, r at next level, right associativity).
Notation "' p <- r ;; k" := (bind r (fun x => match x with p => k end))
  (at level 61, p pattern, r at next level, right associativity).

(** Modelled from the spec: the [In] operator constructor
    ([find-options/operator/In]) is not under [src/].  The spec gives the
    [in] descriptor a set payload and one bound placeholder per element
    (an empty payload set yields zero placeholders). *)
Module FindOptions.
Definition In (values : list JsValue) : FindOperator :=
  MkFindOperator In_ None (JsArray values) true true None None.
End FindOptions.

(* ================================================================== *)
(** ** The query builder *)

Section QueryBuilder.

(** The driver: [driver.escape], [driver.createParameter] and whether it
    is one of [PostgresDriver], [CockroachDriver]. *)
Variable driver_escape : string -> string.
Variable driver_createParameter : string -> nat -> string.
Variable driver_is_postgres_family : bool.

(** [escape]: the name is returned as is when [disableEscaping] is
    false. *)
Definition escape (m : QueryExpressionMap) (name : string) : string :=
  if negb (disableEscaping m) then name else driver_escape name.

(** The [replacements] object of one alias, filled from least to most
    relevant. *)
Definition replacements (md : EntityMetadata) : JsObj.t string :=
  let r1 :=
    fold_left
      (fun r relation =>
         match joinColumns relation with
         | first :: _ =>
             JsObj.set r (relationPropertyPath relation)
               (databaseName (joinColumn first))
         | [] => r
         end)
      (relations md) [] in
  let r2 :=
    fold_left
      (fun r relation =>
         fold_left
           (fun r jc =>
              JsObj.set r
                (relationPropertyPath relation ++ "."
                   ++ propertyPath (referencedColumn jc))
                (databaseName (joinColumn jc)))
           (joinColumns relation ++ inverseJoinColumns relation)%list r)
      (relations md) r1 in
  let r3 :=
    fold_left (fun r column => JsObj.set r (databaseName column) (databaseName column))
      (columns md) r2 in
  let r4 :=
    fold_left (fun r column => JsObj.set r (propertyName column) (databaseName column))
      (columns md) r3 in
  fold_left (fun r column => JsObj.set r (propertyPath column) (databaseName column))
    (columns md) r4.

(** [replacements[p]]; the callback only receives own keys. *)
Definition replacement_of (r : JsObj.t string) (p : string) : string :=
  match JsObj.get r p with
  | Some v => v
  | None => "undefined"
  end.

Definition replaceAliasNamePrefix (m : QueryExpressionMap) (alias : Alias) : string :=
  if aliasNamePrefixingEnabled m then name alias ++ "." else EmptyString.

Definition replacementAliasNamePrefix (m : QueryExpressionMap) (alias : Alias) : string :=
  if aliasNamePrefixingEnabled m then escape m (name alias) ++ "." else EmptyString.

(** The replacer callback [(_, pre, p) => ...]. *)
Definition replacer (m : QueryExpressionMap) (alias : Alias) (r : JsObj.t string)
    (pre p : string) : string :=
  pre ++ replacementAliasNamePrefix m alias ++ escape m (replacement_of r p).

(** The body of the loop over [expressionMap.aliases]. *)
Definition replaceForAlias (m : QueryExpressionMap) (statement : string)
    (alias : Alias) : string :=
  match metadata alias with
  | None => statement
  | Some md =>
      let r := replacements md in
      match JsObj.keys r with
      | [] => statement
      | replacementKeys =>
          Pattern.replace (replaceAliasNamePrefix m alias) replacementKeys
            (replacer m alias r) statement
      end
  end.

Definition replacePropertyNames (m : QueryExpressionMap) (statement : string) : string :=
  fold_left (replaceForAlias m) (aliases m) statement.

(** [createComment]. *)
Definition createComment (m : QueryExpressionMap) : string :=
  match comment m with
  | None => EmptyString
  | Some EmptyString => EmptyString
  | Some c => "/* " ++ String_replace c "*/" EmptyString ++ " */ "
  end.

(** *** The parameter ledger *)

(** [setParameter]. *)
Definition setParameter (m : QueryExpressionMap) (key : string) (value : JsValue)
  : QueryExpressionMap :=
  with_parameters m (JsObj.set (parameters m) key value).

(** [parameters[key]] for an own key. *)
Definition property (o : ObjectLiteral) (key : string) : JsValue :=
  match JsObj.get o key with
  | Some v => v
  | None => JsUndefined
  end.

(** The first key, in [Object.keys] order, bound to a function. *)
Definition first_function_key (ps : ObjectLiteral) : option string :=
  find (fun key => instanceof_Function (property ps key)) (JsObj.keys ps).

(** [setParameters]: the check, then the parent builder, then this one. *)
Fixpoint setParameters (m : QueryExpressionMap) (ps : ObjectLiteral)
  : Result QueryExpressionMap :=
  match first_function_key ps with
  | Some key => Throw (FunctionParameterNotSupported key)
  | None =>
      m1 <-
        match m with
        | Build_QueryExpressionMap _ _ _ _ _ _ _ _ _ _ _ (Some parent) =>
            parent' <- setParameters parent ps ;;
            Ok (with_parent m (Some parent'))
        | _ => Ok m
        end ;;
      Ok (fold_left (fun b key => setParameter b key (property ps key))
            (JsObj.keys ps) m1)
  end.

(** [setNativeParameters]. *)
Fixpoint setNativeParameters (m : QueryExpressionMap) (ps : ObjectLiteral)
  : QueryExpressionMap :=
  let m1 :=
    match m with
    | Build_QueryExpressionMap _ _ _ _ _ _ _ _ _ _ _ (Some parent) =>
        with_parent m (Some (setNativeParameters parent ps))
    | _ => m
    end in
  fold_left
    (fun b key => with_nativeParameters b
                    (JsObj.set (nativeParameters b) key (property ps key)))
    (JsObj.keys ps) m1.

(** [Object.assign(target, source)]. *)
Definition Object_assign (target source : ObjectLiteral) : ObjectLiteral :=
  fold_left (fun t key => JsObj.set t key (property source key))
    (JsObj.keys source) target.

(** Truthiness of [childMetadata.discriminatorColumn]. *)
Definition has_discriminatorColumn (md : EntityMetadata) : bool :=
  match discriminatorColumn md with Some _ => true | None => false end.

(** The array pushed under [discriminatorColumnValues]. *)
Definition discriminatorColumnValues (md : EntityMetadata) : JsValue :=
  JsArray
    (map discriminatorValue (filter has_discriminatorColumn (childEntityMetadatas md))
       ++ [discriminatorValue md])%list.

(** *** [getParameters]

    The method copies the ledger into a fresh object and writes the
    derived entry into the copy.  Objects live in a heap so that the copy
    and the ledger are distinct references. *)

Definition heap := list ObjectLiteral.

Definition deref (h : heap) (r : nat) : ObjectLiteral := nth r h [].

Definition alloc (h : heap) (o : ObjectLiteral) : nat * heap :=
  (List.length h, (h ++ [o])%list).

Fixpoint store (h : heap) (r : nat) (o : ObjectLiteral) : heap :=
  match h, r with
  | [], _ => []
  | _ :: h', O => o :: h'
  | x :: h', S r' => x :: store h' r' o
  end.

(** [ledger] is the reference held in [expressionMap.parameters]; the
    result is the reference of the returned object. *)
Definition getParameters_in (h : heap) (ledger : nat) (m : QueryExpressionMap)
  : nat * heap :=
  let '(parameters, h1) := alloc h (Object_assign [] (deref h ledger)) in
  match mainAlias m with
  | Some main =>
      match metadata main with
      | Some md =>
          match discriminatorColumn md, parentEntityMetadata md with
          | Some _, Some _ =>
              (parameters,
               store h1 parameters
                 (JsObj.set (deref h1 parameters) "discriminatorColumnValues"
                    (discriminatorColumnValues md)))
          | _, _ => (parameters, h1)
          end
      | None => (parameters, h1)
      end
  | None => (parameters, h1)
  end.

(** [getParameters] of a builder whose ledger is the field [parameters]. *)
Definition getParameters (m : QueryExpressionMap) : ObjectLiteral :=
  let '(r, h) := getParameters_in [parameters m] 0 m in deref h r.

(** *** WHERE expressions *)

Fixpoint mapi_from {A B} (f : A -> nat -> B) (i : nat) (l : list A) : list B :=
  match l with
  | [] => []
  | x :: l' => f x i :: mapi_from f (S i) l'
  end.

(** [Array.prototype.map] with the index. *)
Definition mapi {A B} (f : A -> nat -> B) (l : list A) : list B := mapi_from f 0 l.

(** [createWhereExpressionString]. *)
Definition createWhereExpressionString (m : QueryExpressionMap) : string :=
  Str.join " "
    (mapi
       (fun clause index =>
          match where_type clause with
          | WhereAnd =>
              (if (0 <? index)%nat then "AND " else EmptyString)
                ++ replacePropertyNames m (where_condition clause)
          | WhereOr =>
              (if (0 <? index)%nat then "OR " else EmptyString)
                ++ replacePropertyNames m (where_condition clause)
          | WhereSimple => replacePropertyNames m (where_condition clause)
          end)
       (wheres m)).

(** The last statement of [createWhereExpression]. *)
Definition renderConditions (conditionsArray : list string) : string :=
  match conditionsArray with
  | [] => EmptyString
  | [c] => " WHERE " ++ c
  | _ => " WHERE ( " ++ Str.join " ) AND ( " conditionsArray ++ " )"
  end.

Definition is_select (q : QueryType) : bool :=
  match q with QSelect => true | _ => false end.

(** The condition pushed for the delete-date column. *)
Definition deleteDateCondition (m : QueryExpressionMap) (main : Alias)
    (column : ColumnMetadata) : string :=
  replacePropertyNames m
    (if aliasNamePrefixingEnabled m
     then name main ++ "." ++ propertyName column
     else propertyName column)
    ++ " IS NULL".

Definition discriminatorCondition (m : QueryExpressionMap) (main : Alias)
    (column : ColumnMetadata) : string :=
  replacePropertyNames m
    (if aliasNamePrefixingEnabled m
     then name main ++ "." ++ databaseName column
     else databaseName column)
    ++ " IN (:...discriminatorColumnValues)".

(** The conditions collected by [createWhereExpression], in order. *)
Definition whereConditions (m : QueryExpressionMap) (main : Alias) : list string :=
  let whereExpression := createWhereExpressionString m in
  ((if trim_is_empty whereExpression then [] else [createWhereExpressionString m])
   ++ match metadata main with
      | Some md =>
          (if is_select (queryType m) && negb (withDeleted m) then
             match deleteDateColumn md with
             | Some column => [deleteDateCondition m main column]
             | None => []
             end
           else [])
          ++ match discriminatorColumn md, parentEntityMetadata md with
             | Some column, Some _ => [discriminatorCondition m main column]
             | _, _ => []
             end
      | None => []
      end
   ++ match extraAppendedAndWhereCondition m with
      | EmptyString => []
      | extra => [replacePropertyNames m extra]
      end)%list.

(** [createWhereExpression]; reading [mainAlias!.hasMetadata] fails
    without a main alias. *)
Definition createWhereExpression (m : QueryExpressionMap) : Result string :=
  match mainAlias m with
  | None => Throw (TypeError "mainAlias is undefined")
  | Some main => Ok (renderConditions (whereConditions m main))
  end.

(** *** The operator translator *)

(** [parameters[i]] inside a template literal. *)
Definition placeholder (parameters : list string) (i : nat) : string :=
  nth i parameters "undefined".

(** [computeFindOperatorExpression]. *)
Fixpoint computeFindOperatorExpression (operator : FindOperator)
    (aliasPath : string) (parameters : list string) : Result string :=
  match operator with
  | MkFindOperator type child value _ _ _ getSql =>
      match type with
      | Not =>
          match child with
          | Some c =>
              inner <- computeFindOperatorExpression c aliasPath parameters ;;
              Ok ("NOT(" ++ inner ++ ")")
          | None => Ok (aliasPath ++ " != " ++ placeholder parameters 0)
          end
      | LessThan => Ok (aliasPath ++ " < " ++ placeholder parameters 0)
      | LessThanOrEqual => Ok (aliasPath ++ " <= " ++ placeholder parameters 0)
      | MoreThan => Ok (aliasPath ++ " > " ++ placeholder parameters 0)
      | MoreThanOrEqual => Ok (aliasPath ++ " >= " ++ placeholder parameters 0)
      | Equal => Ok (aliasPath ++ " = " ++ placeholder parameters 0)
      | ILike =>
          if driver_is_postgres_family
          then Ok (aliasPath ++ " ILIKE " ++ placeholder parameters 0)
          else Ok ("UPPER(" ++ aliasPath ++ ") LIKE UPPER("
                     ++ placeholder parameters 0 ++ ")")
      | Like => Ok (aliasPath ++ " LIKE " ++ placeholder parameters 0)
      | Between =>
          Ok (aliasPath ++ " BETWEEN " ++ placeholder parameters 0
                ++ " AND " ++ placeholder parameters 1)
      | In_ =>
          match parameters with
          | [] => Ok "0=1"
          | _ => Ok (aliasPath ++ " IN (" ++ Str.join ", " parameters ++ ")")
          end
      | Any => Ok (aliasPath ++ " = ANY(" ++ placeholder parameters 0 ++ ")")
      | IsNull => Ok (aliasPath ++ " IS NULL")
      | Raw =>
          match getSql with
          | Some f => Ok (f aliasPath)
          | None => Ok (aliasPath ++ " = " ++ js_toString value)
          end
      | OtherOperator _ => Throw UnsupportedFindOperator
      end
  end.

(** *** The structured-condition compiler *)

(** The Metadata Port: [EntityMetadata.createPropertyPath],
    [findColumnsWithPropertyPath], [column.getEntityValue] and
    [ensureEntityIdMap] are consumed as given. *)
Variable createPropertyPath : EntityMetadata -> ObjectLiteral -> list string.
Variable findColumnsWithPropertyPath : EntityMetadata -> string -> list ColumnMetadata.
Variable getEntityValue : ColumnMetadata -> ObjectLiteral -> bool -> JsValue.
Variable ensureEntityIdMap : EntityMetadata -> JsValue -> ObjectLiteral.

(** [map] with index over code that updates state and may throw. *)
Fixpoint mapiM_from {A B St} (f : A -> nat -> St -> Result (B * St))
    (i : nat) (l : list A) (st : St) : Result (list B * St) :=
  match l with
  | [] => Ok ([], st)
  | x :: l' =>
      ' (y, st1) <- f x i st ;;
      ' (ys, st2) <- mapiM_from f (S i) l' st1 ;;
      Ok (y :: ys, st2)
  end.

Definition mapiM {A B St} (f : A -> nat -> St -> Result (B * St))
    (l : list A) (st : St) : Result (list B * St) :=
  mapiM_from f 0 l st.

(** [!!expression] on a string. *)
Definition truthy (s : string) : bool :=
  match s with EmptyString => false | _ => true end.

(** [nativeParameters[parameterName] = value]. *)
Definition bindNative (m : QueryExpressionMap) (parameterName : string)
    (value : JsValue) : QueryExpressionMap :=
  with_nativeParameters m (JsObj.set (nativeParameters m) parameterName value).

(** The state of one compilation: the builder and [parameterIndex]. *)
Definition CompileState := (QueryExpressionMap * nat)%type.

(** [realParameterValues.forEach(...)]. *)
Fixpoint bindOperatorValues (parameterName : string) (parameterBaseCount : nat)
    (realParameterValues : list JsValue) (realParameterValueIndex : nat)
    (st : CompileState) (parameters : list string)
  : CompileState * list string :=
  match realParameterValues with
  | [] => (st, parameters)
  | realParameterValue :: rest =>
      let pname :=
        parameterName ++ Str.of_nat (parameterBaseCount + realParameterValueIndex) in
      let m1 := bindNative (fst st) pname realParameterValue in
      let parameterIndex := S (snd st) in
      bindOperatorValues parameterName parameterBaseCount rest
        (S realParameterValueIndex) (m1, parameterIndex)
        (parameters ++ [driver_createParameter pname (parameterIndex - 1)])%list
  end.

(** The keys of the store that start with the name. *)
Definition parameterBaseCount (m : QueryExpressionMap) (parameterName : string) : nat :=
  List.length
    (filter (fun x => Str.startsWith x parameterName)
       (JsObj.keys (nativeParameters m))).

Definition whereParameterName (whereIndex propertyIndex columnIndex : nat) : string :=
  "where_" ++ Str.of_nat whereIndex ++ "_" ++ Str.of_nat propertyIndex
    ++ "_" ++ Str.of_nat columnIndex.

(** The callback of [columns.map] on an alias with metadata. *)
Definition whereColumn (main : Alias) (where_ : ObjectLiteral) (whereIndex : nat)
    (path : string) (propertyIndex : nat)
    (column : ColumnMetadata) (columnIndex : nat) (st : CompileState)
  : Result (string * CompileState) :=
  let m := fst st in
  let aliasPath :=
    if aliasNamePrefixingEnabled m then name main ++ "." ++ path
    else propertyPath column in
  let parameterValue := getEntityValue column where_ true in
  let parameterName := whereParameterName whereIndex propertyIndex columnIndex in
  let base := parameterBaseCount m parameterName in
  match parameterValue with
  | JsNull => Ok (aliasPath ++ " IS NULL", st)
  | JsOperator op =>
      ' (st1, parameters) <-
        (if FindOp.useParameter op then
           match FindOp.objectLiteralParameters op with
           | Some ps =>
               m1 <- setParameters m ps ;;
               Ok ((m1, snd st), [])
           | None =>
               realParameterValues <-
                 (if FindOp.multipleParameters op then
                    match FindOp.value op with
                    | JsArray items => Ok items
                    | _ => Throw (TypeError "realParameterValues.forEach is not a function")
                    end
                  else Ok [FindOp.value op]) ;;
               Ok (bindOperatorValues parameterName base realParameterValues 0 st [])
           end
         else Ok (st, [])) ;;
      expression <- computeFindOperatorExpression op aliasPath parameters ;;
      Ok (expression, st1)
  | _ =>
      let m1 := bindNative m parameterName parameterValue in
      let parameterIndex := S (snd st) in
      Ok (aliasPath ++ " = " ++ driver_createParameter parameterName (parameterIndex - 1),
          (m1, parameterIndex))
  end.

(** The callback of [propertyPaths.map]. *)
Definition whereProperty (main : Alias) (md : EntityMetadata) (where_ : ObjectLiteral)
    (whereIndex : nat) (path : string) (propertyIndex : nat) (st : CompileState)
  : Result (string * CompileState) :=
  match findColumnsWithPropertyPath md path with
  | [] => Throw (EntityColumnNotFound path)
  | cols =>
      ' (expressions, st1) <-
        mapiM (whereColumn main where_ whereIndex path propertyIndex) cols st ;;
      Ok (Str.join " AND " (filter truthy expressions), st1)
  end.

(** The callback of [wheres.map] on an alias with metadata. *)
Definition whereWithMetadata (main : Alias) (md : EntityMetadata)
    (where_ : ObjectLiteral) (whereIndex : nat) (st : CompileState)
  : Result (string * CompileState) :=
  ' (expressions, st1) <-
    mapiM (whereProperty main md where_ whereIndex) (createPropertyPath md where_) st ;;
  Ok (Str.join " AND " (filter truthy expressions), st1).

(** The callback of [Object.keys(where).map] on an alias without
    metadata; its second argument shadows [parameterIndex]. *)
Definition whereKey (main : Alias) (where_ : ObjectLiteral) (whereIndex : nat)
    (key : string) (parameterIndex : nat) (st : CompileState)
  : Result (string * CompileState) :=
  let m := fst st in
  let parameterValue := property where_ key in
  let aliasPath :=
    if aliasNamePrefixingEnabled m then name main ++ "." ++ key else key in
  match parameterValue with
  | JsNull => Ok (aliasPath ++ " IS NULL", st)
  | _ =>
      let parameterName :=
        "where_" ++ Str.of_nat whereIndex ++ "_" ++ Str.of_nat parameterIndex in
      let m1 := bindNative m parameterName parameterValue in
      let parameterIndex' := S parameterIndex in
      Ok (aliasPath ++ " = " ++ driver_createParameter parameterName (parameterIndex' - 1),
          (m1, snd st))
  end.

Definition whereWithoutMetadata (main : Alias) (where_ : ObjectLiteral)
    (whereIndex : nat) (st : CompileState) : Result (string * CompileState) :=
  ' (expressions, st1) <-
    mapiM (whereKey main where_ whereIndex) (JsObj.keys where_) st ;;
  Ok (Str.join " AND " expressions, st1).

(** The argument of [computeWhereParameter]: a string, an object literal
    or an array of object literals.  (Brackets and callbacks build their
    text with a nested builder and are not part of this development.) *)
Inductive WhereInput :=
| WhereString (s : string)
| WhereObject (o : ObjectLiteral)
| WhereArray (os : list ObjectLiteral).

(** [computeWhereParameter]. *)
Definition computeWhereParameter (m : QueryExpressionMap) (where_ : WhereInput)
  : Result (string * QueryExpressionMap) :=
  match where_ with
  | WhereString s => Ok (s, m)
  | _ =>
      let wheres_ :=
        match where_ with
        | WhereArray os => os
        | WhereObject o => [o]
        | WhereString _ => []
        end in
      let parameterIndex := List.length (JsObj.keys (nativeParameters m)) in
      match mainAlias m with
      | None => Throw (TypeError "mainAlias is undefined")
      | Some main =>
          ' (andConditions, st) <-
            match metadata main with
            | Some md => mapiM (whereWithMetadata main md) wheres_ (m, parameterIndex)
            | None => mapiM (whereWithoutMetadata main) wheres_ (m, parameterIndex)
            end ;;
          Ok (if (1 <? List.length andConditions)%nat
              then Str.join " OR " (map (fun w => "(" ++ w ++ ")") andConditions)
              else Str.join EmptyString andConditions,
              fst st)
      end
  end.

(** *** The identity-WHERE compiler *)

(** The callback of [metadata.primaryColumns.forEach]. *)
Definition whereIdColumn (alias : string) (id : ObjectLiteral) (index : nat)
    (primaryColumn : ColumnMetadata) (secondIndex : nat) (st : CompileState)
  : Result (string * CompileState) :=
  let m := fst st in
  let parameterName := "id_" ++ Str.of_nat index ++ "_" ++ Str.of_nat secondIndex in
  Ok (alias ++ escape m (databaseName primaryColumn) ++ " = "
        ++ driver_createParameter parameterName (snd st),
      (bindNative m parameterName (getEntityValue primaryColumn id true), S (snd st))).

(** The callback of [normalized.map]. *)
Definition whereId (alias : string) (md : EntityMetadata) (id : ObjectLiteral)
    (index : nat) (st : CompileState) : Result (string * CompileState) :=
  ' (whereSubStrings, st1) <- mapiM (whereIdColumn alias id index) (primaryColumns md) st ;;
  Ok (Str.join " AND " whereSubStrings, st1).

(** The path after the fast path of [createWhereIdsExpression]. *)
Definition createWhereIdsGeneral (m : QueryExpressionMap) (main : Alias)
    (md : EntityMetadata) (normalized : list ObjectLiteral)
  : Result (option string * QueryExpressionMap) :=
  let alias :=
    if aliasNamePrefixingEnabled m then escape m (name main) ++ "." else EmptyString in
  let parameterIndex := List.length (JsObj.keys (nativeParameters m)) in
  ' (whereStrings, st) <- mapiM (whereId alias md) normalized (m, parameterIndex) ;;
  Ok (if (1 <? List.length whereStrings)%nat
      then Some ("(" ++ Str.join " OR "
                          (map (fun whereString => "(" ++ whereString ++ ")") whereStrings)
                     ++ ")")
      else nth_error whereStrings 0,
      fst st).

(** [createWhereIdsExpression]; the result is [None] when the source
    returns [undefined] (no identity on the general path). *)
Definition createWhereIdsExpression (m : QueryExpressionMap) (ids : JsValue)
  : Result (option string * QueryExpressionMap) :=
  match mainAlias m with
  | None => Throw (TypeError "mainAlias is undefined")
  | Some main =>
      match metadata main with
      | None => Throw (TypeError "Cannot get entity metadata for the given alias")
      | Some md =>
          let normalized :=
            map (ensureEntityIdMap md)
              (match ids with JsArray items => items | _ => [ids] end) in
          if negb (hasMultiplePrimaryKeys md) && (List.length (embeddeds md) =? 0)%nat
          then
            match primaryColumns md with
            | [] => Throw (TypeError "primaryColumn is undefined")
            | primaryColumn :: _ =>
                if negb (transformer primaryColumn) then
                  ' (text, m1) <-
                    computeWhereParameter m
                      (WhereObject
                         [(propertyName primaryColumn,
                           JsOperator
                             (FindOptions.In
                                (map (fun id => getEntityValue primaryColumn id false)
                                   normalized)))]) ;;
                  Ok (Some text, m1)
                else createWhereIdsGeneral m main md normalized
            end
          else createWhereIdsGeneral m main md normalized
      end
  end.

End QueryBuilder.

(* ================================================================== *)
(** ** Query kinds, flags and table names *)

Definition with_queryType (m : QueryExpressionMap) (q : QueryType) :=
  {| aliases := aliases m; mainAlias := mainAlias m;
     aliasNamePrefixingEnabled := aliasNamePrefixingEnabled m;
     disableEscaping := disableEscaping m; queryType := q;
     withDeleted := withDeleted m; wheres := wheres m;
     extraAppendedAndWhereCondition := extraAppendedAndWhereCondition m;
     comment := comment m; parameters := parameters m;
     nativeParameters := nativeParameters m;
     parentQueryBuilder := parentQueryBuilder m |}.

Definition with_disableEscaping (m : QueryExpressionMap) (b : bool) :=
  {| aliases := aliases m; mainAlias := mainAlias m;
     aliasNamePrefixingEnabled := aliasNamePrefixingEnabled m;
     disableEscaping := b; queryType := queryType m;
     withDeleted := withDeleted m; wheres := wheres m;
     extraAppendedAndWhereCondition := extraAppendedAndWhereCondition m;
     comment := comment m; parameters := parameters m;
     nativeParameters := nativeParameters m;
     parentQueryBuilder := parentQueryBuilder m |}.

Definition with_comment (m : QueryExpressionMap) (c : option string) :=
  {| aliases := aliases m; mainAlias := mainAlias m;
     aliasNamePrefixingEnabled := aliasNamePrefixingEnabled m;
     disableEscaping := disableEscaping m; queryType := queryType m;
     withDeleted := withDeleted m; wheres := wheres m;
     extraAppendedAndWhereCondition := extraAppendedAndWhereCondition m;
     comment := c; parameters := parameters m;
     nativeParameters := nativeParameters m;
     parentQueryBuilder := parentQueryBuilder m |}.

(** The methods that write one field of the expression map.  [select]
    and [update] are the calls without argument; the builder handed back
    by the registered class works on the same expression map. *)
Module Builder.

Definition select (m : QueryExpressionMap) := with_queryType m QSelect.
Definition insert (m : QueryExpressionMap) := with_queryType m QInsert.
Definition update (m : QueryExpressionMap) := with_queryType m QUpdate.
Definition delete (m : QueryExpressionMap) := with_queryType m QDelete.
Definition softDelete (m : QueryExpressionMap) := with_queryType m QSoftDelete.
Definition restore (m : QueryExpressionMap) := with_queryType m QRestore.

(** [comment(comment)]. *)
Definition comment (m : QueryExpressionMap) (c : string) := with_comment m (Some c).

(** [disableEscaping()] writes [false] into the field. *)
Definition disableEscaping (m : QueryExpressionMap) := with_disableEscaping m false.

End Builder.

(** [String.prototype.split] with a one-character separator: the pieces
    between the separators, at least one. *)
Fixpoint split_on (sep : ascii) (s : string) : list string :=
  match s with
  | EmptyString => [EmptyString]
  | String c s' =>
      if Ascii.eqb c sep then EmptyString :: split_on sep s'
      else
        match split_on sep s' with
        | piece :: pieces => String c piece :: pieces
        | [] => [String c EmptyString]
        end
  end.

(** What a method throws: an error of [Error], or a plain [Error] object
    with its message. *)
Inductive Thrown :=
| Raised (e : Error)
| PlainError (message : string).

Inductive Completion (A : Type) :=
| Return (a : A)
| Abrupt (t : Thrown).

Arguments Return {A} a.
Arguments Abrupt {A} t.

Definition bindC {A B} (r : Completion A) (k : A -> Completion B) : Completion B :=
  match r with
  | Return a => k a
  | Abrupt t => Abrupt t
  end.

Definition lift {A} (r : Result A) : Completion A :=
  match r with
  | Ok a => Return a
  | Throw e => Abrupt (Raised e)
  end.

(** The getter [alias]. *)
Definition alias (m : QueryExpressionMap) : Completion string :=
  match mainAlias m with
  | None => Abrupt (PlainError "Main alias is not set")
  | Some main => Return (name main)
  end.

(** [columns.indexOf(column) === -1] compares references; the column
    objects of one entity are told apart by their fields. *)
Definition ColumnMetadata_eqb (a b : ColumnMetadata) : bool :=
  String.eqb (databaseName a) (databaseName b)
  && String.eqb (propertyName a) (propertyName b)
  && String.eqb (propertyPath a) (propertyPath b)
  && Bool.eqb (transformer a) (transformer b).

(** [expressionMap.returning]. *)
Inductive Returning :=
| ReturningUndefined
| ReturningString (s : string)
| ReturningArray (names : list string).

(** The driver classes that [createReturningExpression] tests for. *)
Inductive DriverKind := SqlServerDriver | OracleDriver | OtherDriver.

Section Returning.

Variable driver_escape : string -> string.
Variable driver_createParameter : string -> nat -> string.
Variable driver_kind : DriverKind.
Variable driver_isReturningSqlSupported : bool.

(** [driver.columnTypeToNativeParameter(column.type)] and
    [driver.oracle.BIND_OUT]. *)
Variable column_nativeParameterType : ColumnMetadata -> JsValue.
Variable oracle_BIND_OUT : JsValue.

Variable findColumnsWithPropertyPath : EntityMetadata -> string -> list ColumnMetadata.

(** [alias.tablePath!] of an alias without metadata. *)
Variable alias_tablePath : Alias -> string.

Definition double_quote : ascii := ascii_of_nat 34.

(** [getTableName]: every non-empty piece of the path is escaped. *)
Definition getTableName (m : QueryExpressionMap) (tablePath : string) : string :=
  Str.join "."
    (map (fun i => if String.eqb i EmptyString then i else escape driver_escape m i)
       (split_on "." tablePath)).

(** [getMainTableName]. *)
Definition getMainTableName (m : QueryExpressionMap) : Completion string :=
  match mainAlias m with
  | None =>
      Abrupt (PlainError
                ("Entity where values should be inserted is not specified. Call "
                   ++ String double_quote ("qb.into(entity)"
                   ++ String double_quote " method to specify it.")))
  | Some main =>
      match metadata main with
      | Some md => Return (tablePath md)
      | None => Return (alias_tablePath main)
      end
  end.

(** [getReturningColumns]; the callback of [forEach] reads
    [mainAlias!.hasMetadata] once per requested name. *)
Definition getReturningColumns (m : QueryExpressionMap) (returning : Returning)
  : Result (list ColumnMetadata) :=
  match returning with
  | ReturningArray [] => Ok []
  | ReturningArray names =>
      match mainAlias m with
      | None => Throw (TypeError "mainAlias is undefined")
      | Some main =>
          match metadata main with
          | Some md => Ok (flat_map (findColumnsWithPropertyPath md) names)
          | None => Ok []
          end
      end
  | _ => Ok []
  end.

(** The columns after the extra returning columns are pushed. *)
Definition returnedColumns (returning : Returning)
    (extraReturningColumns columns : list ColumnMetadata) : list ColumnMetadata :=
  if match returning with ReturningString _ => false | _ => true end
     && (0 <? List.length extraReturningColumns)%nat
     && driver_isReturningSqlSupported
  then
    (columns
       ++ filter (fun column => negb (existsb (ColumnMetadata_eqb column) columns))
            extraReturningColumns)%list
  else columns.

Definition writes_rows (q : QueryType) : bool :=
  match q with
  | QInsert | QUpdate | QSoftDelete | QRestore => true
  | _ => false
  end.

(** The callback of the first [columns.map]. *)
Definition returningColumnExpression (m : QueryExpressionMap) (column : ColumnMetadata)
  : Completion string :=
  let name := escape driver_escape m (databaseName column) in
  match driver_kind with
  | SqlServerDriver =>
      if writes_rows (queryType m) then Return ("INSERTED." ++ name)
      else
        bindC (getMainTableName m)
          (fun table => Return (escape driver_escape m table ++ "." ++ name))
  | _ => Return name
  end.

Fixpoint mapC {A B} (f : A -> Completion B) (l : list A) : Completion (list B) :=
  match l with
  | [] => Return []
  | x :: l' =>
      bindC (f x) (fun y => bindC (mapC f l') (fun ys => Return (y :: ys)))
  end.

(** The object bound for an output column of Oracle. *)
Definition outParameter (column : ColumnMetadata) : JsValue :=
  JsObject [("type", column_nativeParameterType column); ("dir", oracle_BIND_OUT)].

(** The callback of the second [columns.map], on Oracle: the store is
    written, then its size is read. *)
Fixpoint bindOutParameters (m : QueryExpressionMap) (columns : list ColumnMetadata)
  : list string * QueryExpressionMap :=
  match columns with
  | [] => ([], m)
  | column :: rest =>
      let parameterName := "output_" ++ databaseName column in
      let m1 := bindNative m parameterName (outParameter column) in
      let parameter :=
        driver_createParameter parameterName
          (List.length (JsObj.keys (nativeParameters m1))) in
      let (parameters, m2) := bindOutParameters m1 rest in
      (parameter :: parameters, m2)
  end.

(** [createReturningExpression], with the fields [returning] and
    [extraReturningColumns] of the expression map as arguments. *)
Definition createReturningExpression (m : QueryExpressionMap) (returning : Returning)
    (extraReturningColumns : list ColumnMetadata)
  : Completion (string * QueryExpressionMap) :=
  bindC (lift (getReturningColumns m returning)) (fun requested =>
  match returnedColumns returning extraReturningColumns requested with
  | [] =>
      match returning with
      | ReturningString s => Return (s, m)
      | _ => Return (EmptyString, m)
      end
  | columns =>
      bindC (mapC (returningColumnExpression m) columns) (fun expressions =>
      let columnsExpression := Str.join ", " expressions in
      let '(columnsExpression1, m1) :=
        match driver_kind with
        | OracleDriver =>
            let (parameters, m1) := bindOutParameters m columns in
            (columnsExpression ++ " INTO " ++ Str.join ", " parameters, m1)
        | _ => (columnsExpression, m)
        end in
      Return
        (match driver_kind, queryType m with
         | SqlServerDriver, QInsert | SqlServerDriver, QUpdate =>
             columnsExpression1 ++ " INTO @OutputTable"
         | _, _ => columnsExpression1
         end,
         m1))
  end).

End Returning.

(* ================================================================== *)
(** ** Concrete drivers, metadata and builders *)

Module Examples.

(** A driver that quotes with backticks and names its placeholders. *)
Definition backtick (n : string) : string := "`" ++ n ++ "`".
Definition named (parameterName : string) (index : nat) : string := ":" ++ parameterName.

Definition col (p d : string) : ColumnMetadata :=
  {| databaseName := d; propertyName := p; propertyPath := p; transformer := false |}.

Definition entity (cs pks : list ColumnMetadata) : EntityMetadata :=
  {| tablePath := "t"; relations := []; columns := cs; primaryColumns := pks;
     hasMultiplePrimaryKeys := (1 <? List.length pks)%nat; embeddeds := [];
     deleteDateColumn := None; discriminatorColumn := None;
     discriminatorValue := JsUndefined; parentEntityMetadata := None;
     childEntityMetadatas := [] |}.

Definition builder (prefixing escaping : bool) (als : list Alias) : QueryExpressionMap :=
  {| aliases := als; mainAlias := hd_error als;
     aliasNamePrefixingEnabled := prefixing; disableEscaping := escaping;
     queryType := QSelect; withDeleted := false; wheres := [];
     extraAppendedAndWhereCondition := EmptyString; comment := None;
     parameters := []; nativeParameters := []; parentQueryBuilder := None |}.

(** Modelled from the spec: the Metadata Port is not under [src/].  For
    flat entities a property path is a key of the record, it resolves to
    the columns declared with that path, a column reads the value stored
    under its property name, and a scalar identity is wrapped under the
    first primary column. *)
Definition flatPropertyPath (md : EntityMetadata) (o : ObjectLiteral) : list string :=
  JsObj.keys o.
Definition columnsWithPath (md : EntityMetadata) (path : string) : list ColumnMetadata :=
  filter (fun c => String.eqb (propertyPath c) path) (columns md).
Definition entityValue (c : ColumnMetadata) (o : ObjectLiteral) (transform : bool) : JsValue :=
  property o (propertyName c).
Definition idMap (md : EntityMetadata) (id : JsValue) : ObjectLiteral :=
  match id with
  | JsObject fields => fields
  | _ =>
      match primaryColumns md with
      | pk :: _ => [(propertyName pk, id)]
      | [] => []
      end
  end.

Definition user : EntityMetadata :=
  entity [col "id" "id"; col "firstName" "first_name"; col "lastName" "last_name"]
         [col "id" "id"].

Definition userBuilder : QueryExpressionMap :=
  builder true true [{| name := "user"; metadata := Some user |}].

(** Single-table inheritance: the entity [cat] with the children [dog]
    and [bird], all under the parent [animal]. *)
Definition inherited (own : string) (children : list EntityMetadata)
    (parent : option EntityMetadata) : EntityMetadata :=
  {| tablePath := "animal"; relations := [];
     columns := [col "id" "id"; col "type" "type"];
     primaryColumns := [col "id" "id"];
     hasMultiplePrimaryKeys := false; embeddeds := [];
     deleteDateColumn := None; discriminatorColumn := Some (col "type" "type");
     discriminatorValue := JsString own; parentEntityMetadata := parent;
     childEntityMetadatas := children |}.

Definition animal : EntityMetadata := inherited "animal" [] None.

Definition cat : EntityMetadata :=
  inherited "cat"
    [inherited "dog" [] (Some animal); inherited "bird" [] (Some animal)]
    (Some animal).

Definition catAlias : Alias := {| name := "cat"; metadata := Some cat |}.

Definition catBuilder : QueryExpressionMap := builder true true [catAlias].

Definition builder_with_comment (c : string) : QueryExpressionMap :=
  {| aliases := []; mainAlias := None;
     aliasNamePrefixingEnabled := true; disableEscaping := true;
     queryType := QSelect; withDeleted := false; wheres := [];
     extraAppendedAndWhereCondition := EmptyString; comment := Some c;
     parameters := []; nativeParameters := []; parentQueryBuilder := None |}.

(** An entity with a delete-date column, selected with one condition. *)
Definition article : EntityMetadata :=
  {| tablePath := "article"; relations := [];
     columns := [col "id" "id"; col "title" "title"; col "deletedAt" "deleted_at"];
     primaryColumns := [col "id" "id"];
     hasMultiplePrimaryKeys := false; embeddeds := [];
     deleteDateColumn := Some (col "deletedAt" "deleted_at");
     discriminatorColumn := None; discriminatorValue := JsUndefined;
     parentEntityMetadata := None; childEntityMetadatas := [] |}.

Definition articleAlias : Alias := {| name := "article"; metadata := Some article |}.

Definition articleSelect (conditions : list WhereClause) : QueryExpressionMap :=
  {| aliases := [articleAlias]; mainAlias := Some articleAlias;
     aliasNamePrefixingEnabled := true; disableEscaping := true;
     queryType := QSelect; withDeleted := false; wheres := conditions;
     extraAppendedAndWhereCondition := EmptyString; comment := None;
     parameters := []; nativeParameters := []; parentQueryBuilder := None |}.

(** An entity whose single primary column declares a transformer. *)
Definition account : EntityMetadata :=
  entity [col "id" "id"; col "owner" "owner"]
         [{| databaseName := "id"; propertyName := "id"; propertyPath := "id";
             transformer := true |}].

Definition accountBuilder : QueryExpressionMap :=
  builder true true [{| name := "account"; metadata := Some account |}].

(** The text returned and the native parameters left in the store. *)
Definition outcome {A} (r : Result (A * QueryExpressionMap)) : option (A * ObjectLiteral) :=
  match r with
  | Ok (a, m) => Some (a, nativeParameters m)
  | Throw _ => None
  end.

(** A builder over one alias whose entity has the property [id], stored
    in the column [user_id]. *)
Definition idBuilder (aliasName : string) (prefixing escaping : bool)
  : QueryExpressionMap :=
  builder prefixing escaping
    [{| name := aliasName;
        metadata := Some (entity [col "id" "user_id"] [col "id" "user_id"]) |}].

(** The [between] descriptor over the bounds 3 and 5, and its negation.
    [computeFindOperatorExpression] reads the type and the child of a
    [not] descriptor only; the other fields of [not_of] are not the ones
    that the getters of a [Not] descriptor take from its child. *)
Definition between_3_5 : FindOperator :=
  MkFindOperator Between None (JsArray [JsNumber 3; JsNumber 5]) true true None None.

Definition not_of (d : FindOperator) : FindOperator :=
  MkFindOperator Not (Some d) (JsOperator d) true false None None.

(** The native parameters left in the store. *)
Definition nativeAfter {A} (r : Result (A * QueryExpressionMap)) : option ObjectLiteral :=
  match r with
  | Ok (_, m) => Some (nativeParameters m)
  | Throw _ => None
  end.

(** [where({firstName: "a"})] followed by [andWhere({lastName: "b"})] on
    one builder. *)
Definition two_structured_conditions (createParameter : string -> nat -> string)
  : Result ((string * string) * QueryExpressionMap) :=
  ' (first, m1) <-
    computeWhereParameter createParameter false flatPropertyPath columnsWithPath
      entityValue userBuilder (WhereObject [("firstName", JsString "a")]) ;;
  ' (second, m2) <-
    computeWhereParameter createParameter false flatPropertyPath columnsWithPath
      entityValue m1 (WhereObject [("lastName", JsString "b")]) ;;
  Ok ((first, second), m2).

(** The same two conditions on an alias without metadata; the Metadata
    Port is not consulted on this path. *)
Definition tableBuilder : QueryExpressionMap :=
  builder true true [{| name := "t"; metadata := None |}].

Definition two_table_conditions (createParameter : string -> nat -> string)
    (createPropertyPath : EntityMetadata -> ObjectLiteral -> list string)
    (findColumnsWithPropertyPath : EntityMetadata -> string -> list ColumnMetadata)
    (getEntityValue : ColumnMetadata -> ObjectLiteral -> bool -> JsValue)
  : Result ((string * string) * QueryExpressionMap) :=
  ' (first, m1) <-
    computeWhereParameter createParameter false createPropertyPath
      findColumnsWithPropertyPath getEntityValue tableBuilder
      (WhereObject [("firstName", JsString "a")]) ;;
  ' (second, m2) <-
    computeWhereParameter createParameter false createPropertyPath
      findColumnsWithPropertyPath getEntityValue m1
      (WhereObject [("lastName", JsString "b")]) ;;
  Ok ((first, second), m2).

(** [whereInIds(1)] followed by [orWhereInIds(2)] on one builder, on the
    general path of the identity-WHERE compiler. *)
Definition two_identity_lookups (createParameter : string -> nat -> string)
  : Result ((option string * option string) * QueryExpressionMap) :=
  ' (first, m1) <-
    createWhereIdsExpression backtick createParameter false flatPropertyPath
      columnsWithPath entityValue idMap accountBuilder (JsNumber 1) ;;
  ' (second, m2) <-
    createWhereIdsExpression backtick createParameter false flatPropertyPath
      columnsWithPath entityValue idMap m1 (JsNumber 2) ;;
  Ok ((first, second), m2).

(** [where({id: In([1, 2])})] followed by [andWhere({id: In([3])})]. *)
Definition two_operator_conditions (createParameter : string -> nat -> string)
  : Result ((string * string) * QueryExpressionMap) :=
  ' (first, m1) <-
    computeWhereParameter createParameter false flatPropertyPath columnsWithPath
      entityValue userBuilder
      (WhereObject [("id", JsOperator (FindOptions.In [JsNumber 1; JsNumber 2]))]) ;;
  ' (second, m2) <-
    computeWhereParameter createParameter false flatPropertyPath columnsWithPath
      entityValue m1
      (WhereObject [("id", JsOperator (FindOptions.In [JsNumber 3]))]) ;;
  Ok ((first, second), m2).

End Examples.

Import Examples.

(* ================================================================== *)
(** ** The vocabulary of the properties *)

(** [pattern] occurs somewhere in [s]. *)
Definition occurs (pattern s : string) : Prop :=
  exists a b, s = a ++ pattern ++ b.

(** The conditions that [createWhereExpression] pushes after the
    delete-date condition: the discriminator condition and the extra
    appended condition. *)
Definition laterConditions (esc : string -> string) (m : QueryExpressionMap)
    (main : Alias) (md : EntityMetadata) : list string :=
  (match discriminatorColumn md, parentEntityMetadata md with
   | Some column, Some _ => [discriminatorCondition esc m main column]
   | _, _ => []
   end
   ++ match extraAppendedAndWhereCondition m with
      | EmptyString => []
      | extra => [replacePropertyNames esc m extra]
      end)%list.


(** The store after binding the entries in order. *)
Definition bindAll (m : QueryExpressionMap) (entries : list (string * JsValue))
  : QueryExpressionMap :=
  fold_left (fun b e => bindNative b (fst e) (snd e)) entries m.

(* ================================================================== *)
(** ** A statement as tokens between delimiters *)

Module Tokens.

Import Pattern.

(** The characters that bound a candidate: those of the two classes and
    the line terminators. *)
Definition is_delimiter (c : ascii) : bool :=
  in_pre_class c || in_post_class c || is_line_terminator c.

(** A text without delimiter. *)
Definition clean (s : string) : bool :=
  Str.forallb (fun c => negb (is_delimiter c)) s.

(** A candidate may start after [d] / end before [d]. *)
Definition opens (d : ascii) : bool := in_pre_class d || is_line_terminator d.
Definition closes (d : ascii) : bool := in_post_class d || is_line_terminator d.

(** A statement cut at its delimiters: tokens each followed by a
    delimiter, then a last token. *)
Definition segments := list (string * ascii).

Fixpoint untok (segs : segments) (last : string) : string :=
  match segs with
  | [] => last
  | (t, d) :: segs' => t ++ String d (untok segs' last)
  end.

Fixpoint tok (s : string) : segments * string :=
  match s with
  | EmptyString => ([], EmptyString)
  | String c s' =>
      let (segs, last) := tok s' in
      if is_delimiter c then ((EmptyString, c) :: segs, last)
      else
        match segs with
        | [] => ([], String c last)
        | (t, d) :: segs' => ((String c t, d) :: segs', last)
        end
  end.

Definition well_formed (segs : segments) (last : string) : Prop :=
  Forall (fun td => clean (fst td) = true /\ is_delimiter (snd td) = true) segs
  /\ clean last = true.

(** Apply [g] to the tokens that stand between an opening and a closing
    boundary; [left] tells whether the first token has an opening
    boundary on its left. *)
Fixpoint map_tokens (g : string -> string) (left : bool) (segs : segments)
    (last : string) : segments * string :=
  match segs with
  | [] => ([], if left then g last else last)
  | (t, d) :: segs' =>
      let (segs'', last') := map_tokens g (opens d) segs' last in
      ((if left && closes d then g t else t, d) :: segs'', last')
  end.

Definition render (x : segments * string) : string := untok (fst x) (snd x).

(** What may follow a token: nothing, or a delimiter. *)
Definition tail_ok (tail : string) : Prop :=
  match tail with
  | EmptyString => True
  | String d _ => is_delimiter d = true
  end.

Section Engine.

Variable prefix : string.
Variable keys : list string.
Variable out : string -> string.

(** The key of a token that stands for [prefix ++ key]. *)
Definition candidate (t : string) : option string :=
  match Str.strip_prefix prefix t with
  | Some u => if existsb (String.eqb u) keys then Some u else None
  | None => None
  end.

(** What the engine does to a token between two boundaries. *)
Definition substitute (t : string) : string :=
  match candidate t with
  | Some u => out u
  | None => t
  end.

(** The global replace of the engine, with the replacer
    [pre ++ out p]. *)
Definition run (skip : nat) (prev : option ascii) (s : string) : string :=
  replace_from prefix keys (fun pre p => pre ++ out p) skip prev s.

End Engine.

End Tokens.

(* ================================================================== *)
(** ** Separated names *)

Module Separation.

Section Names.

Variable esc : string -> string.
Variable m : QueryExpressionMap.

(** The text that replaces the candidate [alias prefix ++ k]. *)
Definition emitted (a : Alias) (r : JsObj.t string) (k : string) : string :=
  replacementAliasNamePrefix esc m a ++ escape esc m (replacement_of r k).

(** What the loop body for alias [a] does to a token between two
    boundaries. *)
Definition aliasSubstitute (a : Alias) (t : string) : string :=
  match metadata a with
  | None => t
  | Some md =>
      Tokens.substitute (replaceAliasNamePrefix m a) (JsObj.keys (replacements md))
        (emitted a (replacements md)) t
  end.

(** The names of alias [a] are separated: every candidate
    [prefix ++ key] is non-empty and free of delimiters, every emitted
    text is free of delimiters, and every emitted text is left as it is
    by the substitution of every alias in scope. *)
Definition alias_names_separated (a : Alias) : bool :=
  match metadata a with
  | None => true
  | Some md =>
      let r := replacements md in
      forallb
        (fun k =>
           Tokens.clean (replaceAliasNamePrefix m a ++ k)
           && negb (String.eqb (replaceAliasNamePrefix m a ++ k) EmptyString)
           && Tokens.clean (emitted a r k)
           && forallb
                (fun b => String.eqb (aliasSubstitute b (emitted a r k)) (emitted a r k))
                (aliases m))
        (JsObj.keys r)
  end.

Definition names_separated : bool := forallb alias_names_separated (aliases m).

Definition substituteAll (l : list Alias) (t : string) : string :=
  fold_left (fun t a => aliasSubstitute a t) l t.

(** A token that no alias in scope changes. *)
Definition fixed (t : string) : Prop :=
  forall b, In b (aliases m) -> aliasSubstitute b t = t.

End Names.

End Separation.

(* ================================================================== *)
(** ** Boundaries of a replaced candidate *)

Module Boundaries.

Import Pattern.

(** What stands before a replaced candidate: one character of
    [[ =(]], captured in [pre], or the start of the statement or of a
    line. *)
Definition left_boundary (prev : option ascii) (pre : string) : Prop :=
  (exists c, pre = String c EmptyString
             /\ (c = " " \/ c = "=" \/ c = "(")%char)
  \/ (pre = EmptyString /\ (prev = None \/ prev = Some LF \/ prev = Some CR)).

(** What stands after a replaced candidate: the end of the statement, a
    character of [[ =),]], or a line terminator. *)
Definition right_boundary (rest : string) : Prop :=
  rest = EmptyString
  \/ exists c r, rest = String c r
                 /\ (c = " " \/ c = "=" \/ c = ")" \/ c = "," \/ c = LF \/ c = CR)%char.

(** The character before the position that follows [a]. *)
Fixpoint last_char (prev : option ascii) (a : string) : option ascii :=
  match a with
  | EmptyString => prev
  | String c a' => last_char (Some c) a'
  end.

Section Relation.

Variable prefix : string.
Variable keys : list string.
Variable replacer_ : string -> string -> string.

(** [Substituted prev s o]: the text [o] arises from [s] (preceded by
    [prev]) by copying characters and by replacing candidates
    [pre ++ prefix ++ k] that stand between a left and a right boundary
    with the replacer's text. *)
Inductive Substituted : option ascii -> string -> string -> Prop :=
| Sub_end prev : Substituted prev EmptyString EmptyString
| Sub_copy prev c s o :
    Substituted (Some c) s o ->
    Substituted prev (String c s) (String c o)
| Sub_replace prev pre k matched rest o :
    matched = pre ++ prefix ++ k ->
    matched <> EmptyString ->
    left_boundary prev pre ->
    In k keys ->
    right_boundary rest ->
    Substituted (last_char prev matched) rest o ->
    Substituted prev (matched ++ rest) (replacer_ pre k ++ o)
| Sub_insert_end prev k :
    prefix ++ k = EmptyString ->
    left_boundary prev EmptyString ->
    In k keys ->
    Substituted prev EmptyString (replacer_ EmptyString k)
| Sub_insert prev k c s o :
    prefix ++ k = EmptyString ->
    left_boundary prev EmptyString ->
    In k keys ->
    right_boundary (String c s) ->
    Substituted (Some c) s o ->
    Substituted prev (String c s) (replacer_ EmptyString k ++ String c o).

(** A statement in which no key stands before a right boundary. *)
Fixpoint no_candidate (s : string) : bool :=
  match match_keys keys s with
  | Some _ => false
  | None =>
      match s with
      | EmptyString => true
      | String _ s' => no_candidate s'
      end
  end.

End Relation.

(** [SubstitutedThrough esc m l s o]: [o] arises from [s] by one pass of
    [Substituted] per alias of [l] that has metadata, in order, each with
    the prefix, the keys and the replacer of that alias. *)
Inductive SubstitutedThrough (esc : string -> string) (m : QueryExpressionMap)
  : list Alias -> string -> string -> Prop :=
| Through_nil s : SubstitutedThrough esc m [] s s
| Through_skip a l s o :
    metadata a = None ->
    SubstitutedThrough esc m l s o ->
    SubstitutedThrough esc m (a :: l) s o
| Through_alias a md l s s1 o :
    metadata a = Some md ->
    Substituted (replaceAliasNamePrefix m a) (JsObj.keys (replacements md))
      (replacer esc m a (replacements md)) None s s1 ->
    SubstitutedThrough esc m l s1 o ->
    SubstitutedThrough esc m (a :: l) s o.

(** The boundaries as the specification words them: the start and the
    end of the string, not of a line. *)
Definition stated_left_boundary (prev : option ascii) (pre : string) : Prop :=
  (exists c, pre = String c EmptyString
             /\ (c = " " \/ c = "=" \/ c = "(")%char)
  \/ (pre = EmptyString /\ prev = None).

Definition stated_right_boundary (rest : string) : Prop :=
  rest = EmptyString
  \/ exists c r, rest = String c r
                 /\ (c = " " \/ c = "=" \/ c = ")" \/ c = ",")%char.

End Boundaries.

(* ================================================================== *)
(** ** More concrete builders *)

(** A sub-query builder under a parent builder. *)
Definition nested (parent : QueryExpressionMap) : QueryExpressionMap :=
  with_parent (builder true true []) (Some parent).

(** A delete query over the articles, with one condition. *)
Definition articleDelete : QueryExpressionMap :=
  Builder.delete
    (articleSelect [{| where_type := WhereSimple; where_condition := "article.id = :id" |}]).

(** An entity with the composite key [(tenantId, localId)]. *)
Definition membership : EntityMetadata :=
  entity [col "tenantId" "tenant_id"; col "localId" "local_id"]
         [col "tenantId" "tenant_id"; col "localId" "local_id"].

Definition membershipAlias : Alias := {| name := "m"; metadata := Some membership |}.

Definition membershipBuilder : QueryExpressionMap := builder true true [membershipAlias].

(** An insert into the table of the users. *)
Definition userInsert : QueryExpressionMap := Builder.insert userBuilder.

(** A driver that numbers its placeholders. *)
Definition positional (parameterName : string) (index : nat) : string :=
  ":" ++ Str.of_nat index.

(** An entity whose delete-date column sits in the embedded [audit],
    beside a plain column with the same property name. *)
Definition auditDeletedAt : ColumnMetadata :=
  {| databaseName := "auditDeleted_at"; propertyName := "deletedAt";
     propertyPath := "audit.deletedAt"; transformer := false |}.

Definition auditedDocument : EntityMetadata :=
  {| tablePath := "document"; relations := [];
     columns := [col "id" "id"; col "deletedAt" "deletedAt"; auditDeletedAt];
     primaryColumns := [col "id" "id"];
     hasMultiplePrimaryKeys := false; embeddeds := ["audit"];
     deleteDateColumn := Some auditDeletedAt;
     discriminatorColumn := None; discriminatorValue := JsUndefined;
     parentEntityMetadata := None; childEntityMetadatas := [] |}.

Definition documentAlias : Alias :=
  {| name := "document"; metadata := Some auditedDocument |}.

Definition documentSelect : QueryExpressionMap := builder true true [documentAlias].

(** [cat] with its siblings [dog] and [bird]: the three are the children
    of [family], and [cat] has no child of its own.  The children are
    listed under the parent without their link back to it. *)
Definition family : EntityMetadata :=
  inherited "animal"
    [inherited "cat" [] None; inherited "dog" [] None; inherited "bird" [] None]
    None.

Definition siblingCat : EntityMetadata := inherited "cat" [] (Some family).

Definition siblingCatBuilder : QueryExpressionMap :=
  builder true true [{| name := "cat"; metadata := Some siblingCat |}].

(* ================================================================== *)
(** ** The vocabulary of the ledger, the compilers and the tables *)

(** The builder followed by its ancestors, nearest first. *)
Fixpoint lineage (m : QueryExpressionMap) : list QueryExpressionMap :=
  match m with
  | Build_QueryExpressionMap _ _ _ _ _ _ _ _ _ _ _ (Some parent) => m :: lineage parent
  | _ => [m]
  end.

(** The object after the own entries of [ps] are written into it. *)
Definition written (ps o : ObjectLiteral) (k : string) : option JsValue :=
  if in_dec string_dec k (JsObj.keys ps) then Some (property ps k) else JsObj.get o k.

(** The main alias names a child entity of single-table inheritance:
    its metadata has a discriminator column and a parent entity. *)
Definition singleTableChild (m : QueryExpressionMap) : bool :=
  match mainAlias m with
  | Some main =>
      match metadata main with
      | Some md =>
          match discriminatorColumn md, parentEntityMetadata md with
          | Some _, Some _ => true
          | _, _ => false
          end
      | None => false
      end
  | None => false
  end.

(** The connective written before a condition that is not the first. *)
Definition connective (t : WhereType) : string :=
  match t with
  | WhereAnd => "AND "
  | WhereOr => "OR "
  | WhereSimple => EmptyString
  end.

(** The user's WHERE text as a condition list: none when the text is
    blank. *)
Definition userConditions (esc : string -> string) (m : QueryExpressionMap) : list string :=
  if trim_is_empty (createWhereExpressionString esc m) then []
  else [createWhereExpressionString esc m].

(** The descriptor reached through the children of [not] descriptors. *)
Fixpoint innermost (op : FindOperator) : FindOperator :=
  match op with
  | MkFindOperator Not (Some c) _ _ _ _ _ => innermost c
  | _ => op
  end.

(** The operator types that [computeFindOperatorExpression] has a case
    for. *)
Definition is_known (t : FindOperatorType) : bool :=
  match t with
  | OtherOperator _ => false
  | _ => true
  end.

(** The records that [computeWhereParameter] compiles. *)
Definition recordsOf (input : WhereInput) : list ObjectLiteral :=
  match input with
  | WhereArray os => os
  | WhereObject o => [o]
  | WhereString _ => []
  end.

(** On an alias without metadata: the name bound for the key at
    position [i] of the first record, the condition rendered for it and
    the entry it leaves in the store. *)
Definition keyParameterName (i : nat) : string := "where_0_" ++ Str.of_nat i.

Definition keyCondition (createParameter : string -> nat -> string) (prefixing : bool)
    (main : Alias) (o : ObjectLiteral) (key : string) (i : nat) : string :=
  let aliasPath := if prefixing then name main ++ "." ++ key else key in
  match property o key with
  | JsNull => aliasPath ++ " IS NULL"
  | _ => aliasPath ++ " = " ++ createParameter (keyParameterName i) i
  end.

Definition keyEntry (o : ObjectLiteral) (key : string) (i : nat)
  : list (string * JsValue) :=
  match property o key with
  | JsNull => []
  | v => [(keyParameterName i, v)]
  end.

(** What the compilation of one column may throw. *)
Definition column_error (e : Error) : Prop :=
  match e with
  | EntityColumnNotFound _ => False
  | _ => True
  end.

(** A value that is bound as it is: neither [null] nor an operator. *)
Definition is_plain (v : JsValue) : bool :=
  match v with
  | JsNull | JsOperator _ => false
  | _ => true
  end.

(** On an alias with metadata, for a property path resolved to the one
    column [snd pc]: the text compared with the placeholder. *)
Definition resolvedPath (m : QueryExpressionMap) (main : Alias)
    (pc : string * ColumnMetadata) : string :=
  if aliasNamePrefixingEnabled m then name main ++ "." ++ fst pc
  else propertyPath (snd pc).

(** [map] with the index and a position that advances by [step]. *)
Fixpoint mapi2_from {A B} (f : A -> nat -> nat -> B) (step i p : nat) (l : list A)
  : list B :=
  match l with
  | [] => []
  | x :: l' => f x i p :: mapi2_from f step (S i) (p + step) l'
  end.

(** On the general path of [createWhereIdsExpression]: the name bound
    for primary column [j] of identity [i], the entries that one identity
    leaves in the store and the condition rendered for it; [first] is
    the index handed to the driver for its first column. *)
Definition idName (i j : nat) : string :=
  "id_" ++ Str.of_nat i ++ "_" ++ Str.of_nat j.

Definition idEntries (getEntityValue : ColumnMetadata -> ObjectLiteral -> bool -> JsValue)
    (cols : list ColumnMetadata) (id : ObjectLiteral) (i : nat)
  : list (string * JsValue) :=
  mapi (fun primaryColumn j => (idName i j, getEntityValue primaryColumn id true)) cols.

Definition idCondition (esc : string -> string)
    (createParameter : string -> nat -> string) (m : QueryExpressionMap)
    (aliasText : string) (cols : list ColumnMetadata) (i first : nat) : string :=
  Str.join " AND "
    (mapi (fun primaryColumn j =>
             aliasText ++ escape esc m (databaseName primaryColumn) ++ " = "
               ++ createParameter (idName i j) (first + j))
       cols).

(** A piece of a table path: a text without dot. *)
Definition dot_free (s : string) : bool :=
  Str.forallb (fun c => negb (Ascii.eqb c ".")) s.

(** The last element of the list that satisfies [p]. *)
Definition find_last {A} (p : A -> bool) (l : list A) : option A := find p (rev l).

(** The entries that [replacements] takes from the relations: its first
    two loops. *)
Definition relationReplacements (md : EntityMetadata) : JsObj.t string :=
  fold_left
    (fun r relation =>
       fold_left
         (fun r jc =>
            JsObj.set r
              (relationPropertyPath relation ++ "."
                 ++ propertyPath (referencedColumn jc))
              (databaseName (joinColumn jc)))
         (joinColumns relation ++ inverseJoinColumns relation)%list r)
    (relations md)
    (fold_left
       (fun r relation =>
          match joinColumns relation with
          | first :: _ =>
              JsObj.set r (relationPropertyPath relation)
                (databaseName (joinColumn first))
          | [] => r
          end)
       (relations md) []).

(** The database names of an entity: those of its columns and of the
    join columns of its relations. *)
Definition physicalNames (md : EntityMetadata) : list string :=
  (map databaseName (columns md)
   ++ flat_map
        (fun relation =>
           map (fun jc => databaseName (joinColumn jc))
             (joinColumns relation ++ inverseJoinColumns relation))
        (relations md))%list.

(** The values of an object all satisfy [Q]. *)
Definition values_in (Q : string -> Prop) (r : JsObj.t string) : Prop :=
  forall k v, JsObj.get r k = Some v -> Q v.

(** [returning] is a raw text. *)
Definition is_raw (returning : Returning) : bool :=
  match returning with
  | ReturningString _ => true
  | _ => false
  end.

(** The object bound to the name is an output parameter of Oracle. *)
Definition bound_out (BIND_OUT : JsValue) (m : QueryExpressionMap) (parameterName : string)
  : Prop :=
  exists type,
    JsObj.get (nativeParameters m) parameterName
    = Some (JsObject [("type", type); ("dir", BIND_OUT)]).

(** No name written into a replacement table of the scope is
    [__proto__]: the assignment [replacements["__proto__"] = ...] of the
    source creates no own key, so such a name is no replacement key. *)
Definition proto_free (m : QueryExpressionMap) : bool :=
  forallb
    (fun a =>
       match metadata a with
       | Some md => negb (existsb (String.eqb "__proto__") (JsObj.keys (replacements md)))
       | None => true
       end)
    (aliases m).

(** The entries that Oracle binds for the returned columns, and the
    placeholder of the column at position [i]: the index handed to the
    driver is the size of the store once the columns up to this one are
    bound. *)
Definition outEntries (nativeParameterType : ColumnMetadata -> JsValue) (BIND_OUT : JsValue)
    (columns : list ColumnMetadata) : list (string * JsValue) :=
  map (fun column =>
         ("output_" ++ databaseName column,
          outParameter nativeParameterType BIND_OUT column))
    columns.

Definition outPlaceholders (createParameter : string -> nat -> string)
    (nativeParameterType : ColumnMetadata -> JsValue) (BIND_OUT : JsValue)
    (m : QueryExpressionMap) (columns : list ColumnMetadata) : list string :=
  mapi (fun column i =>
          createParameter ("output_" ++ databaseName column)
            (List.length
               (JsObj.keys
                  (nativeParameters
                     (bindAll m
                        (firstn (S i) (outEntries nativeParameterType BIND_OUT columns)))))))
    columns.

(** The extra returning columns that were not requested, in their
    order. *)
Definition notRequested (requested extraReturningColumns : list ColumnMetadata)
  : list ColumnMetadata :=
  filter (fun column => negb (existsb (ColumnMetadata_eqb column) requested))
    extraReturningColumns.

(* ================================================================== *)
(** ** Facts about strings *)

Module StrFacts.

Import Str.

Lemma append_nil_r (s : string) : s ++ EmptyString = s.
Proof. induction s as [|c s IH]; simpl; [reflexivity | now rewrite IH]. Qed.

Lemma append_assoc (a b c : string) : (a ++ b) ++ c = a ++ (b ++ c).
Proof. induction a as [|x a IH]; simpl; [reflexivity | now rewrite IH]. Qed.

Lemma length_append (a b : string) :
  String.length (a ++ b) = String.length a + String.length b.
Proof. induction a as [|x a IH]; simpl; [reflexivity | now rewrite IH]. Qed.

Lemma append_inv_head (a b c : string) : a ++ b = a ++ c -> b = c.
Proof.
  induction a as [|x a IH]; simpl; intros H; [exact H |].
  injection H as H. now apply IH.
Qed.

Lemma length_zero (s : string) : String.length s = 0 -> s = EmptyString.
Proof. destruct s; simpl; [reflexivity | discriminate]. Qed.

Lemma strip_prefix_spec (p s r : string) :
  strip_prefix p s = Some r <-> s = p ++ r.
Proof.
  revert s; induction p as [|a p IH]; intros s; simpl.
  - split; intros H; [now injection H as -> | now subst].
  - destruct s as [|b s]; [split; discriminate |].
    destruct (Ascii.eqb_spec a b) as [->|Hne].
    + rewrite IH. split; intros H; [now subst | now injection H].
    + split; [discriminate | intros H; congruence].
Qed.

Lemma strip_prefix_app (p r : string) : strip_prefix p (p ++ r) = Some r.
Proof. now apply strip_prefix_spec. Qed.

Lemma forallb_app f (a b : string) :
  forallb f (a ++ b) = forallb f a && forallb f b.
Proof.
  induction a as [|x a IH]; simpl; [reflexivity |].
  now rewrite IH, andb_assoc.
Qed.

End StrFacts.

(* ================================================================== *)
(** ** Facts about objects *)

Module JsObjFacts.

Import JsObj.

Section Obj.
Context {V : Type}.

Lemma get_set_same (o : t V) k v : get (set o k v) k = Some v.
Proof.
  induction o as [|[k' v'] o IH]; simpl.
  - now rewrite String.eqb_refl.
  - destruct (String.eqb k' k) eqn:E; simpl; rewrite E; [reflexivity | exact IH].
Qed.

Lemma get_set_other (o : t V) k k' v : k <> k' -> get (set o k v) k' = get o k'.
Proof.
  intros Hne. induction o as [|[k0 v0] o IH]; simpl.
  - destruct (String.eqb_spec k k'); [contradiction | reflexivity].
  - destruct (String.eqb_spec k0 k) as [->|]; simpl.
    + destruct (String.eqb_spec k k'); [contradiction | reflexivity].
    + destruct (String.eqb k0 k'); [reflexivity | exact IH].
Qed.

Lemma get_In (o : t V) k v : get o k = Some v -> In (k, v) o.
Proof.
  induction o as [|[k' v'] o IH]; simpl; [discriminate |].
  destruct (String.eqb_spec k' k) as [->|].
  - intros H; injection H as ->. now left.
  - intros H. right. now apply IH.
Qed.

Lemma get_Some_of_key (o : t V) k : In k (map fst o) -> exists v, get o k = Some v.
Proof.
  induction o as [|[k' v'] o IH]; simpl; [contradiction |].
  intros [->|H].
  - rewrite String.eqb_refl. now exists v'.
  - destruct (String.eqb k' k); [now exists v' | now apply IH].
Qed.

End Obj.

Lemma In_insert_index x y l : In y (insert_index x l) <-> y = x \/ In y l.
Proof.
  induction l as [|z l IH]; simpl.
  - intuition.
  - destruct (fst x <=? fst z)%N; simpl; [intuition | rewrite IH; intuition].
Qed.

Lemma In_sort_indices y l : In y (sort_indices l) <-> In y l.
Proof.
  induction l as [|x l IH]; simpl; [reflexivity |].
  rewrite In_insert_index, IH. intuition.
Qed.

Lemma In_index_keys n k ks : In (n, k) (index_keys ks) <-> In k ks /\ array_index k = Some n.
Proof.
  induction ks as [|k' ks IH]; simpl; [intuition |].
  destruct (array_index k') as [n'|] eqn:E; simpl; rewrite IH.
  - split.
    + intros [H|[H1 H2]]; [injection H as -> ->; auto | auto].
    + intros [[->|H1] H2]; [left; congruence | auto].
  - split; [intuition |].
    intros [[->|H1] H2]; [congruence | auto].
Qed.

Lemma In_keys {V} (o : t V) k : In k (keys o) <-> In k (map fst o).
Proof.
  unfold keys. rewrite in_app_iff, filter_In, in_map_iff. split.
  - intros [[[n k'] [E H]]|[H _]]; [|exact H].
    simpl in E; subst k'. apply In_sort_indices, In_index_keys in H. tauto.
  - intros H. unfold is_plain_key. destruct (array_index k) as [n|] eqn:E.
    + left. exists (n, k). split; [reflexivity |].
      apply In_sort_indices, In_index_keys. auto.
    + right. auto.
Qed.

End JsObjFacts.

(* ================================================================== *)
(** ** The operator translator: [in] and [not] *)

Lemma join_nonempty_head (sep p : string) (ps : list string) :
  p <> EmptyString -> Str.join sep (p :: ps) <> EmptyString.
Proof.
  intros Hp. destruct p as [|c p]; [contradiction |].
  destruct ps; simpl; discriminate.
Qed.

(** C4.  An [in] descriptor with no placeholder translates to ["0=1"];
    with placeholders it translates to the column, [" IN ("], the
    placeholders joined by [", "], and [")"]; with non-empty placeholders
    the fragment [<column> IN ()] is never the result. *)
Theorem in_operator_translation :
  forall (pg : bool) (op : FindOperator) (c : string) (ps : list string),
    FindOp.type op = In_ ->
    (ps = [] -> computeFindOperatorExpression pg op c ps = Ok "0=1")
    /\ (ps <> [] ->
        computeFindOperatorExpression pg op c ps
        = Ok (c ++ " IN (" ++ Str.join ", " ps ++ ")"))
    /\ ((forall p, In p ps -> p <> EmptyString) ->
        computeFindOperatorExpression pg op c ps <> Ok (c ++ " IN ()")).
Proof.
  intros pg [ty ch v u mp olp g] c ps Hty. simpl in Hty. subst ty.
  split; [| split].
  - intros ->. reflexivity.
  - intros Hne. destruct ps; [contradiction | reflexivity].
  - intros Hps. destruct ps as [|p ps]; simpl.
    + intros H. injection H as H.
      apply (f_equal String.length) in H.
      rewrite StrFacts.length_append in H. simpl in H. lia.
    + intros H. injection H as H.
      apply StrFacts.append_inv_head in H.
      assert (Hj : Str.join ", " (p :: ps) <> EmptyString)
        by (apply join_nonempty_head, Hps; now left).
      change (" IN (" ++ (Str.join ", " (p :: ps) ++ ")") = " IN (" ++ ")") in H.
      apply StrFacts.append_inv_head in H.
      destruct (Str.join ", " (p :: ps)) as [|x r]; [contradiction |].
      simpl in H. injection H as _ H. destruct r; discriminate.
Qed.

Lemma in_operator_translation_witness :
  computeFindOperatorExpression false (FindOptions.In [JsNumber 1; JsNumber 2])
    "post.id" [":a"; ":b"]
  = Ok "post.id IN (:a, :b)".
Proof.
  apply (proj1 (proj2 (in_operator_translation false
                         (FindOptions.In [JsNumber 1; JsNumber 2])
                         "post.id" [":a"; ":b"] eq_refl))).
  discriminate.
Defined.

(** C5.  Translating a [not] descriptor that wraps [D] wraps the
    translation of [D] in [NOT(...)] (and fails exactly when [D] does);
    a [not] descriptor without child translates to the inequality against
    the first placeholder; [not(between(3,5))] renders
    [NOT(c BETWEEN p0 AND p1)]. *)
Theorem not_operator_composable :
  forall (pg : bool) (D : FindOperator) (c : string) (ps : list string)
         (v : JsValue) (u mp : bool) (olp : option (list (string * JsValue)))
         (g : option (string -> string)),
    (forall s, computeFindOperatorExpression pg D c ps = Ok s ->
               computeFindOperatorExpression pg
                 (MkFindOperator Not (Some D) v u mp olp g) c ps
               = Ok ("NOT(" ++ s ++ ")"))
    /\ (forall e, computeFindOperatorExpression pg D c ps = Throw e ->
                  computeFindOperatorExpression pg
                    (MkFindOperator Not (Some D) v u mp olp g) c ps
                  = Throw e)
    /\ (forall p0 rest,
          ps = p0 :: rest ->
          computeFindOperatorExpression pg
            (MkFindOperator Not None v u mp olp g) c ps
          = Ok (c ++ " != " ++ p0))
    /\ (forall p0 p1,
          computeFindOperatorExpression pg (not_of between_3_5) c [p0; p1]
          = Ok ("NOT(" ++ c ++ " BETWEEN " ++ p0 ++ " AND " ++ p1 ++ ")")).
Proof.
  intros pg D c ps v u mp olp g. repeat split.
  - intros s H. simpl. now rewrite H.
  - intros e H. simpl. now rewrite H.
  - intros p0 rest ->. reflexivity.
  - intros p0 p1. unfold placeholder. simpl.
    repeat (rewrite StrFacts.append_assoc; simpl). reflexivity.
Qed.

Lemma not_operator_composable_witness :
  computeFindOperatorExpression false (not_of (FindOptions.In [JsNumber 1]))
    "c" [":p0"]
  = Ok "NOT(c IN (:p0))".
Proof.
  exact (proj1 (not_operator_composable false (FindOptions.In [JsNumber 1])
                  "c" [":p0"] (JsOperator (FindOptions.In [JsNumber 1]))
                  true false None None) "c IN (:p0)" eq_refl).
Defined.

(* ================================================================== *)
(** ** The parameter ledger *)

Lemma find_function_key (ps : ObjectLiteral) (ks : list string) (k : string) :
  In k ks -> instanceof_Function (property ps k) = true ->
  exists key, find (fun key => instanceof_Function (property ps key)) ks = Some key.
Proof.
  induction ks as [|k0 ks IH]; simpl; [contradiction |].
  intros [->|Hin] Hf.
  - rewrite Hf. now exists k.
  - destruct (instanceof_Function (property ps k0)); [now exists k0 | now apply IH].
Qed.

(** [setParameters] throws as soon as one own value is a function, before
    any parameter is stored. *)
Lemma setParameters_rejects_function (m : QueryExpressionMap) (ps : ObjectLiteral)
    (k : string) (source : string) :
  JsObj.get ps k = Some (JsFunction source) ->
  exists key, setParameters m ps = Throw (FunctionParameterNotSupported key).
Proof.
  intros Hget.
  destruct (find_function_key ps (JsObj.keys ps) k) as [key Hkey].
  - apply JsObjFacts.In_keys. apply JsObjFacts.get_In in Hget.
    apply in_map_iff. now exists (k, JsFunction source).
  - unfold property. now rewrite Hget.
  - exists key. destruct m; simpl; unfold first_function_key; now rewrite Hkey.
Qed.

(** C6 (at the failing input).  [setParameter] stores a function value
    and raises nothing: the value is afterwards read back from the
    ledger. *)
Theorem setParameter_stores_function :
  forall (m : QueryExpressionMap) (key source : string),
    JsObj.get (parameters (setParameter m key (JsFunction source))) key
    = Some (JsFunction source).
Proof.
  intros m key source. unfold setParameter. simpl. apply JsObjFacts.get_set_same.
Qed.

(* ================================================================== *)
(** ** Native parameter names across calls on one builder *)

(** Operator payloads are offset by the number of keys that already
    start with the name: the second [in] condition binds [where_0_0_02]
    and the three entries stay. *)
Lemma operator_payload_names_are_offset :
  forall createParameter : string -> nat -> string,
    nativeAfter (two_operator_conditions createParameter)
    = Some [("where_0_0_00", JsNumber 1); ("where_0_0_01", JsNumber 2);
            ("where_0_0_02", JsNumber 3)].
Proof. intros createParameter. reflexivity. Qed.

(** C7 (at the failing input).  Two structured conditions compiled on
    one builder are bound to the same name: on an alias without metadata
    both are bound to [where_0_0], on an alias with metadata both are
    bound to [where_0_0_0]; the second call overwrites the entry of the
    first, and the store ends with one entry holding ["b"].  Two identity
    lookups are likewise both bound to [id_0_0]. *)
Theorem second_condition_overwrites_native_parameter :
  forall (createParameter : string -> nat -> string)
         (createPropertyPath : EntityMetadata -> ObjectLiteral -> list string)
         (findColumnsWithPropertyPath : EntityMetadata -> string -> list ColumnMetadata)
         (getEntityValue : ColumnMetadata -> ObjectLiteral -> bool -> JsValue),
    two_table_conditions createParameter createPropertyPath
      findColumnsWithPropertyPath getEntityValue
    = Ok (("t.firstName = " ++ createParameter "where_0_0" 0,
           "t.lastName = " ++ createParameter "where_0_0" 0),
          bindNative tableBuilder "where_0_0" (JsString "b"))
    /\ nativeAfter (two_table_conditions createParameter createPropertyPath
                      findColumnsWithPropertyPath getEntityValue)
       = Some [("where_0_0", JsString "b")]
    /\ two_structured_conditions createParameter
       = Ok (("user.firstName = " ++ createParameter "where_0_0_0" 0,
              "user.lastName = " ++ createParameter "where_0_0_0" 1),
             bindNative userBuilder "where_0_0_0" (JsString "b"))
    /\ nativeAfter (two_structured_conditions createParameter)
       = Some [("where_0_0_0", JsString "b")]
    /\ two_identity_lookups createParameter
       = Ok ((Some ("`account`.`id` = " ++ createParameter "id_0_0" 0),
              Some ("`account`.`id` = " ++ createParameter "id_0_0" 1)),
             bindNative accountBuilder "id_0_0" (JsNumber 2))
    /\ nativeAfter (two_identity_lookups createParameter)
       = Some [("id_0_0", JsNumber 2)].
Proof.
  intros createParameter createPropertyPath findColumnsWithPropertyPath getEntityValue.
  repeat split; reflexivity.
Qed.

(* ================================================================== *)
(** ** [getParameters]: the derived discriminator entry *)

Lemma get_None_iff {V} (o : JsObj.t V) (k : string) :
  JsObj.get o k = None <-> ~ In k (map fst o).
Proof.
  induction o as [|[k' v] o IH]; simpl.
  - tauto.
  - destruct (String.eqb_spec k' k) as [->|Hne].
    + split; [discriminate | intros H; exfalso; apply H; now left].
    + rewrite IH. split; [intros H [E|E]; [contradiction | now apply H] | tauto].
Qed.

Lemma get_fold_set (source : ObjectLiteral) (ks : list string) (t : ObjectLiteral)
    (k : string) :
  JsObj.get (fold_left (fun t key => JsObj.set t key (property source key)) ks t) k
  = if in_dec string_dec k ks then Some (property source k) else JsObj.get t k.
Proof.
  revert t. induction ks as [|k0 ks IH]; intros t; simpl; [reflexivity |].
  rewrite IH. destruct (in_dec string_dec k ks) as [Hin|Hnin].
  - destruct (string_dec k0 k); reflexivity.
  - destruct (string_dec k0 k) as [->|Hne].
    + apply JsObjFacts.get_set_same.
    + now apply JsObjFacts.get_set_other.
Qed.

(** [Object.assign({}, source)] has the entries of [source]. *)
Lemma get_Object_assign (source : ObjectLiteral) (k : string) :
  JsObj.get (Object_assign [] source) k = JsObj.get source k.
Proof.
  unfold Object_assign. rewrite get_fold_set.
  destruct (in_dec string_dec k (JsObj.keys source)) as [Hin|Hnin].
  - apply JsObjFacts.In_keys, JsObjFacts.get_Some_of_key in Hin. destruct Hin as [v Hv].
    unfold property. now rewrite Hv.
  - simpl. symmetry. apply get_None_iff. intros H. apply Hnin. now apply JsObjFacts.In_keys.
Qed.

Lemma deref_app_old (h : heap) (o : ObjectLiteral) (r : nat) :
  r < List.length h -> deref (h ++ [o])%list r = deref h r.
Proof. intros H. unfold deref. now apply app_nth1. Qed.

Lemma deref_app_new (h : heap) (o : ObjectLiteral) :
  deref (h ++ [o])%list (List.length h) = o.
Proof. unfold deref. rewrite app_nth2, Nat.sub_diag; [reflexivity | lia]. Qed.

Lemma deref_store_same (h : heap) (r : nat) (o : ObjectLiteral) :
  r < List.length h -> deref (store h r o) r = o.
Proof.
  revert r. induction h as [|x h IH]; intros r Hr; simpl in *; [lia |].
  destruct r; [reflexivity |]. apply IH. lia.
Qed.

Lemma deref_store_other (h : heap) (r r0 : nat) (o : ObjectLiteral) :
  r0 <> r -> deref (store h r o) r0 = deref h r0.
Proof.
  revert r r0. induction h as [|x h IH]; intros r r0 Hne; simpl; [reflexivity |].
  destruct r, r0; try reflexivity; [contradiction |].
  unfold deref in *. simpl. apply IH. lia.
Qed.

(** C9 (as stated) fails.  [cat] has the siblings [dog] and [bird] under
    one parent and no child of its own: the derived array holds the
    value of [cat] alone. *)
Lemma siblings_are_not_included :
  parentEntityMetadata siblingCat = Some family
  /\ map discriminatorValue (childEntityMetadatas family)
     = [JsString "cat"; JsString "dog"; JsString "bird"]
  /\ JsObj.get (getParameters siblingCatBuilder) "discriminatorColumnValues"
     = Some (JsArray [JsString "cat"])
  /\ JsObj.get (getParameters siblingCatBuilder) "discriminatorColumnValues"
     <> Some (JsArray [JsString "dog"; JsString "bird"; JsString "cat"]).
Proof. repeat split. discriminate. Qed.

(** C9 (amended).  For a main alias whose metadata declares a
    discriminator column and a parent entity, [getParameters] returns an
    object that binds [discriminatorColumnValues] to the array of the
    discriminator values of the entity's own children that declare a
    discriminator column, followed by the entity's own value, and
    otherwise has the entries of the ledger; the returned object is a
    fresh reference, and every object of the heap, the ledger included,
    is left as it was. *)
Theorem getParameters_discriminator_projection :
  forall (h : heap) (ledger : nat) (m : QueryExpressionMap) (main : Alias)
         (md : EntityMetadata) (dc : ColumnMetadata) (parent : EntityMetadata),
    ledger < List.length h ->
    mainAlias m = Some main ->
    metadata main = Some md ->
    discriminatorColumn md = Some dc ->
    parentEntityMetadata md = Some parent ->
    let r := fst (getParameters_in h ledger m) in
    let h' := snd (getParameters_in h ledger m) in
    JsObj.get (deref h' r) "discriminatorColumnValues"
    = Some (JsArray
              (map discriminatorValue
                 (filter has_discriminatorColumn (childEntityMetadatas md))
                 ++ [discriminatorValue md])%list)
    /\ (forall k, k <> "discriminatorColumnValues" ->
                  JsObj.get (deref h' r) k = JsObj.get (deref h ledger) k)
    /\ r <> ledger
    /\ (forall r0, r0 < List.length h -> deref h' r0 = deref h r0).
Proof.
  intros h ledger m main md dc parent Hl Hmain Hmd Hdc Hparent r h'.
  subst r h'. unfold getParameters_in, alloc.
  rewrite Hmain, Hmd, Hdc, Hparent. cbn [fst snd].
  assert (Hfresh : List.length h < List.length (h ++ [Object_assign [] (deref h ledger)])%list)
    by (rewrite length_app; simpl; lia).
  repeat split.
  - rewrite deref_store_same by exact Hfresh. apply JsObjFacts.get_set_same.
  - intros k Hk. rewrite deref_store_same by exact Hfresh.
    rewrite JsObjFacts.get_set_other by congruence.
    rewrite deref_app_new. apply get_Object_assign.
  - lia.
  - intros r0 Hr0. rewrite deref_store_other by lia. now apply deref_app_old.
Qed.

Lemma getParameters_discriminator_witness :
  JsObj.get (getParameters catBuilder) "discriminatorColumnValues"
  = Some (JsArray [JsString "dog"; JsString "bird"; JsString "cat"]).
Proof.
  exact (proj1 (getParameters_discriminator_projection
                  [parameters catBuilder] 0 catBuilder catAlias cat
                  (col "type" "type") animal
                  (Nat.lt_0_succ 0) eq_refl eq_refl eq_refl eq_refl)).
Defined.

(* ================================================================== *)
(** ** [createComment] *)

Lemma no_terminator_in_tail (x : ascii) (a : string) :
  ~ occurs "*/" (String x a ++ "*") -> ~ occurs "*/" (a ++ "*").
Proof.
  intros H [u [v E]]. apply H. exists (String x u), v. simpl. now rewrite E.
Qed.

Lemma String_replace_first_terminator (a b : string) :
  ~ occurs "*/" (a ++ "*") ->
  String_replace (a ++ "*/" ++ b) "*/" EmptyString = a ++ b.
Proof.
  induction a as [|x a IH]; intros Hno.
  - reflexivity.
  - assert (Hhead : Str.strip_prefix "*/" (String x a ++ "*/" ++ b) = None).
    { destruct (Str.strip_prefix "*/" (String x a ++ "*/" ++ b)) as [rest|] eqn:E;
        [| reflexivity].
      exfalso. apply StrFacts.strip_prefix_spec in E. simpl in E.
      injection E as -> E. apply Hno.
      destruct a as [|y a]; simpl in E.
      - discriminate.
      - injection E as -> _. exists EmptyString, (a ++ "*"). reflexivity. }
    change (String x a ++ "*/" ++ b) with (String x (a ++ "*/" ++ b)) in *.
    cbn [String_replace]. rewrite Hhead.
    change (String x a ++ b) with (String x (a ++ b)). f_equal.
    apply IH. now apply no_terminator_in_tail with x.
Qed.

Lemma String_replace_absent (pattern replacement s : string) :
  ~ occurs pattern s -> String_replace s pattern replacement = s.
Proof.
  induction s as [|x s IH]; intros Hno.
  - destruct pattern as [|p pattern]; [| reflexivity].
    exfalso. apply Hno. now exists EmptyString, EmptyString.
  - assert (Hhead : Str.strip_prefix pattern (String x s) = None).
    { destruct (Str.strip_prefix pattern (String x s)) as [rest|] eqn:E;
        [| reflexivity].
      exfalso. apply Hno. apply StrFacts.strip_prefix_spec in E.
      exists EmptyString, rest. exact E. }
    cbn [String_replace]. rewrite Hhead. f_equal. apply IH.
    intros [u [v E]]. apply Hno. exists (String x u), v. simpl. now rewrite E.
Qed.

(** C10.  For a non-empty comment, [createComment] renders
    ["/* "], the comment with its first ["*/"] deleted, and [" */ "]:
    when the first occurrence sits after [a] (no occurrence starts inside
    [a]) the body is [a ++ b]; without occurrence the body is the
    comment.  Only the first occurrence goes: the comment ["a*/b*/c"]
    renders a body that still contains ["*/"]. *)
Theorem createComment_removes_first_terminator :
  forall (m : QueryExpressionMap) (c : string),
    comment m = Some c ->
    c <> EmptyString ->
    (forall a b, c = a ++ "*/" ++ b -> ~ occurs "*/" (a ++ "*") ->
                 createComment m = "/* " ++ (a ++ b) ++ " */ ")
    /\ (~ occurs "*/" c -> createComment m = "/* " ++ c ++ " */ ")
    /\ (c = "a*/b*/c" ->
        createComment m = "/* " ++ "ab*/c" ++ " */ " /\ occurs "*/" "ab*/c").
Proof.
  intros m c Hc Hne. unfold createComment. rewrite Hc.
  destruct c as [|x c]; [contradiction |].
  split; [| split].
  - intros a b E Hfirst. rewrite E. now rewrite String_replace_first_terminator.
  - intros Hno. now rewrite String_replace_absent.
  - intros E. rewrite E. split; [reflexivity |].
    exists "ab", "c". reflexivity.
Qed.

Lemma createComment_removes_first_terminator_witness :
  createComment
    (builder_with_comment "a*/b*/c")
  = "/* ab*/c */ ".
Proof.
  exact (proj1 (proj2 (proj2 (createComment_removes_first_terminator
                                (builder_with_comment "a*/b*/c") "a*/b*/c"
                                eq_refl ltac:(discriminate))) eq_refl)).
Defined.

(* ================================================================== *)
(** ** [createWhereExpression]: the soft-delete filter *)

(** C8 (at the failing input).  The delete-date column of the entity is
    the column [auditDeleted_at] of the embedded [audit]; its property
    name [deletedAt] is also the property path of a plain column.  The
    select query is filtered on the plain column [deletedAt], and the
    delete-date column does not occur in the WHERE expression. *)
Theorem soft_delete_filter_on_another_column :
  deleteDateColumn auditedDocument = Some auditDeletedAt
  /\ databaseName auditDeletedAt = "auditDeleted_at"
  /\ queryType documentSelect = QSelect
  /\ withDeleted documentSelect = false
  /\ deleteDateCondition backtick documentSelect documentAlias auditDeletedAt
     = "`document`.`deletedAt` IS NULL"
  /\ createWhereExpression backtick documentSelect
     = Ok " WHERE `document`.`deletedAt` IS NULL"
  /\ JsObj.get (replacements auditedDocument) "deletedAt" = Some "deletedAt".
Proof. repeat split. Qed.

(* ================================================================== *)
(** ** [createWhereIdsExpression]: the single-key path *)


Section SingleKey.

Variable esc : string -> string.
Variable createParameter : string -> nat -> string.
Variable pg : bool.
Variable createPropertyPath : EntityMetadata -> ObjectLiteral -> list string.
Variable findColumnsWithPropertyPath : EntityMetadata -> string -> list ColumnMetadata.
Variable getEntityValue : ColumnMetadata -> ObjectLiteral -> bool -> JsValue.
Variable ensureEntityIdMap : EntityMetadata -> JsValue -> ObjectLiteral.



Lemma truthy_app (a b : string) : truthy b = true -> truthy (a ++ b) = true.
Proof. destruct a; simpl; [trivial | reflexivity]. Qed.


End SingleKey.


(* ================================================================== *)
(** ** The substitution engine, token by token *)

Module TokenFacts.

Import Pattern.
Import Tokens.

Lemma untok_tok (s : string) : render (tok s) = s.
Proof.
  unfold render. induction s as [|c s IH]; [reflexivity |].
  cbn [tok]. destruct (tok s) as [segs last]. simpl in IH.
  destruct (is_delimiter c).
  - simpl. now rewrite IH.
  - destruct segs as [|[t d] segs]; simpl in *; now rewrite IH.
Qed.

Lemma well_formed_tok (s : string) : well_formed (fst (tok s)) (snd (tok s)).
Proof.
  induction s as [|c s IH]; [split; [constructor | reflexivity] |].
  cbn [tok]. destruct (tok s) as [segs last]. simpl in IH. destruct IH as [Hs Hl].
  destruct (is_delimiter c) eqn:Ec.
  - split; [constructor; [split; [reflexivity | exact Ec] | exact Hs] | exact Hl].
  - destruct segs as [|[t d] segs]; simpl.
    + split; [constructor |]. unfold clean in *. cbn [Str.forallb].
      now rewrite Ec, Hl.
    + inversion Hs as [|x l [Ht Hd] Hrest]; subst. split; [| exact Hl].
      constructor; [| exact Hrest]. cbn [fst snd] in *. split; [| exact Hd].
      unfold clean in *. cbn [Str.forallb]. now rewrite Ec, Ht.
Qed.

Lemma map_tokens_compose (g1 g2 : string -> string) (segs : segments) (last : string) :
  forall left,
    map_tokens g2 left (fst (map_tokens g1 left segs last))
      (snd (map_tokens g1 left segs last))
    = map_tokens (fun t => g2 (g1 t)) left segs last.
Proof.
  induction segs as [|[t d] segs IH]; intros left; simpl.
  - now destruct left.
  - specialize (IH (opens d)).
    destruct (map_tokens g1 (opens d) segs last) as [s1 l1]. simpl in *.
    rewrite IH. destruct (map_tokens (fun t => g2 (g1 t)) (opens d) segs last).
    now destruct (left && closes d).
Qed.

Lemma map_tokens_ext (g1 g2 : string -> string) (segs : segments) (last : string) :
  (forall t, g1 t = g2 t) ->
  forall left, map_tokens g1 left segs last = map_tokens g2 left segs last.
Proof.
  intros H. induction segs as [|[t d] segs IH]; intros left; simpl.
  - now rewrite H.
  - now rewrite IH, H.
Qed.

Lemma map_tokens_well_formed (g : string -> string) (segs : segments) (last : string) :
  (forall t, clean t = true -> clean (g t) = true) ->
  well_formed segs last ->
  forall left,
    well_formed (fst (map_tokens g left segs last)) (snd (map_tokens g left segs last)).
Proof.
  intros Hg [Hs Hl]. induction Hs as [|[t d] segs [Ht Hd] Hs IH]; intros left; simpl.
  - split; [constructor |]. destruct left; auto.
  - specialize (IH (opens d)).
    destruct (map_tokens g (opens d) segs last) as [s1 l1]. simpl in *.
    destruct IH as [IH1 IH2]. split; [| exact IH2].
    constructor; [| exact IH1]. simpl. split; [| exact Hd].
    destruct (left && closes d); auto.
Qed.

Lemma not_delimiter (c : ascii) :
  is_delimiter c = false ->
  in_pre_class c = false /\ in_post_class c = false /\ is_line_terminator c = false.
Proof.
  unfold is_delimiter. intros H.
  apply orb_false_elim in H. destruct H as [H H3].
  apply orb_false_elim in H. tauto.
Qed.

Lemma clean_cons (c : ascii) (s : string) :
  clean (String c s) = true <-> is_delimiter c = false /\ clean s = true.
Proof.
  unfold clean. cbn [Str.forallb]. rewrite andb_true_iff, negb_true_iff. tauto.
Qed.

Lemma clean_app (a b : string) :
  clean (a ++ b) = true <-> clean a = true /\ clean b = true.
Proof. unfold clean. rewrite StrFacts.forallb_app. apply andb_true_iff. Qed.

Lemma strip_prefix_clean (p : string) :
  clean p = true ->
  forall t tail,
    tail_ok tail ->
    Str.strip_prefix p (t ++ tail)
    = option_map (fun u => u ++ tail) (Str.strip_prefix p t).
Proof.
  induction p as [|c p IH]; intros Hp t tail Htail; [reflexivity |].
  apply clean_cons in Hp. destruct Hp as [Hc Hp].
  destruct t as [|x t]; cbn [append Str.strip_prefix].
  - destruct tail as [|d r]; [reflexivity |]. simpl in Htail.
    destruct (Ascii.eqb_spec c d) as [->|]; [congruence | reflexivity].
  - destruct (Ascii.eqb c x); [now apply IH | reflexivity].
Qed.

Lemma lookahead_clean_head (c : ascii) (r tail : string) :
  is_delimiter c = false -> lookahead (String c r ++ tail) = false.
Proof.
  intros H. apply not_delimiter in H. destruct H as [_ [H1 H2]].
  unfold lookahead, at_line_end. cbn [append]. now rewrite H1, H2.
Qed.

Lemma eqb_append_cons (k : string) (c : ascii) (r : string) :
  String.eqb (k ++ String c r) k = false.
Proof.
  apply String.eqb_neq. intros H. apply (f_equal String.length) in H.
  rewrite StrFacts.length_append in H. simpl in H. lia.
Qed.

Lemma match_keys_token (ks : list string) (u tail : string) :
  (forall k, In k ks -> clean k = true) ->
  clean u = true ->
  tail_ok tail ->
  match_keys ks (u ++ tail)
  = if existsb (String.eqb u) ks && lookahead tail then Some u else None.
Proof.
  intros Hks Hu Htail. induction ks as [|k ks IH]; [reflexivity |].
  cbn [match_keys existsb].
  rewrite strip_prefix_clean by (auto; apply Hks; now left).
  rewrite IH by (intros; apply Hks; now right).
  destruct (Str.strip_prefix k u) as [r|] eqn:E; cbn [option_map].
  - apply StrFacts.strip_prefix_spec in E. subst u. destruct r as [|c r].
    + rewrite StrFacts.append_nil_r, String.eqb_refl. cbn [append orb andb].
      destruct (lookahead tail); [reflexivity |]. now rewrite andb_false_r.
    + apply clean_app in Hu. destruct Hu as [_ Hr]. apply clean_cons in Hr.
      rewrite lookahead_clean_head by tauto.
      now rewrite eqb_append_cons.
  - destruct (String.eqb_spec u k) as [->|]; [| reflexivity].
    rewrite (proj2 (StrFacts.strip_prefix_spec k k EmptyString)) in E
      by (now rewrite StrFacts.append_nil_r).
    discriminate.
Qed.

Section Engine.

Variable prefix : string.
Variable keys : list string.
Variable out : string -> string.

Hypothesis prefix_clean : clean prefix = true.
Hypothesis keys_clean : forall k, In k keys -> clean k = true.
Hypothesis patterns_nonempty : forall k, In k keys -> prefix ++ k <> EmptyString.

Local Abbreviation candidate := (Tokens.candidate prefix keys).
Local Abbreviation substitute := (Tokens.substitute prefix keys out).
Local Abbreviation run := (Tokens.run prefix keys out).

Lemma candidate_spec (t u : string) :
  candidate t = Some u -> t = prefix ++ u /\ In u keys.
Proof.
  unfold candidate. destruct (Str.strip_prefix prefix t) as [v|] eqn:E; [| discriminate].
  destruct (existsb (String.eqb v) keys) eqn:Ex; [| discriminate].
  intros H; injection H as ->. apply StrFacts.strip_prefix_spec in E. split; [exact E |].
  apply existsb_exists in Ex. destruct Ex as [k [Hin Hk]].
  apply String.eqb_eq in Hk. now subst k.
Qed.

Lemma candidate_empty : candidate EmptyString = None.
Proof.
  destruct (candidate EmptyString) as [u|] eqn:E; [| reflexivity].
  apply candidate_spec in E. destruct E as [E Hin].
  exfalso. now apply (patterns_nonempty u).
Qed.

Lemma substitute_empty : substitute EmptyString = EmptyString.
Proof. unfold substitute. now rewrite candidate_empty. Qed.

Lemma match_body_token (t tail : string) :
  clean t = true ->
  tail_ok tail ->
  match_body prefix keys (t ++ tail) = if lookahead tail then candidate t else None.
Proof.
  intros Ht Htail. unfold match_body, candidate.
  rewrite strip_prefix_clean by assumption.
  destruct (Str.strip_prefix prefix t) as [u|] eqn:E; cbn [option_map].
  - apply StrFacts.strip_prefix_spec in E. subst t. apply clean_app in Ht.
    rewrite match_keys_token by tauto.
    destruct (existsb (String.eqb u) keys), (lookahead tail); reflexivity.
  - now destruct (lookahead tail).
Qed.

Lemma match_body_delimiter (d : ascii) (s : string) :
  is_delimiter d = true -> match_body prefix keys (String d s) = None.
Proof.
  intros Hd.
  change (String d s) with (EmptyString ++ String d s).
  rewrite match_body_token by (auto; reflexivity).
  rewrite candidate_empty. now destruct (lookahead (String d s)).
Qed.

Lemma run_unfold (prev : option ascii) (c : ascii) (s : string) :
  run 0 prev (String c s)
  = match exec_at prefix keys prev (String c s) with
    | Some m =>
        (fst m ++ out (snd m))
          ++ match match_length prefix m with
             | O => String c (run 0 (Some c) s)
             | S n => run n (Some c) s
             end
    | None => String c (run 0 (Some c) s)
    end.
Proof. reflexivity. Qed.

Lemma match_body_empty : match_body prefix keys EmptyString = None.
Proof.
  change EmptyString with (EmptyString ++ EmptyString).
  rewrite match_body_token by (auto; reflexivity).
  cbn. apply candidate_empty.
Qed.

Lemma run_empty (prev : option ascii) : run 0 prev EmptyString = EmptyString.
Proof.
  unfold run. cbn [replace_from]. unfold exec_at. rewrite match_body_empty.
  now destruct (at_line_start prev).
Qed.

Section Continuation.

(** [tail] is what follows a token, and the engine turns it into
    [tailOut] whatever precedes it. *)
Variable tail tailOut : string.
Hypothesis tail_is_ok : tail_ok tail.
Hypothesis continue : forall prev, run 0 prev tail = tailOut.

Lemma run_skip (a : string) :
  forall prev, run (String.length a) prev (a ++ tail) = tailOut.
Proof.
  induction a as [|c a IH]; intros prev.
  - apply continue.
  - apply (IH (Some c)).
Qed.

Lemma run_copy (t : string) :
  clean t = true ->
  forall prev, at_line_start prev = false -> run 0 prev (t ++ tail) = t ++ tailOut.
Proof.
  induction t as [|c t IH]; intros Ht prev Hprev.
  - apply continue.
  - apply clean_cons in Ht. destruct Ht as [Hc Ht].
    destruct (not_delimiter c Hc) as [Hpre [_ Hlt]].
    change (String c t ++ tail) with (String c (t ++ tail)).
    rewrite run_unfold. unfold exec_at. rewrite Hpre, Hprev.
    change (String c t ++ tailOut) with (String c (t ++ tailOut)).
    f_equal. now apply IH.
Qed.

Lemma run_token (t : string) :
  clean t = true ->
  forall prev,
    run 0 prev (t ++ tail)
    = (if at_line_start prev && lookahead tail then substitute t else t) ++ tailOut.
Proof.
  intros Ht prev. destruct t as [|c t].
  - rewrite substitute_empty. destruct (at_line_start prev && lookahead tail);
      apply continue.
  - pose proof (match_body_token (String c t) tail Ht tail_is_ok) as Hbody.
    apply clean_cons in Ht. destruct Ht as [Hc Ht].
    destruct (not_delimiter c Hc) as [Hpre [_ Hlt]].
    change (String c t ++ tail) with (String c (t ++ tail)) in *.
    rewrite run_unfold. unfold exec_at. rewrite Hpre, Hbody.
    assert (Hcopy : String c (run 0 (Some c) (t ++ tail)) = String c t ++ tailOut).
    { change (String c t ++ tailOut) with (String c (t ++ tailOut)).
      f_equal. now apply run_copy. }
    unfold substitute.
    destruct (at_line_start prev); cbn [andb]; [| exact Hcopy].
    destruct (lookahead tail); [| exact Hcopy].
    destruct (candidate (String c t)) as [u|] eqn:Ec; cbn [option_map]; [| exact Hcopy].
    apply candidate_spec in Ec. destruct Ec as [Ec _].
    unfold match_length. cbn [fst snd String.length Nat.add append].
    rewrite <- StrFacts.length_append, <- Ec. cbn [String.length].
    f_equal. apply run_skip.
Qed.

Lemma run_delimiter (d : ascii) (t : string) :
  is_delimiter d = true ->
  clean t = true ->
  forall prev,
    run 0 prev (String d (t ++ tail))
    = String d ((if opens d && lookahead tail then substitute t else t) ++ tailOut).
Proof.
  intros Hd Ht prev.
  pose proof (match_body_token t tail Ht tail_is_ok) as Hbody.
  pose proof (match_body_delimiter d (t ++ tail) Hd) as Hnone.
  pose proof (run_token t Ht (Some d)) as Hnext.
  cbn [at_line_start] in Hnext.
  rewrite run_unfold. unfold exec_at. rewrite Hbody, Hnone.
  assert (Hstart : (if at_line_start prev
                    then option_map (fun p => (EmptyString, p)) (@None string)
                    else None) = None)
    by now destruct (at_line_start prev).
  rewrite Hstart. unfold opens.
  destruct (in_pre_class d) eqn:Epre; cbn [orb andb].
  - assert (Hlt : is_line_terminator d = false).
    { unfold in_pre_class, is_line_terminator in *.
      destruct (Ascii.eqb_spec d " ") as [->|]; [reflexivity |].
      destruct (Ascii.eqb_spec d "=") as [->|]; [reflexivity |].
      destruct (Ascii.eqb_spec d "(") as [->|]; [reflexivity | discriminate]. }
    rewrite Hlt in Hnext. cbn [andb] in Hnext.
    destruct (lookahead tail); [| now rewrite Hnext].
    unfold substitute.
    destruct (candidate t) as [u|] eqn:Ec; [| now rewrite Hnext].
    apply candidate_spec in Ec. destruct Ec as [Ec _].
    unfold match_length. cbn [fst snd String.length Nat.add append].
    rewrite <- StrFacts.length_append, <- Ec.
    f_equal. f_equal. apply run_skip.
  - now rewrite Hnext.
Qed.

End Continuation.

Lemma lookahead_delimiter (d : ascii) (s : string) : lookahead (String d s) = closes d.
Proof. reflexivity. Qed.

Lemma run_after_delimiter (segs : segments) (last : string) :
  well_formed segs last ->
  forall d prev,
    is_delimiter d = true ->
    run 0 prev (String d (untok segs last))
    = String d (render (map_tokens substitute (opens d) segs last)).
Proof.
  intros [Hsegs Hlast]. induction Hsegs as [|[t d0] segs [Ht Hd0] Hsegs IH];
    intros d prev Hd.
  - cbn [untok map_tokens render fst snd].
    rewrite <- (StrFacts.append_nil_r last) at 1.
    rewrite (run_delimiter EmptyString EmptyString I run_empty d last Hd Hlast).
    cbn [lookahead at_line_end orb]. now rewrite andb_true_r, StrFacts.append_nil_r.
  - cbn [untok fst snd] in *.
    rewrite (run_delimiter (String d0 (untok segs last))
               (String d0 (render (map_tokens substitute (opens d0) segs last)))
               Hd0 (fun prev => IH d0 prev Hd0) d t Hd Ht).
    rewrite lookahead_delimiter. cbn [map_tokens].
    destruct (map_tokens substitute (opens d0) segs last) as [segs' last'].
    reflexivity.
Qed.

(** The engine maps the statement token by token. *)
Lemma run_segments (segs : segments) (last : string) :
  well_formed segs last ->
  forall prev,
    run 0 prev (untok segs last)
    = render (map_tokens substitute (at_line_start prev) segs last).
Proof.
  intros Hwf prev. destruct Hwf as [Hsegs Hlast].
  destruct segs as [|[t d0] segs].
  - cbn [untok map_tokens render fst snd].
    rewrite <- (StrFacts.append_nil_r last) at 1.
    rewrite (run_token EmptyString EmptyString I run_empty last Hlast).
    cbn [lookahead at_line_end orb]. now rewrite andb_true_r, StrFacts.append_nil_r.
  - inversion Hsegs as [|x l [Ht Hd0] Hrest]; subst. cbn [untok fst snd] in *.
    rewrite (run_token (String d0 (untok segs last))
               (String d0 (render (map_tokens substitute (opens d0) segs last)))
               Hd0
               (fun prev => run_after_delimiter segs last (conj Hrest Hlast) d0 prev Hd0)
               t Ht).
    rewrite lookahead_delimiter. cbn [map_tokens].
    destruct (map_tokens substitute (opens d0) segs last) as [segs' last'].
    reflexivity.
Qed.

Lemma replace_by_tokens (s : string) :
  replace prefix keys (fun pre p => pre ++ out p) s
  = render (map_tokens substitute true (fst (tok s)) (snd (tok s))).
Proof.
  rewrite <- (untok_tok s) at 1. unfold render at 1.
  apply (run_segments _ _ (well_formed_tok s) None).
Qed.

End Engine.

End TokenFacts.

(* ================================================================== *)
(** ** [replacePropertyNames]: repeated substitution *)

Section Idempotence.

Variable esc : string -> string.
Variable m : QueryExpressionMap.

Local Abbreviation emitted := (Separation.emitted esc m).
Local Abbreviation aliasSubstitute := (Separation.aliasSubstitute esc m).
Local Abbreviation alias_names_separated := (Separation.alias_names_separated esc m).
Local Abbreviation names_separated := (Separation.names_separated esc m).
Local Abbreviation substituteAll := (Separation.substituteAll esc m).
Local Abbreviation fixed := (Separation.fixed esc m).

Lemma separated_key (a : Alias) (md : EntityMetadata) (k : string) :
  alias_names_separated a = true ->
  metadata a = Some md ->
  In k (JsObj.keys (replacements md)) ->
  Tokens.clean (replaceAliasNamePrefix m a ++ k) = true
  /\ replaceAliasNamePrefix m a ++ k <> EmptyString
  /\ Tokens.clean (emitted a (replacements md) k) = true
  /\ fixed (emitted a (replacements md) k).
Proof.
  unfold alias_names_separated. intros H Hmd Hk. rewrite Hmd in H.
  rewrite forallb_forall in H. specialize (H k Hk).
  repeat (apply andb_true_iff in H; destruct H as [H ?]).
  repeat split; try assumption.
  - intros E. rewrite E in *. discriminate.
  - intros b Hb. match goal with
    | Hf : forallb _ (aliases m) = true |- _ =>
        rewrite forallb_forall in Hf; specialize (Hf b Hb);
        now apply String.eqb_eq in Hf
    end.
Qed.

Lemma aliasSubstitute_cases (a : Alias) (t : string) :
  alias_names_separated a = true ->
  aliasSubstitute a t = t
  \/ (exists md k, metadata a = Some md
                   /\ In k (JsObj.keys (replacements md))
                   /\ aliasSubstitute a t = emitted a (replacements md) k).
Proof.
  intros Hsep. unfold aliasSubstitute.
  destruct (metadata a) as [md|] eqn:Hmd; [| now left].
  unfold Tokens.substitute.
  destruct (Tokens.candidate (replaceAliasNamePrefix m a)
              (JsObj.keys (replacements md)) t) as [u|] eqn:Ec; [| now left].
  apply TokenFacts.candidate_spec in Ec. destruct Ec as [_ Hin].
  right. now exists md, u.
Qed.

Lemma aliasSubstitute_clean (a : Alias) (t : string) :
  alias_names_separated a = true ->
  Tokens.clean t = true -> Tokens.clean (aliasSubstitute a t) = true.
Proof.
  intros Hsep Ht. destruct (aliasSubstitute_cases a t Hsep) as [->|[md [k [Hmd [Hk ->]]]]].
  - exact Ht.
  - now apply (separated_key a md k).
Qed.

Lemma map_tokens_id (segs : Tokens.segments) (last : string) (left : bool) :
  Tokens.map_tokens (fun t => t) left segs last = (segs, last).
Proof.
  revert left. induction segs as [|[t d] segs IH]; intros left; simpl.
  - now destruct left.
  - rewrite IH. now destruct (left && Tokens.closes d).
Qed.

(** The loop body for one alias maps the statement token by token. *)
Lemma replaceForAlias_tokens (a : Alias) (segs : Tokens.segments) (last : string) :
  alias_names_separated a = true ->
  Tokens.well_formed segs last ->
  replaceForAlias esc m (Tokens.untok segs last) a
  = Tokens.render (Tokens.map_tokens (aliasSubstitute a) true segs last).
Proof.
  intros Hsep Hwf. unfold replaceForAlias.
  destruct (metadata a) as [md|] eqn:Hmd.
  - destruct (JsObj.keys (replacements md)) as [|k0 ks] eqn:Hkeys.
    + rewrite (TokenFacts.map_tokens_ext (aliasSubstitute a) (fun t => t)).
      * now rewrite map_tokens_id.
      * intros t. unfold aliasSubstitute. rewrite Hmd, Hkeys.
        unfold Tokens.substitute, Tokens.candidate.
        now destruct (Str.strip_prefix (replaceAliasNamePrefix m a) t).
    + rewrite <- Hkeys.
      assert (Hall : forall k, In k (JsObj.keys (replacements md)) ->
                Tokens.clean (replaceAliasNamePrefix m a) = true
                /\ Tokens.clean k = true
                /\ replaceAliasNamePrefix m a ++ k <> EmptyString).
      { intros k Hk. destruct (separated_key a md k Hsep Hmd Hk) as [Hc [Hn _]].
        apply TokenFacts.clean_app in Hc. tauto. }
      rewrite (TokenFacts.map_tokens_ext (aliasSubstitute a)
                 (Tokens.substitute (replaceAliasNamePrefix m a)
                    (JsObj.keys (replacements md)) (emitted a (replacements md))))
        by (intros t; unfold aliasSubstitute; now rewrite Hmd).
      apply (TokenFacts.run_segments (replaceAliasNamePrefix m a)
               (JsObj.keys (replacements md)) (emitted a (replacements md))).
      * apply (Hall k0). rewrite Hkeys. now left.
      * intros k Hk. now apply Hall.
      * intros k Hk. now apply Hall.
      * exact Hwf.
  - rewrite (TokenFacts.map_tokens_ext (aliasSubstitute a) (fun t => t)).
    + now rewrite map_tokens_id.
    + intros t. unfold aliasSubstitute. now rewrite Hmd.
Qed.

Lemma replaceAll_tokens (l : list Alias) :
  forallb alias_names_separated l = true ->
  forall (segs : Tokens.segments) (last : string),
    Tokens.well_formed segs last ->
    fold_left (replaceForAlias esc m) l (Tokens.untok segs last)
    = Tokens.render (Tokens.map_tokens (substituteAll l) true segs last).
Proof.
  induction l as [|a l IH]; intros Hl segs last Hwf.
  - cbn [fold_left]. unfold substituteAll. cbn [fold_left].
    now rewrite map_tokens_id.
  - cbn [forallb] in Hl. apply andb_true_iff in Hl. destruct Hl as [Ha Hl].
    cbn [fold_left]. rewrite (replaceForAlias_tokens a segs last Ha Hwf).
    unfold Tokens.render at 1.
    rewrite IH; [| exact Hl |].
    + rewrite TokenFacts.map_tokens_compose. reflexivity.
    + apply TokenFacts.map_tokens_well_formed; [| exact Hwf].
      intros t. now apply aliasSubstitute_clean.
Qed.

Lemma substituteAll_fixed (l : list Alias) (t : string) :
  (forall b, In b l -> In b (aliases m)) ->
  fixed t -> substituteAll l t = t.
Proof.
  intros Hl Hfix. induction l as [|a l IH]; [reflexivity |].
  unfold substituteAll in *. cbn [fold_left].
  rewrite (Hfix a) by (apply Hl; now left).
  apply IH. intros b Hb. apply Hl. now right.
Qed.

Lemma substituteAll_cases (l : list Alias) :
  (forall b, In b l -> In b (aliases m)) ->
  forallb alias_names_separated l = true ->
  forall t, substituteAll l t = t \/ fixed (substituteAll l t).
Proof.
  induction l as [|a l IH]; intros Hl Hsep t; [now left |].
  cbn [forallb] in Hsep. apply andb_true_iff in Hsep. destruct Hsep as [Ha Hsep].
  assert (Hl' : forall b, In b l -> In b (aliases m))
    by (intros b Hb; apply Hl; now right).
  change (substituteAll (a :: l) t) with (substituteAll l (aliasSubstitute a t)).
  destruct (aliasSubstitute_cases a t Ha) as [->|[md [k [Hmd [Hk ->]]]]].
  - now apply IH.
  - right. destruct (separated_key a md k Ha Hmd Hk) as [_ [_ [_ Hfix]]].
    now rewrite substituteAll_fixed.
Qed.

Lemma substituteAll_idempotent (t : string) :
  names_separated = true ->
  substituteAll (aliases m) (substituteAll (aliases m) t) = substituteAll (aliases m) t.
Proof.
  intros Hsep.
  destruct (substituteAll_cases (aliases m) (fun b H => H) Hsep t) as [E|Hfix].
  - now rewrite !E.
  - now apply substituteAll_fixed.
Qed.

End Idempotence.

(** C1 (as stated) fails.  With escaping disabled, a column whose
    property name [a] maps to the database name [b] and a column whose
    property name [b] maps to [c]: one pass turns [u.a] into [u.b], a
    second pass turns it into [u.c]. *)
Lemma replacePropertyNames_not_idempotent :
  let m := builder true false
             [{| name := "u";
                 metadata := Some (entity [col "a" "b"; col "b" "c"] []) |}] in
  replacePropertyNames backtick m "u.a = 1" = "u.b = 1"
  /\ replacePropertyNames backtick m (replacePropertyNames backtick m "u.a = 1")
     = "u.c = 1"
  /\ replacePropertyNames backtick m (replacePropertyNames backtick m "u.a = 1")
     <> replacePropertyNames backtick m "u.a = 1".
Proof. repeat split. discriminate. Qed.

(** C1 (amended).  When the names in scope are separated
    ([names_separated]: candidates and emitted texts contain no boundary
    character or line terminator, and no alias in scope changes an
    emitted text), substituting the output of [replacePropertyNames]
    again yields the same text. *)
Theorem replacePropertyNames_idempotent :
  forall (esc : string -> string) (m : QueryExpressionMap) (statement : string),
    Separation.names_separated esc m = true ->
    replacePropertyNames esc m (replacePropertyNames esc m statement)
    = replacePropertyNames esc m statement.
Proof.
  intros esc m statement Hsep. unfold replacePropertyNames.
  rewrite <- (TokenFacts.untok_tok statement). unfold Tokens.render.
  pose proof (TokenFacts.well_formed_tok statement) as Hwf.
  destruct (Tokens.tok statement) as [segs last]. cbn [fst snd] in *.
  rewrite (replaceAll_tokens esc m (aliases m) Hsep segs last Hwf).
  unfold Tokens.render at 1.
  rewrite (replaceAll_tokens esc m (aliases m) Hsep).
  - rewrite TokenFacts.map_tokens_compose. f_equal.
    apply TokenFacts.map_tokens_ext. intros t. now apply substituteAll_idempotent.
  - apply TokenFacts.map_tokens_well_formed; [| exact Hwf].
    intros t Ht. unfold Separation.substituteAll.
    unfold Separation.names_separated in Hsep.
    revert t Ht. induction (aliases m) as [|a l IH]; intros t Ht; [exact Ht |].
    cbn [forallb] in Hsep. apply andb_true_iff in Hsep. destruct Hsep as [Ha Hl].
    cbn [fold_left]. apply IH; [exact Hl |]. now apply aliasSubstitute_clean.
Qed.

Lemma replacePropertyNames_idempotent_witness :
  Separation.names_separated backtick userBuilder = true
  /\ replacePropertyNames backtick userBuilder
       (replacePropertyNames backtick userBuilder
          "user.firstName = :n AND (user.id=:id)")
     = replacePropertyNames backtick userBuilder
         "user.firstName = :n AND (user.id=:id)".
Proof.
  split; [reflexivity |].
  apply (replacePropertyNames_idempotent backtick userBuilder). reflexivity.
Defined.

(* ================================================================== *)
(** ** [replacePropertyNames]: whole-token matching *)

Section WholeToken.

Import Pattern.
Import Boundaries.

Variable prefix : string.
Variable keys : list string.
Variable replacer_ : string -> string -> string.

Local Abbreviation Substituted := (Boundaries.Substituted prefix keys replacer_).
Local Abbreviation no_candidate := (Boundaries.no_candidate keys).

Lemma lookahead_right_boundary (rest : string) :
  lookahead rest = true -> right_boundary rest.
Proof.
  destruct rest as [|c r]; [now left |].
  unfold lookahead, at_line_end, in_post_class, is_line_terminator.
  intros H. right. exists c, r. split; [reflexivity |].
  repeat (apply orb_true_iff in H; destruct H as [H|H]);
    apply Ascii.eqb_eq in H; tauto.
Qed.

Lemma match_keys_sound (ks : list string) (s k : string) :
  match_keys ks s = Some k ->
  In k ks /\ exists rest, s = k ++ rest /\ right_boundary rest.
Proof.
  induction ks as [|k0 ks IH]; cbn [match_keys]; [discriminate |].
  destruct (Str.strip_prefix k0 s) as [rest|] eqn:E.
  - destruct (lookahead rest) eqn:El.
    + intros H; injection H as <-. split; [now left |].
      exists rest. split; [now apply StrFacts.strip_prefix_spec |].
      now apply lookahead_right_boundary.
    + intros H. destruct (IH H) as [Hin Hrest]. split; [now right | exact Hrest].
  - intros H. destruct (IH H) as [Hin Hrest]. split; [now right | exact Hrest].
Qed.

Lemma match_body_sound (s k : string) :
  match_body prefix keys s = Some k ->
  In k keys /\ exists rest, s = (prefix ++ k) ++ rest /\ right_boundary rest.
Proof.
  unfold match_body. destruct (Str.strip_prefix prefix s) as [s'|] eqn:E; [| discriminate].
  intros H. apply match_keys_sound in H. destruct H as [Hin [rest [Hs Hrest]]].
  split; [exact Hin |]. exists rest. split; [| exact Hrest].
  apply StrFacts.strip_prefix_spec in E. rewrite E, Hs. now rewrite StrFacts.append_assoc.
Qed.

Lemma at_line_start_boundary (prev : option ascii) :
  at_line_start prev = true -> left_boundary prev EmptyString.
Proof.
  intros H. right. split; [reflexivity |]. destruct prev as [c|]; [| now left].
  right. unfold at_line_start, is_line_terminator in H.
  apply orb_true_iff in H. destruct H as [H|H]; apply Ascii.eqb_eq in H; subst; tauto.
Qed.

Lemma in_pre_class_boundary (prev : option ascii) (c : ascii) :
  in_pre_class c = true -> left_boundary prev (String c EmptyString).
Proof.
  intros H. left. exists c. split; [reflexivity |].
  unfold in_pre_class in H.
  repeat (apply orb_true_iff in H; destruct H as [H|H]);
    apply Ascii.eqb_eq in H; tauto.
Qed.

(** One match attempt succeeds only on a candidate between boundaries. *)
Lemma exec_at_sound (prev : option ascii) (s pre k : string) :
  exec_at prefix keys prev s = Some (pre, k) ->
  In k keys
  /\ left_boundary prev pre
  /\ exists rest, s = (pre ++ prefix ++ k) ++ rest /\ right_boundary rest.
Proof.
  unfold exec_at.
  assert (Hstart :
            (if at_line_start prev
             then option_map (fun p => (EmptyString, p)) (match_body prefix keys s)
             else None) = Some (pre, k) ->
            In k keys /\ left_boundary prev pre
            /\ exists rest, s = (pre ++ prefix ++ k) ++ rest /\ right_boundary rest).
  { destruct (at_line_start prev) eqn:Els; [| discriminate].
    destruct (match_body prefix keys s) as [p|] eqn:Eb; [| discriminate].
    cbn [option_map]. intros H; injection H as <- <-.
    apply match_body_sound in Eb. destruct Eb as [Hin Hrest].
    split; [exact Hin |]. split; [now apply at_line_start_boundary | exact Hrest]. }
  destruct s as [|c s']; [exact Hstart |].
  destruct (in_pre_class c) eqn:Epre; [| exact Hstart].
  destruct (match_body prefix keys s') as [p|] eqn:Eb; [| exact Hstart].
  intros H; injection H as <- <-.
  apply match_body_sound in Eb. destruct Eb as [Hin [rest [Hs Hrest]]].
  split; [exact Hin |]. split; [now apply in_pre_class_boundary |].
  exists rest. split; [| exact Hrest]. cbn [append]. now rewrite Hs.
Qed.

Lemma replace_from_skip (a rest : string) :
  forall prev,
    replace_from prefix keys replacer_ (String.length a) prev (a ++ rest)
    = replace_from prefix keys replacer_ 0 (last_char prev a) rest.
Proof.
  induction a as [|c a IH]; intros prev; [reflexivity |].
  apply (IH (Some c)).
Qed.

(** The global replace only replaces candidates between boundaries. *)
Lemma replace_from_substituted (n : nat) :
  forall s prev,
    String.length s <= n ->
    Substituted prev s (replace_from prefix keys replacer_ 0 prev s).
Proof.
  induction n as [|n IH]; intros s prev Hlen.
  - destruct s as [|c s]; [| simpl in Hlen; lia].
    cbn [replace_from].
    destruct (exec_at prefix keys prev EmptyString) as [[pre k]|] eqn:E;
      [| constructor].
    apply exec_at_sound in E. destruct E as [Hin [Hleft [rest [Hs _]]]].
    symmetry in Hs. apply (f_equal String.length) in Hs.
    rewrite !StrFacts.length_append in Hs. cbn [String.length] in Hs.
    assert (Hpre : pre = EmptyString) by (apply StrFacts.length_zero; lia).
    subst pre. cbn [fst snd]. rewrite StrFacts.append_nil_r.
    apply Sub_insert_end; [| exact Hleft | exact Hin].
    apply StrFacts.length_zero. rewrite StrFacts.length_append. cbn [append String.length] in Hs. lia.
  - destruct s as [|c s]; [apply (IH EmptyString prev); simpl; lia |].
    cbn [String.length] in Hlen.
    cbn [replace_from].
    destruct (exec_at prefix keys prev (String c s)) as [[pre k]|] eqn:E.
    + apply exec_at_sound in E. destruct E as [Hin [Hleft [rest [Hs Hright]]]].
      unfold match_length. cbn [fst snd].
      replace (String.length pre + String.length prefix + String.length k)
        with (String.length (pre ++ prefix ++ k))
        by (rewrite !StrFacts.length_append; lia).
      destruct (pre ++ prefix ++ k) as [|x a] eqn:Em.
      * cbn [String.length]. cbn [append] in Hs. subst rest.
        assert (Hpre : pre = EmptyString).
        { destruct pre; [reflexivity | discriminate]. }
        subst pre. cbn [append] in Em.
        apply Sub_insert; [exact Em | exact Hleft | exact Hin | exact Hright |].
        apply IH. lia.
      * cbn [String.length]. cbn [append] in Hs. injection Hs as -> ->.
        rewrite replace_from_skip.
        change (String x (a ++ rest)) with (String x a ++ rest).
        apply (Sub_replace prefix keys replacer_ prev pre k (String x a) rest);
          [now rewrite Em | discriminate | exact Hleft | exact Hin | exact Hright |].
        apply IH. rewrite StrFacts.length_append in Hlen. lia.
    + constructor. apply IH. lia.
Qed.

Lemma no_candidate_here (s : string) :
  no_candidate s = true -> match_keys keys s = None.
Proof. destruct s; cbn [no_candidate]; now destruct (match_keys keys _). Qed.

Lemma no_candidate_tail (c : ascii) (s : string) :
  no_candidate (String c s) = true -> no_candidate s = true.
Proof. cbn [no_candidate]. now destruct (match_keys keys (String c s)). Qed.

Lemma no_candidate_suffix (p : string) :
  forall s s', no_candidate s = true -> Str.strip_prefix p s = Some s' ->
               no_candidate s' = true.
Proof.
  induction p as [|x p IH]; intros s s' Hs E; cbn [Str.strip_prefix] in E.
  - now injection E as <-.
  - destruct s as [|c s]; [discriminate |].
    destruct (Ascii.eqb x c); [| discriminate].
    apply (IH s s'); [now apply no_candidate_tail with c | exact E].
Qed.

Lemma no_candidate_body (s : string) :
  no_candidate s = true -> match_body prefix keys s = None.
Proof.
  intros Hs. unfold match_body.
  destruct (Str.strip_prefix prefix s) as [s'|] eqn:E; [| reflexivity].
  apply no_candidate_here. now apply (no_candidate_suffix prefix s s').
Qed.

Lemma replace_from_unchanged (s : string) :
  no_candidate s = true ->
  forall prev, replace_from prefix keys replacer_ 0 prev s = s.
Proof.
  induction s as [|c s IH]; intros Hs prev; cbn [replace_from]; unfold exec_at.
  - rewrite (no_candidate_body _ Hs). now destruct (at_line_start prev).
  - rewrite (no_candidate_body _ Hs).
    rewrite (no_candidate_body s) by (now apply no_candidate_tail with c).
    assert (IH' := IH (no_candidate_tail c s Hs) (Some c)).
    destruct (in_pre_class c), (at_line_start prev); cbn [option_map];
      now rewrite IH'.
Qed.

End WholeToken.

(** C2 (as stated) fails.  Under flag [m] the key [id] is also replaced
    at the start of a line and at the end of a line: after a line feed
    the match succeeds with an empty [pre], and before a line feed the
    lookahead succeeds. *)
Lemma line_boundaries_also_match :
  replacePropertyNames backtick (idBuilder "u" false false)
    ("x" ++ String Pattern.LF "id")
  = "x" ++ String Pattern.LF "user_id"
  /\ replacePropertyNames backtick (idBuilder "u" false false)
       ("id" ++ String Pattern.LF "x")
     = "user_id" ++ String Pattern.LF "x"
  /\ Pattern.exec_at EmptyString ["user_id"; "id"] (Some Pattern.LF) "id"
     = Some (EmptyString, "id")
  /\ ~ Boundaries.stated_left_boundary (Some Pattern.LF) EmptyString
  /\ Pattern.exec_at EmptyString ["user_id"; "id"] None ("id" ++ String Pattern.LF "x")
     = Some (EmptyString, "id")
  /\ ~ Boundaries.stated_right_boundary (String Pattern.LF "x").
Proof.
  repeat split.
  - intros [[c [H _]]|[_ H]]; discriminate.
  - intros [H|[c [r [H Hc]]]]; [discriminate |].
    injection H as <- _. unfold Pattern.LF in Hc.
    destruct Hc as [Hc|[Hc|[Hc|Hc]]]; discriminate.
Qed.

Lemma Substituted_refl (prefix : string) (keys : list string)
    (f : string -> string -> string) (s : string) :
  forall prev, Boundaries.Substituted prefix keys f prev s s.
Proof. induction s as [|c s IH]; intros prev; constructor; apply IH. Qed.

(** The loop body of [replacePropertyNames] for an alias with
    metadata. *)
Lemma replaceForAlias_substituted (esc : string -> string) (m : QueryExpressionMap)
    (a : Alias) (md : EntityMetadata) (statement : string) :
  metadata a = Some md ->
  Boundaries.Substituted (replaceAliasNamePrefix m a) (JsObj.keys (replacements md))
    (replacer esc m a (replacements md)) None
    statement (replaceForAlias esc m statement a).
Proof.
  intros Hmd. unfold replaceForAlias. rewrite Hmd.
  destruct (JsObj.keys (replacements md)) as [|k0 ks] eqn:Hkeys.
  - apply Substituted_refl.
  - apply (replace_from_substituted _ _ _ (String.length statement)). lia.
Qed.

Lemma replaceAll_substituted (esc : string -> string) (m : QueryExpressionMap)
    (l : list Alias) :
  forall statement,
    Boundaries.SubstitutedThrough esc m l statement
      (fold_left (replaceForAlias esc m) l statement).
Proof.
  induction l as [|a l IH]; intros statement; cbn [fold_left].
  - constructor.
  - destruct (metadata a) as [md|] eqn:Hmd.
    + apply (Boundaries.Through_alias esc m a md l statement
               (replaceForAlias esc m statement a)); [exact Hmd | | apply IH].
      now apply replaceForAlias_substituted.
    + apply Boundaries.Through_skip; [exact Hmd |].
      unfold replaceForAlias at 2. rewrite Hmd. apply IH.
Qed.

(** A statement in which no key of any alias in scope stands before a
    right boundary is left unchanged. *)
Lemma replaceAll_unchanged (esc : string -> string) (m : QueryExpressionMap)
    (statement : string) (l : list Alias) :
  (forall a md, In a l -> metadata a = Some md ->
                Boundaries.no_candidate (JsObj.keys (replacements md)) statement = true) ->
  fold_left (replaceForAlias esc m) l statement = statement.
Proof.
  induction l as [|a l IH]; intros H; cbn [fold_left]; [reflexivity |].
  assert (Ha : replaceForAlias esc m statement a = statement).
  { unfold replaceForAlias. destruct (metadata a) as [md|] eqn:Hmd; [| reflexivity].
    destruct (JsObj.keys (replacements md)) as [|k0 ks] eqn:Hkeys; [reflexivity |].
    unfold Pattern.replace. apply replace_from_unchanged.
    rewrite <- Hkeys. apply (H a md); [now left | exact Hmd]. }
  rewrite Ha. apply IH. intros b md Hb. apply H. now right.
Qed.

(** C2 (amended).  [replacePropertyNames] replaces a candidate only when
    it is preceded by a space, [=], [(] or the start of the statement or
    of a line, and followed by a space, [=], [)], [,] or the end of the
    statement or of a line; everything else is copied.  This holds for
    the loop body of every alias with metadata and for the passes over
    all aliases in scope.  A statement in which no key stands before such
    a right boundary is left unchanged; in particular, for an alias whose
    entity has the property [id], the text [middleName = :x] is left
    unchanged, whatever the alias name, the prefixing and the escaping. *)
Theorem whole_token_matching :
  (forall (esc : string -> string) (m : QueryExpressionMap) (a : Alias)
          (md : EntityMetadata) (statement : string),
      metadata a = Some md ->
      Boundaries.Substituted (replaceAliasNamePrefix m a) (JsObj.keys (replacements md))
        (replacer esc m a (replacements md)) None
        statement (replaceForAlias esc m statement a))
  /\ (forall (esc : string -> string) (m : QueryExpressionMap) (statement : string),
        Boundaries.SubstitutedThrough esc m (aliases m) statement
          (replacePropertyNames esc m statement))
  /\ (forall (esc : string -> string) (m : QueryExpressionMap) (statement : string),
        (forall a md, In a (aliases m) -> metadata a = Some md ->
                      Boundaries.no_candidate (JsObj.keys (replacements md)) statement
                      = true) ->
        replacePropertyNames esc m statement = statement)
  /\ Boundaries.no_candidate ["id"] "middleName = :x" = true
  /\ (forall (esc : string -> string) (aliasName : string) (prefixing escaping : bool),
        replacePropertyNames esc (idBuilder aliasName prefixing escaping)
          "middleName = :x"
        = "middleName = :x").
Proof.
  split; [| split; [| split; [| split]]].
  - intros esc m a md statement Hmd. now apply replaceForAlias_substituted.
  - intros esc m statement. apply replaceAll_substituted.
  - intros esc m statement H. now apply replaceAll_unchanged.
  - reflexivity.
  - intros esc aliasName prefixing escaping.
    apply replaceAll_unchanged. intros a md [<-|[]] Hmd.
    injection Hmd as <-. reflexivity.
Qed.

Lemma whole_token_matching_witness :
  Boundaries.Substituted "article." ["id"; "title"; "deleted_at"; "deletedAt"]
    (replacer backtick (articleSelect []) articleAlias (replacements article)) None
    "article.title = :t"
    "`article`.`title` = :t".
Proof.
  exact (proj1 whole_token_matching backtick (articleSelect []) articleAlias article
           "article.title = :t" eq_refl).
Defined.

(* ================================================================== *)
(** ** The parameter ledger along the chain of parent builders *)

Lemma lineage_ind (P : QueryExpressionMap -> Prop) :
  (forall m, parentQueryBuilder m = None -> P m) ->
  (forall m parent, parentQueryBuilder m = Some parent -> P parent -> P m) ->
  forall m, P m.
Proof.
  intros Hroot Hstep. fix IH 1. intros m.
  destruct m as [a ma pre de q wd ws ex c ps nps [parent|]].
  - apply Hstep with parent; [reflexivity | apply IH].
  - apply Hroot. reflexivity.
Qed.

Lemma lineage_unfold (m : QueryExpressionMap) :
  lineage m
  = m :: match parentQueryBuilder m with
         | Some parent => lineage parent
         | None => []
         end.
Proof. destruct m as [a ma pre de q wd ws ex c ps nps [parent|]]; reflexivity. Qed.

Lemma setParameters_unfold (m : QueryExpressionMap) (ps : ObjectLiteral) :
  setParameters m ps
  = match first_function_key ps with
    | Some key => Throw (FunctionParameterNotSupported key)
    | None =>
        m1 <-
          match parentQueryBuilder m with
          | Some parent =>
              parent' <- setParameters parent ps ;;
              Ok (with_parent m (Some parent'))
          | None => Ok m
          end ;;
        Ok (fold_left (fun b key => setParameter b key (property ps key))
              (JsObj.keys ps) m1)
    end.
Proof. destruct m as [a ma pre de q wd ws ex c ps0 nps [parent|]]; reflexivity. Qed.

Lemma setNativeParameters_unfold (m : QueryExpressionMap) (ps : ObjectLiteral) :
  setNativeParameters m ps
  = fold_left
      (fun b key => with_nativeParameters b
                      (JsObj.set (nativeParameters b) key (property ps key)))
      (JsObj.keys ps)
      match parentQueryBuilder m with
      | Some parent => with_parent m (Some (setNativeParameters parent ps))
      | None => m
      end.
Proof. destruct m as [a ma pre de q wd ws ex c ps0 nps [parent|]]; reflexivity. Qed.

Lemma fold_setParameter (ps : ObjectLiteral) (ks : list string) :
  forall m,
    fold_left (fun b key => setParameter b key (property ps key)) ks m
    = with_parameters m
        (fold_left (fun t key => JsObj.set t key (property ps key)) ks (parameters m)).
Proof.
  induction ks as [|k ks IH]; intros m; simpl.
  - destruct m; reflexivity.
  - rewrite IH. reflexivity.
Qed.

Lemma fold_bindNative (ps : ObjectLiteral) (ks : list string) :
  forall m,
    fold_left
      (fun b key => with_nativeParameters b
                      (JsObj.set (nativeParameters b) key (property ps key))) ks m
    = with_nativeParameters m
        (fold_left (fun t key => JsObj.set t key (property ps key)) ks
           (nativeParameters m)).
Proof.
  induction ks as [|k ks IH]; intros m; simpl.
  - destruct m; reflexivity.
  - rewrite IH. reflexivity.
Qed.

Lemma no_function_key (ps : ObjectLiteral) :
  (forall k v, JsObj.get ps k = Some v -> instanceof_Function v = false) ->
  first_function_key ps = None.
Proof.
  intros Hps. unfold first_function_key.
  destruct (find _ (JsObj.keys ps)) as [key|] eqn:E; [| reflexivity].
  apply find_some in E. destruct E as [Hin Hf].
  apply JsObjFacts.In_keys, JsObjFacts.get_Some_of_key in Hin. destruct Hin as [v Hv].
  unfold property in Hf. rewrite Hv in Hf. rewrite (Hps _ _ Hv) in Hf. discriminate.
Qed.

(** X1.  When no own value of [ps] is a function and [ps] has no own
    key [__proto__], [setParameters] succeeds, and the ledger of the
    builder and of every ancestor then holds every entry of [ps], the
    other entries being kept. *)
Theorem setParameters_reaches_every_ancestor :
  forall (m : QueryExpressionMap) (ps : ObjectLiteral),
    (forall k v, JsObj.get ps k = Some v -> instanceof_Function v = false) ->
    JsObj.get ps "__proto__" = None ->
    exists m',
      setParameters m ps = Ok m'
      /\ Forall2
           (fun b b' => forall k, JsObj.get (parameters b') k = written ps (parameters b) k)
           (lineage m) (lineage m').
Proof.
  intros m ps Hps _. pose proof (no_function_key ps Hps) as Hnone.
  induction m as [m Hroot | m parent Hparent IH] using lineage_ind.
  - rewrite setParameters_unfold, Hnone, Hroot. cbn [bind].
    eexists. split; [reflexivity |].
    rewrite fold_setParameter, (lineage_unfold m), lineage_unfold. cbn [parentQueryBuilder with_parameters].
    rewrite Hroot. constructor; [| constructor].
    intros k. cbn [parameters with_parameters]. apply get_fold_set.
  - destruct IH as [parent' [Eparent Hall]].
    rewrite setParameters_unfold, Hnone, Hparent, Eparent. cbn [bind].
    eexists. split; [reflexivity |].
    rewrite fold_setParameter, (lineage_unfold m), lineage_unfold.
    cbn [parentQueryBuilder with_parameters with_parent]. rewrite Hparent.
    constructor; [| exact Hall].
    intros k. cbn [parameters with_parameters with_parent]. apply get_fold_set.
Qed.

Lemma setParameters_reaches_every_ancestor_witness :
  exists m',
    setParameters (nested userBuilder) [("n", JsNumber 1)] = Ok m'
    /\ Forall2
         (fun b b' =>
            forall k, JsObj.get (parameters b') k
                      = written [("n", JsNumber 1)] (parameters b) k)
         (lineage (nested userBuilder)) (lineage m').
Proof.
  apply (setParameters_reaches_every_ancestor (nested userBuilder) [("n", JsNumber 1)]).
  - intros k v. cbn [JsObj.get]. destruct (String.eqb "n" k); [| discriminate].
    intros H. injection H as <-. reflexivity.
  - reflexivity.
Defined.

(** X2.  When some own value of [ps] is a function, [setParameters]
    throws the error that names the first key, in the order of
    [Object.keys], whose value is a function; this holds with or without
    a parent builder. *)
Theorem setParameters_names_first_function :
  forall (m : QueryExpressionMap) (ps : ObjectLiteral) (k source : string),
    JsObj.get ps k = Some (JsFunction source) ->
    exists key before after,
      setParameters m ps = Throw (FunctionParameterNotSupported key)
      /\ JsObj.keys ps = (before ++ key :: after)%list
      /\ instanceof_Function (property ps key) = true
      /\ (forall k', In k' before -> instanceof_Function (property ps k') = false).
Proof.
  intros m ps k source Hget.
  assert (Hin : In k (JsObj.keys ps)).
  { apply JsObjFacts.In_keys. apply JsObjFacts.get_In in Hget.
    apply in_map_iff. now exists (k, JsFunction source). }
  assert (Hf : instanceof_Function (property ps k) = true)
    by (unfold property; now rewrite Hget).
  assert (Hfind : forall ks, In k ks ->
            exists key before after,
              find (fun key => instanceof_Function (property ps key)) ks = Some key
              /\ ks = (before ++ key :: after)%list
              /\ instanceof_Function (property ps key) = true
              /\ (forall k', In k' before -> instanceof_Function (property ps k') = false)).
  { induction ks as [|k0 ks IH]; [contradiction |]. intros Hk. simpl.
    destruct (instanceof_Function (property ps k0)) eqn:E0.
    - exists k0, [], ks. repeat split; [exact E0 | contradiction].
    - destruct Hk as [->|Hk]; [congruence |].
      destruct (IH Hk) as [key [before [after [H1 [H2 [H3 H4]]]]]].
      exists key, (k0 :: before), after. repeat split; [exact H1 | | exact H3 |].
      + simpl. now rewrite H2.
      + intros k' [<-|Hk']; [exact E0 | now apply H4]. }
  destruct (Hfind _ Hin) as [key [before [after [H1 [H2 [H3 H4]]]]]].
  exists key, before, after. repeat split; try assumption.
  rewrite setParameters_unfold. unfold first_function_key. now rewrite H1.
Qed.

Lemma setParameters_names_first_function_witness :
  exists key before after,
    setParameters (nested userBuilder) [("a", JsNumber 1); ("f", JsFunction "() => 1")]
    = Throw (FunctionParameterNotSupported key)
    /\ JsObj.keys [("a", JsNumber 1); ("f", JsFunction "() => 1")]
       = (before ++ key :: after)%list
    /\ instanceof_Function
         (property [("a", JsNumber 1); ("f", JsFunction "() => 1")] key) = true
    /\ (forall k', In k' before ->
          instanceof_Function
            (property [("a", JsNumber 1); ("f", JsFunction "() => 1")] k') = false).
Proof.
  apply (setParameters_names_first_function (nested userBuilder)
           [("a", JsNumber 1); ("f", JsFunction "() => 1")] "f" "() => 1").
  reflexivity.
Defined.

(** X3.  [setNativeParameters] checks nothing: when [ps] has no own key
    [__proto__], the native store of the builder and of every ancestor
    then holds every entry of [ps], function values included, the other
    entries being kept. *)
Theorem setNativeParameters_reaches_every_ancestor :
  forall (m : QueryExpressionMap) (ps : ObjectLiteral),
    JsObj.get ps "__proto__" = None ->
    Forall2
      (fun b b' =>
         forall k, JsObj.get (nativeParameters b') k = written ps (nativeParameters b) k)
      (lineage m) (lineage (setNativeParameters m ps)).
Proof.
  intros m ps _.
  induction m as [m Hroot | m parent Hparent IH] using lineage_ind.
  - rewrite setNativeParameters_unfold, Hroot, fold_bindNative.
    rewrite (lineage_unfold m), lineage_unfold.
    cbn [parentQueryBuilder with_nativeParameters]. rewrite Hroot.
    constructor; [| constructor].
    intros k. cbn [nativeParameters with_nativeParameters]. apply get_fold_set.
  - rewrite setNativeParameters_unfold, Hparent, fold_bindNative.
    rewrite (lineage_unfold m), lineage_unfold.
    cbn [parentQueryBuilder with_nativeParameters with_parent]. rewrite Hparent.
    constructor; [| exact IH].
    intros k. cbn [nativeParameters with_nativeParameters with_parent]. apply get_fold_set.
Qed.

Lemma setNativeParameters_reaches_every_ancestor_witness :
  Forall2
    (fun b b' =>
       forall k, JsObj.get (nativeParameters b') k
                 = written [("f", JsFunction "() => 1")] (nativeParameters b) k)
    (lineage (nested userBuilder))
    (lineage (setNativeParameters (nested userBuilder) [("f", JsFunction "() => 1")])).
Proof.
  apply (setNativeParameters_reaches_every_ancestor (nested userBuilder)
           [("f", JsFunction "() => 1")]).
  reflexivity.
Defined.

(** X4.  Unless the main alias names a child entity of single-table
    inheritance, [getParameters] returns the entries of the ledger and
    nothing else. *)
Theorem getParameters_copies_ledger :
  forall (m : QueryExpressionMap),
    singleTableChild m = false ->
    forall k, JsObj.get (getParameters m) k = JsObj.get (parameters m) k.
Proof.
  intros m Hchild k. unfold getParameters, getParameters_in, alloc.
  unfold singleTableChild in Hchild.
  assert (E : deref ([parameters m] ++ [Object_assign [] (deref [parameters m] 0)])%list 1
              = Object_assign [] (parameters m)) by reflexivity.
  destruct (mainAlias m) as [main|]; [| cbn [List.length]; rewrite E; apply get_Object_assign].
  destruct (metadata main) as [md|]; [| cbn [List.length]; rewrite E; apply get_Object_assign].
  destruct (discriminatorColumn md), (parentEntityMetadata md); try discriminate;
    cbn [List.length]; rewrite E; apply get_Object_assign.
Qed.

Lemma getParameters_copies_ledger_witness :
  JsObj.get (getParameters (setParameter userBuilder "n" (JsNumber 1))) "n"
  = JsObj.get (parameters (setParameter userBuilder "n" (JsNumber 1))) "n".
Proof.
  apply (getParameters_copies_ledger (setParameter userBuilder "n" (JsNumber 1))).
  reflexivity.
Defined.

(* ================================================================== *)
(** ** WHERE expressions: connectives, query kinds, discriminator *)

Lemma mapi_from_positive {A B} (f : A -> nat -> B) (g : A -> B) (l : list A) :
  (forall x i, 0 < i -> f x i = g x) ->
  forall i, 0 < i -> mapi_from f i l = map g l.
Proof.
  intros Hfg. induction l as [|x l IH]; intros i Hi; simpl; [reflexivity |].
  rewrite Hfg by exact Hi. rewrite IH by lia. reflexivity.
Qed.

(** X5.  [createWhereExpressionString] drops the connective of the first
    condition, whatever its type, and writes [AND ] or [OR ] before each
    later condition of that type; a later condition of the plain type is
    joined by a space alone. *)
Theorem createWhereExpressionString_connectives :
  forall (esc : string -> string) (m : QueryExpressionMap),
    createWhereExpressionString esc m
    = match wheres m with
      | [] => EmptyString
      | first :: rest =>
          Str.join " "
            (replacePropertyNames esc m (where_condition first)
               :: map (fun clause =>
                         connective (where_type clause)
                           ++ replacePropertyNames esc m (where_condition clause))
                    rest)
      end.
Proof.
  intros esc m. unfold createWhereExpressionString, mapi.
  destruct (wheres m) as [|first rest]; [reflexivity |].
  cbn [mapi_from]. f_equal. f_equal.
  - destruct (where_type first); reflexivity.
  - apply mapi_from_positive; [| lia].
    intros clause i Hi. apply Nat.ltb_lt in Hi. rewrite Hi.
    destruct (where_type clause); reflexivity.
Qed.

Lemma occurs_append_l (p a b : string) : occurs p b -> occurs p (a ++ b).
Proof.
  intros [u [v E]]. exists (a ++ u), v. rewrite E. now rewrite StrFacts.append_assoc.
Qed.

Lemma occurs_append_r (p a b : string) : occurs p a -> occurs p (a ++ b).
Proof.
  intros [u [v E]]. exists u, (v ++ b). rewrite E.
  now rewrite !StrFacts.append_assoc.
Qed.

Lemma occurs_join (p sep c : string) (l : list string) :
  In c l -> occurs p c -> occurs p (Str.join sep l).
Proof.
  intros Hin Hc. induction l as [|x l IH]; [contradiction |].
  destruct l as [|y l].
  - destruct Hin as [->|[]]. exact Hc.
  - change (Str.join sep (x :: y :: l)) with (x ++ sep ++ Str.join sep (y :: l)).
    destruct Hin as [->|Hin].
    + now apply occurs_append_r.
    + apply occurs_append_l, occurs_append_l. now apply IH.
Qed.

Lemma occurs_renderConditions (p c : string) (l : list string) :
  In c l -> occurs p c -> occurs p (renderConditions l).
Proof.
  intros Hin Hc. destruct l as [|x l]; [contradiction |].
  destruct l as [|y l].
  - destruct Hin as [->|[]]. now apply occurs_append_l.
  - unfold renderConditions.
    apply occurs_append_l, occurs_append_r. now apply occurs_join with c.
Qed.

(** X6.  For a main alias that names a child entity of single-table
    inheritance, and for every query type, [createWhereExpression]
    renders a text that refers to [:...discriminatorColumnValues], and
    [getParameters] binds [discriminatorColumnValues] to an array: the
    placeholder never comes without its parameter. *)
Theorem discriminator_placeholder_is_bound :
  forall (esc : string -> string) (m : QueryExpressionMap),
    singleTableChild m = true ->
    (exists text,
        createWhereExpression esc m = Ok text
        /\ occurs ":...discriminatorColumnValues" text)
    /\ (exists values,
           JsObj.get (getParameters m) "discriminatorColumnValues"
           = Some (JsArray values)).
Proof.
  intros esc m Hchild. unfold singleTableChild in Hchild.
  unfold createWhereExpression, whereConditions, getParameters, getParameters_in, alloc.
  destruct (mainAlias m) as [main|]; [| discriminate].
  destruct (metadata main) as [md|]; [| discriminate].
  destruct (discriminatorColumn md) as [column|]; [| discriminate].
  destruct (parentEntityMetadata md) as [parent|]; [| discriminate].
  split.
  - eexists. split; [reflexivity |].
    apply occurs_renderConditions with (discriminatorCondition esc m main column).
    + rewrite !in_app_iff. right. left. right. now left.
    + unfold discriminatorCondition. apply occurs_append_l.
      exists " IN (", ")". reflexivity.
  - eexists. cbn [List.length]. rewrite deref_store_same by (simpl; lia).
    apply JsObjFacts.get_set_same.
Qed.

Lemma discriminator_placeholder_is_bound_witness :
  (exists text,
      createWhereExpression backtick catBuilder = Ok text
      /\ occurs ":...discriminatorColumnValues" text)
  /\ (exists values,
         JsObj.get (getParameters catBuilder) "discriminatorColumnValues"
         = Some (JsArray values)).
Proof.
  apply (discriminator_placeholder_is_bound backtick catBuilder). reflexivity.
Defined.

(** X7.  The delete-date condition is added for select queries only:
    when the query type is not [select], or [withDeleted] is set,
    [createWhereExpression] renders the user's conditions and the later
    conditions alone, also when the entity declares a delete-date column;
    so it is after [insert()], [update()], [delete()], [softDelete()] and
    [restore()]. *)
Theorem soft_delete_filter_only_on_select :
  forall (esc : string -> string) (m : QueryExpressionMap) (main : Alias)
         (md : EntityMetadata),
    mainAlias m = Some main ->
    metadata main = Some md ->
    (is_select (queryType m) && negb (withDeleted m) = false
     -> createWhereExpression esc m
        = Ok (renderConditions (userConditions esc m ++ laterConditions esc m main md)))
    /\ (forall setter,
          In setter [Builder.insert; Builder.update; Builder.delete;
                     Builder.softDelete; Builder.restore] ->
          createWhereExpression esc (setter m)
          = Ok (renderConditions (userConditions esc m ++ laterConditions esc m main md))).
Proof.
  intros esc m main md Hmain Hmd.
  assert (H : forall m', mainAlias m' = Some main ->
                is_select (queryType m') && negb (withDeleted m') = false ->
                createWhereExpression esc m'
                = Ok (renderConditions
                        (userConditions esc m' ++ laterConditions esc m' main md))).
  { intros m' Hmain' Hq. unfold createWhereExpression, whereConditions.
    rewrite Hmain', Hmd, Hq. reflexivity. }
  split; [now apply H |].
  intros setter Hin. simpl in Hin.
  destruct Hin as [<-|[<-|[<-|[<-|[<-|[]]]]]];
    match goal with
    | |- createWhereExpression esc ?changed = _ => exact (H changed Hmain eq_refl)
    end.
Qed.

Lemma soft_delete_filter_only_on_select_witness :
  createWhereExpression backtick articleDelete
  = Ok " WHERE `article`.`id` = :id".
Proof.
  rewrite (proj1 (soft_delete_filter_only_on_select backtick articleDelete
                    articleAlias article eq_refl eq_refl) eq_refl).
  reflexivity.
Defined.

(* ================================================================== *)
(** ** The operator translator: which descriptors translate *)

Lemma not_chain_ind (P : FindOperator -> Prop) :
  (forall ty ch v u mp olp g,
      (ty = Not -> ch = None) -> P (MkFindOperator ty ch v u mp olp g)) ->
  (forall child v u mp olp g,
      P child -> P (MkFindOperator Not (Some child) v u mp olp g)) ->
  forall op, P op.
Proof.
  intros Hbase Hnot. fix IH 1. intros [ty ch v u mp olp g].
  destruct ty; try (apply Hbase; discriminate).
  destruct ch as [child|]; [apply Hnot, IH | apply Hbase; reflexivity].
Qed.

Lemma translation_of_known (pg : bool) (c : string) (ps : list string) :
  forall op,
    (is_known (FindOp.type (innermost op)) = true ->
     exists text, computeFindOperatorExpression pg op c ps = Ok text)
    /\ (is_known (FindOp.type (innermost op)) = false ->
        computeFindOperatorExpression pg op c ps = Throw UnsupportedFindOperator).
Proof.
  induction op as [ty ch v u mp olp g Hch | child v u mp olp g IH] using not_chain_ind.
  - destruct ty;
      try (split; [intros _; cbn [computeFindOperatorExpression]; eexists; reflexivity
                  | cbn [innermost FindOp.type is_known]; discriminate]).
    + rewrite (Hch eq_refl).
      split; [intros _; eexists; reflexivity | discriminate].
    + split; [intros _ | discriminate].
      cbn [computeFindOperatorExpression]. destruct pg; eexists; reflexivity.
    + split; [intros _ | discriminate].
      cbn [computeFindOperatorExpression]. destruct ps; eexists; reflexivity.
    + split; [intros _ | discriminate].
      cbn [computeFindOperatorExpression]. destruct g; eexists; reflexivity.
    + split; [discriminate | reflexivity].
  - cbn [innermost computeFindOperatorExpression].
    destruct IH as [Hok Hthrow]. split.
    + intros Hk. destruct (Hok Hk) as [text E]. rewrite E. eexists. reflexivity.
    + intros Hk. now rewrite (Hthrow Hk).
Qed.

(** X8.  [computeFindOperatorExpression] translates every descriptor
    whose innermost descriptor, below any nesting of [not], has one of
    the thirteen known types, whatever the number of placeholders; for
    any other innermost type it throws, and it throws nothing else. *)
Theorem translation_fails_only_on_unknown_type :
  forall (pg : bool) (op : FindOperator) (c : string) (ps : list string),
    (is_known (FindOp.type (innermost op)) = true
     <-> exists text, computeFindOperatorExpression pg op c ps = Ok text)
    /\ (forall e, computeFindOperatorExpression pg op c ps = Throw e ->
                  e = UnsupportedFindOperator).
Proof.
  intros pg op c ps. destruct (translation_of_known pg c ps op) as [Hok Hthrow].
  destruct (is_known (FindOp.type (innermost op))) eqn:E.
  - destruct (Hok eq_refl) as [text Ht]. split.
    + split; [intros _; now exists text | reflexivity].
    + intros e He. congruence.
  - rewrite (Hthrow eq_refl). split.
    + split; [discriminate | intros [text Ht]; discriminate].
    + intros e He. congruence.
Qed.

(* ================================================================== *)
(** ** Structured conditions: unmapped properties, null values *)

Section Compiler.

Variable createParameter : string -> nat -> string.
Variable pg : bool.
Variable createPropertyPath : EntityMetadata -> ObjectLiteral -> list string.
Variable findColumnsWithPropertyPath : EntityMetadata -> string -> list ColumnMetadata.
Variable getEntityValue : ColumnMetadata -> ObjectLiteral -> bool -> JsValue.

Lemma mapiM_from_Ok {A B St} (f : A -> nat -> St -> Result (B * St)) (l : list A) :
  forall i st r,
    mapiM_from f i l st = Ok r ->
    forall x, In x l -> exists j st0 y, f x j st0 = Ok y.
Proof.
  induction l as [|a l IH]; intros i st r H x Hin; [contradiction |].
  cbn [mapiM_from] in H.
  destruct (f a i st) as [[y st1]|e] eqn:E; [| discriminate].
  cbn [bind] in H.
  destruct (mapiM_from f (S i) l st1) as [[ys st2]|e] eqn:E'; [| discriminate].
  destruct Hin as [<-|Hin].
  - now exists i, st, (y, st1).
  - now apply (IH _ _ _ E').
Qed.

Lemma mapiM_from_Throw {A B St} (f : A -> nat -> St -> Result (B * St)) (l : list A) :
  forall i st e,
    mapiM_from f i l st = Throw e ->
    exists x j st0, In x l /\ f x j st0 = Throw e.
Proof.
  induction l as [|a l IH]; intros i st e H; [discriminate |].
  cbn [mapiM_from] in H.
  destruct (f a i st) as [[y st1]|e0] eqn:E.
  - cbn [bind] in H.
    destruct (mapiM_from f (S i) l st1) as [[ys st2]|e1] eqn:E'; [discriminate |].
    cbn [bind] in H. injection H as ->.
    destruct (IH _ _ _ E') as [x [j [st0 [Hin Hx]]]].
    exists x, j, st0. split; [now right | exact Hx].
  - cbn [bind] in H. injection H as ->.
    exists a, i, st. split; [now left | exact E].
Qed.

Lemma setParameters_throws (m : QueryExpressionMap) (ps : ObjectLiteral) (e : Error) :
  setParameters m ps = Throw e -> exists key, e = FunctionParameterNotSupported key.
Proof.
  induction m as [m Hroot | m parent Hparent IH] using lineage_ind;
    rewrite setParameters_unfold;
    destruct (first_function_key ps) as [key|];
    try (intros H; injection H as <-; now exists key).
  - rewrite Hroot. discriminate.
  - rewrite Hparent. destruct (setParameters parent ps) as [parent'|e0]; cbn [bind].
    + discriminate.
    + intros H. injection H as ->. now apply IH.
Qed.

Lemma translation_throws (op : FindOperator) (c : string) (ps : list string) (e : Error) :
  computeFindOperatorExpression pg op c ps = Throw e -> e = UnsupportedFindOperator.
Proof.
  destruct (translation_of_known pg c ps op) as [Hok Hthrow].
  destruct (is_known (FindOp.type (innermost op))).
  - destruct (Hok eq_refl) as [text ->]. discriminate.
  - rewrite (Hthrow eq_refl). congruence.
Qed.

Lemma translated_throws (op : FindOperator) (c : string) (ps : list string)
    (st : CompileState) (e : Error) :
  (expression <- computeFindOperatorExpression pg op c ps ;; Ok (expression, st))
  = Throw e ->
  column_error e.
Proof.
  destruct (computeFindOperatorExpression pg op c ps) eqn:E; cbn [bind]; [discriminate |].
  intros H. injection H as <-. now rewrite (translation_throws _ _ _ _ E).
Qed.

Lemma whereColumn_throws main o wi path pi column ci st e :
  whereColumn createParameter pg getEntityValue main o wi path pi column ci st = Throw e ->
  column_error e.
Proof.
  unfold whereColumn.
  destruct (getEntityValue column o true) as [| | | | | | | |op]; try discriminate.
  destruct (FindOp.useParameter op); [| cbn [bind]; apply translated_throws].
  destruct (FindOp.objectLiteralParameters op) as [ps|].
  - destruct (setParameters (fst st) ps) eqn:E; cbn [bind]; [apply translated_throws |].
    intros H. injection H as <-.
    destruct (setParameters_throws _ _ _ E) as [key ->]. exact I.
  - destruct (FindOp.multipleParameters op).
    + destruct (FindOp.value op); cbn [bind];
        try (intros H; injection H as <-; exact I).
      destruct (bindOperatorValues _ _ _ _ _ _ _) as [st1 parameters]. cbn [bind].
      apply translated_throws.
    + cbn [bind].
      destruct (bindOperatorValues _ _ _ _ _ _ _) as [st1 parameters]. cbn [bind].
      apply translated_throws.
Qed.

Lemma whereProperty_throws main md o wi path pi st p :
  whereProperty createParameter pg findColumnsWithPropertyPath getEntityValue
    main md o wi path pi st = Throw (EntityColumnNotFound p) ->
  path = p /\ findColumnsWithPropertyPath md path = [].
Proof.
  unfold whereProperty.
  destruct (findColumnsWithPropertyPath md path) as [|column cols] eqn:E.
  - intros H. injection H as ->. now split.
  - unfold mapiM.
    destruct (mapiM_from _ 0 (column :: cols) st) as [[expressions st1]|e] eqn:E';
      cbn [bind]; [discriminate |].
    intros H. injection H as ->.
    apply mapiM_from_Throw in E'. destruct E' as [x [j [st0 [_ Hx]]]].
    apply whereColumn_throws in Hx. contradiction.
Qed.

Lemma whereProperty_Ok main md o wi path pi st r :
  whereProperty createParameter pg findColumnsWithPropertyPath getEntityValue
    main md o wi path pi st = Ok r ->
  findColumnsWithPropertyPath md path <> [].
Proof.
  unfold whereProperty.
  destruct (findColumnsWithPropertyPath md path); [discriminate | discriminate].
Qed.

(** X9.  On an alias with metadata, [computeWhereParameter] returns
    only when every property path of every record resolves to at least
    one column; and when it throws [EntityColumnNotFound], the error
    names a property path of one of the records that resolves to no
    column. *)
Theorem unmapped_property_is_reported :
  forall (m : QueryExpressionMap) (input : WhereInput) (main : Alias)
         (md : EntityMetadata),
    mainAlias m = Some main ->
    metadata main = Some md ->
    (forall r,
        computeWhereParameter createParameter pg createPropertyPath
          findColumnsWithPropertyPath getEntityValue m input = Ok r ->
        forall o p,
          In o (recordsOf input) -> In p (createPropertyPath md o) ->
          findColumnsWithPropertyPath md p <> [])
    /\ (forall p,
          computeWhereParameter createParameter pg createPropertyPath
            findColumnsWithPropertyPath getEntityValue m input
          = Throw (EntityColumnNotFound p) ->
          exists o,
            In o (recordsOf input) /\ In p (createPropertyPath md o)
            /\ findColumnsWithPropertyPath md p = []).
Proof.
  intros m input main md Hmain Hmd.
  assert (E : computeWhereParameter createParameter pg createPropertyPath
                findColumnsWithPropertyPath getEntityValue m input
              = match input with
                | WhereString s => Ok (s, m)
                | _ =>
                    ' (andConditions, st) <-
                      mapiM (whereWithMetadata createParameter pg createPropertyPath
                               findColumnsWithPropertyPath getEntityValue main md)
                        (recordsOf input)
                        (m, List.length (JsObj.keys (nativeParameters m))) ;;
                    Ok (if (1 <? List.length andConditions)%nat
                        then Str.join " OR " (map (fun w => "(" ++ w ++ ")") andConditions)
                        else Str.join EmptyString andConditions,
                        fst st)
                end).
  { unfold computeWhereParameter. rewrite Hmain, Hmd. destruct input; reflexivity. }
  rewrite E. clear E. unfold mapiM. split.
  - intros r H o p Ho Hp.
    assert (H' : exists r', mapiM_from
                   (whereWithMetadata createParameter pg createPropertyPath
                      findColumnsWithPropertyPath getEntityValue main md)
                   0 (recordsOf input)
                   (m, List.length (JsObj.keys (nativeParameters m))) = Ok r').
    { destruct input; [contradiction | |];
        (destruct (mapiM_from _ 0 _ _) as [r'|e]; [now exists r' | discriminate]). }
    destruct H' as [r' H'].
    destruct (mapiM_from_Ok _ _ _ _ _ H' o Ho) as [j [st0 [y Hy]]].
    unfold whereWithMetadata, mapiM in Hy.
    destruct (mapiM_from _ 0 (createPropertyPath md o) st0) as [r''|e] eqn:E;
      [| discriminate].
    destruct (mapiM_from_Ok _ _ _ _ _ E p Hp) as [j' [st' [y' Hy']]].
    now apply whereProperty_Ok in Hy'.
  - intros p H.
    assert (H' : mapiM_from
                   (whereWithMetadata createParameter pg createPropertyPath
                      findColumnsWithPropertyPath getEntityValue main md)
                   0 (recordsOf input)
                   (m, List.length (JsObj.keys (nativeParameters m)))
                 = Throw (EntityColumnNotFound p)).
    { destruct input; [discriminate | |];
        (destruct (mapiM_from _ 0 _ _) as [[a st]|e]; cbn [bind] in H;
         [discriminate | congruence]). }
    apply mapiM_from_Throw in H'. destruct H' as [o [j [st0 [Ho Hthrow]]]].
    exists o. split; [exact Ho |].
    unfold whereWithMetadata, mapiM in Hthrow.
    destruct (mapiM_from _ 0 (createPropertyPath md o) st0) as [[a st]|e] eqn:E;
      cbn [bind] in Hthrow; [discriminate |].
    injection Hthrow as ->.
    apply mapiM_from_Throw in E. destruct E as [path [j' [st' [Hpath Hp]]]].
    apply whereProperty_throws in Hp. destruct Hp as [-> Hnone]. now split.
Qed.

Lemma bindAll_app (m : QueryExpressionMap) (es1 es2 : list (string * JsValue)) :
  bindAll (bindAll m es1) es2 = bindAll m (es1 ++ es2).
Proof. unfold bindAll. now rewrite fold_left_app. Qed.

Lemma whereKeys_spec (main : Alias) (o : ObjectLiteral) (ks : list string) :
  forall (i : nat) (m : QueryExpressionMap) (index : nat),
    mapiM_from (whereKey createParameter main o 0) i ks (m, index)
    = Ok (mapi_from (keyCondition createParameter (aliasNamePrefixingEnabled m) main o)
            i ks,
          (bindAll m (concat (mapi_from (keyEntry o) i ks)), index)).
Proof.
  induction ks as [|k ks IH]; intros i m index; [reflexivity |].
  cbn [mapiM_from mapi_from concat]. unfold whereKey at 1. cbn [fst snd].
  unfold keyCondition at 1, keyEntry at 1.
  change ("where_" ++ Str.of_nat 0 ++ "_" ++ Str.of_nat i) with (keyParameterName i).
  destruct (property o k) eqn:E; cbn [bind];
    rewrite IH; cbn [bind app];
    replace (S i - 1) with i by lia; reflexivity.
Qed.

(** X10.  On an alias without metadata, one record compiles key by key,
    in the order of [Object.keys]: a [null] value renders
    [<key> IS NULL] and binds nothing; any other value renders an
    equality and is bound under [where_0_<i>], where [i] is the position
    of the key, which is also the index handed to the driver.  The
    conditions are joined by [AND]. *)
Theorem record_without_metadata :
  forall (m : QueryExpressionMap) (main : Alias) (o : ObjectLiteral),
    mainAlias m = Some main ->
    metadata main = None ->
    computeWhereParameter createParameter pg createPropertyPath
      findColumnsWithPropertyPath getEntityValue m (WhereObject o)
    = Ok (Str.join " AND "
            (mapi (keyCondition createParameter (aliasNamePrefixingEnabled m) main o)
               (JsObj.keys o)),
          bindAll m (concat (mapi (keyEntry o) (JsObj.keys o)))).
Proof.
  intros m main o Hmain Hmd. unfold computeWhereParameter. rewrite Hmain, Hmd.
  unfold mapiM. cbn [mapiM_from]. unfold whereWithoutMetadata, mapiM.
  rewrite whereKeys_spec. cbn [bind fst snd List.length Nat.ltb Nat.leb Str.join].
  reflexivity.
Qed.

End Compiler.

Lemma unmapped_property_is_reported_witness :
  exists o,
    In o (recordsOf (WhereObject [("age", JsNumber 1)]))
    /\ In "age" (flatPropertyPath user o)
    /\ columnsWithPath user "age" = [].
Proof.
  apply (proj2 (unmapped_property_is_reported named false flatPropertyPath
                  columnsWithPath entityValue userBuilder
                  (WhereObject [("age", JsNumber 1)])
                  {| name := "user"; metadata := Some user |} user eq_refl eq_refl)).
  reflexivity.
Defined.

Lemma record_without_metadata_witness :
  outcome (computeWhereParameter named false flatPropertyPath columnsWithPath
             entityValue tableBuilder
             (WhereObject [("a", JsNull); ("b", JsNumber 2)]))
  = Some ("t.a IS NULL AND t.b = :where_0_1", [("where_0_1", JsNumber 2)]).
Proof.
  rewrite (record_without_metadata named false flatPropertyPath columnsWithPath
             entityValue tableBuilder {| name := "t"; metadata := None |}
             [("a", JsNull); ("b", JsNumber 2)] eq_refl eq_refl).
  reflexivity.
Defined.

(* ================================================================== *)
(** ** Decimal names *)

Lemma to_uint_not_Nil (n : nat) : Nat.to_uint n <> Decimal.Nil.
Proof.
  intros H. pose proof (Unsigned.of_to n) as E. rewrite H in E.
  cbn in E. subst n. discriminate.
Qed.

Lemma of_nat_inj (a b : nat) : Str.of_nat a = Str.of_nat b -> a = b.
Proof.
  unfold Str.of_nat. intros H.
  apply Unsigned.to_uint_inj.
  pose proof (NilZero.usu _ (to_uint_not_Nil a)) as Ea.
  pose proof (NilZero.usu _ (to_uint_not_Nil b)) as Eb.
  rewrite H in Ea. congruence.
Qed.

Lemma digits_of_uint (d : Decimal.uint) :
  Str.forallb JsObj.is_digit (NilEmpty.string_of_uint d) = true.
Proof. induction d; simpl; try exact IHd; reflexivity. Qed.

Lemma digits_of_nat (n : nat) : Str.forallb JsObj.is_digit (Str.of_nat n) = true.
Proof.
  unfold Str.of_nat, NilZero.string_of_uint.
  destruct (Nat.to_uint n) as [|d|d|d|d|d|d|d|d|d|d];
    [reflexivity | apply digits_of_uint ..].
Qed.

Lemma digits_separator_inj (a a' b b' : string) :
  Str.forallb JsObj.is_digit a = true ->
  Str.forallb JsObj.is_digit a' = true ->
  a ++ String "_" b = a' ++ String "_" b' ->
  a = a' /\ b = b'.
Proof.
  revert a'. induction a as [|x a IH]; intros [|x' a'] Ha Ha' H; simpl in *.
  - injection H as ->. now split.
  - injection H as <- _. discriminate.
  - injection H as -> _. discriminate.
  - injection H as -> H.
    apply andb_prop in Ha, Ha'. destruct Ha as [_ Ha], Ha' as [_ Ha'].
    destruct (IH a' Ha Ha' H) as [-> ->]. now split.
Qed.

Lemma idName_inj (i j i' j' : nat) : idName i j = idName i' j' -> i = i' /\ j = j'.
Proof.
  unfold idName. intros H. apply StrFacts.append_inv_head in H.
  apply digits_separator_inj in H; try apply digits_of_nat.
  destruct H as [Hi Hj]. split; now apply of_nat_inj.
Qed.

(* ================================================================== *)
(** ** [createWhereIdsExpression]: the path of composite identities *)

Lemma mapi_from_succ {A B} (f : A -> nat -> B) (l : list A) :
  forall i, mapi_from f (S i) l = mapi_from (fun x k => f x (S k)) i l.
Proof. induction l as [|x l IH]; intros i; simpl; [reflexivity | now rewrite IH]. Qed.

Lemma mapi_from_ext {A B} (f g : A -> nat -> B) (l : list A) :
  (forall x k, f x k = g x k) -> forall i, mapi_from f i l = mapi_from g i l.
Proof.
  intros H. induction l as [|x l IH]; intros i; simpl; [reflexivity |].
  now rewrite H, IH.
Qed.

Lemma mapi_from_ext_from {A B} (f g : A -> nat -> B) (l : list A) :
  forall i, (forall x k, i <= k -> f x k = g x k) -> mapi_from f i l = mapi_from g i l.
Proof.
  induction l as [|x l IH]; intros i H; simpl; [reflexivity |].
  rewrite H by lia. rewrite (IH (S i)); [reflexivity |].
  intros y k Hk. apply H. lia.
Qed.

Lemma mapi_from_seq {A B} (g : nat -> B) (l : list A) :
  forall i, mapi_from (fun _ k => g k) i l = map g (seq i (List.length l)).
Proof. induction l as [|x l IH]; intros i; simpl; [reflexivity | now rewrite IH]. Qed.

Lemma map_mapi_from {A B C} (h : B -> C) (f : A -> nat -> B) (l : list A) :
  forall i, map h (mapi_from f i l) = mapi_from (fun x k => h (f x k)) i l.
Proof. induction l as [|x l IH]; intros i; simpl; [reflexivity | now rewrite IH]. Qed.

Lemma length_mapi_from {A B} (f : A -> nat -> B) (l : list A) :
  forall i, List.length (mapi_from f i l) = List.length l.
Proof. induction l as [|x l IH]; intros i; simpl; [reflexivity | now rewrite IH]. Qed.

Lemma mapi2_from_ext {A B} (f g : A -> nat -> nat -> B) (step : nat) (l : list A) :
  (forall x i p, f x i p = g x i p) ->
  forall i p, mapi2_from f step i p l = mapi2_from g step i p l.
Proof.
  intros H. induction l as [|x l IH]; intros i p; simpl; [reflexivity |].
  now rewrite H, IH.
Qed.

Lemma mapi2_spec {A B} (f : A -> nat -> nat -> B) (step : nat) (l : list A) :
  forall i p,
    mapi2_from f step i p l = mapi_from (fun x k => f x k (p + (k - i) * step)) i l.
Proof.
  induction l as [|x l IH]; intros i p; [reflexivity |].
  cbn [mapi2_from mapi_from]. rewrite Nat.sub_diag. cbn [Nat.mul]. rewrite Nat.add_0_r.
  f_equal. rewrite IH. apply mapi_from_ext_from. intros y k Hk.
  f_equal. replace (k - i) with (S (k - S i)) by lia. cbn [Nat.mul]. lia.
Qed.

Lemma disableEscaping_bindAll (es : list (string * JsValue)) :
  forall m, disableEscaping (bindAll m es) = disableEscaping m.
Proof.
  induction es as [|e es IH]; intros m; [reflexivity |].
  cbn [bindAll fold_left]. fold (bindAll (bindNative m (fst e) (snd e)) es).
  now rewrite IH.
Qed.

Lemma get_bindAll_other (es : list (string * JsValue)) (n : string) :
  ~ In n (map fst es) ->
  forall m, JsObj.get (nativeParameters (bindAll m es)) n = JsObj.get (nativeParameters m) n.
Proof.
  induction es as [|[n0 v0] es IH]; intros Hn m; [reflexivity |].
  change (bindAll m ((n0, v0) :: es)) with (bindAll (bindNative m n0 v0) es).
  rewrite IH by (intros H; apply Hn; now right).
  cbn [bindNative nativeParameters with_nativeParameters fst snd].
  apply JsObjFacts.get_set_other. intros ->. apply Hn. now left.
Qed.

Lemma get_bindAll (es : list (string * JsValue)) (n : string) (v : JsValue) :
  NoDup (map fst es) -> In (n, v) es ->
  forall m, JsObj.get (nativeParameters (bindAll m es)) n = Some v.
Proof.
  induction es as [|[n0 v0] es IH]; intros Hnd Hin m; [contradiction |].
  cbn [map fst] in Hnd. inversion Hnd as [|? ? Hfresh Hnd']; subst.
  change (bindAll m ((n0, v0) :: es)) with (bindAll (bindNative m n0 v0) es).
  destruct Hin as [E|Hin].
  - injection E as -> ->. rewrite get_bindAll_other by exact Hfresh.
    apply JsObjFacts.get_set_same.
  - now apply IH.
Qed.

Section CompositeKey.

Variable esc : string -> string.
Variable createParameter : string -> nat -> string.
Variable pg : bool.
Variable createPropertyPath : EntityMetadata -> ObjectLiteral -> list string.
Variable findColumnsWithPropertyPath : EntityMetadata -> string -> list ColumnMetadata.
Variable getEntityValue : ColumnMetadata -> ObjectLiteral -> bool -> JsValue.
Variable ensureEntityIdMap : EntityMetadata -> JsValue -> ObjectLiteral.

Lemma whereIdColumns_spec (aliasText : string) (id : ObjectLiteral) (i : nat)
    (cols : list ColumnMetadata) :
  forall (j : nat) (m : QueryExpressionMap) (index : nat),
    mapiM_from (whereIdColumn esc createParameter getEntityValue aliasText id i) j cols
      (m, index)
    = Ok (mapi2_from
            (fun primaryColumn j p =>
               aliasText ++ escape esc m (databaseName primaryColumn) ++ " = "
                 ++ createParameter (idName i j) p)
            1 j index cols,
          (bindAll m
             (mapi_from
                (fun primaryColumn j => (idName i j, getEntityValue primaryColumn id true))
                j cols),
           index + List.length cols)).
Proof.
  induction cols as [|c cols IH]; intros j m index.
  - simpl. now rewrite Nat.add_0_r.
  - cbn [mapiM_from mapi_from mapi2_from]. unfold whereIdColumn at 1. cbn [bind fst snd].
    rewrite IH. cbn [bind List.length].
    replace (S index + List.length cols) with (index + S (List.length cols)) by lia.
    replace (index + 1) with (S index) by lia.
    reflexivity.
Qed.

Lemma idCondition_bindAll (m : QueryExpressionMap) (es : list (string * JsValue))
    (aliasText : string) (cols : list ColumnMetadata) (i first : nat) :
  idCondition esc createParameter (bindAll m es) aliasText cols i first
  = idCondition esc createParameter m aliasText cols i first.
Proof.
  unfold idCondition, mapi. f_equal. apply mapi_from_ext. intros x k.
  unfold escape. now rewrite disableEscaping_bindAll.
Qed.

Lemma whereId_spec (aliasText : string) (md : EntityMetadata) (id : ObjectLiteral)
    (i : nat) (m : QueryExpressionMap) (index : nat) :
  whereId esc createParameter getEntityValue aliasText md id i (m, index)
  = Ok (idCondition esc createParameter m aliasText (primaryColumns md) i index,
        (bindAll m (idEntries getEntityValue (primaryColumns md) id i),
         index + List.length (primaryColumns md))).
Proof.
  unfold whereId, mapiM. rewrite whereIdColumns_spec. cbn [bind].
  rewrite mapi2_spec. unfold idCondition, idEntries, mapi.
  do 3 f_equal. apply mapi_from_ext. intros x k.
  now rewrite Nat.sub_0_r, Nat.mul_1_r.
Qed.

Lemma whereIds_spec (aliasText : string) (md : EntityMetadata)
    (normalized : list ObjectLiteral) :
  forall (i : nat) (m : QueryExpressionMap) (index : nat),
    mapiM_from (whereId esc createParameter getEntityValue aliasText md) i normalized
      (m, index)
    = Ok (mapi2_from
            (fun (_ : ObjectLiteral) i p =>
               idCondition esc createParameter m aliasText (primaryColumns md) i p)
            (List.length (primaryColumns md)) i index normalized,
          (bindAll m
             (concat
                (mapi_from (idEntries getEntityValue (primaryColumns md)) i normalized)),
           index + List.length normalized * List.length (primaryColumns md))).
Proof.
  induction normalized as [|id normalized IH]; intros i m index.
  - simpl. now rewrite Nat.add_0_r.
  - cbn [mapiM_from mapi_from mapi2_from concat]. rewrite whereId_spec. cbn [bind].
    rewrite IH. cbn [bind List.length]. rewrite bindAll_app.
    rewrite (mapi2_from_ext _
               (fun (_ : ObjectLiteral) i p =>
                  idCondition esc createParameter m aliasText (primaryColumns md) i p))
      by (intros; apply idCondition_bindAll).
    do 3 f_equal. lia.
Qed.

Lemma idNames_NoDup (k : nat) :
  forall n a, NoDup (concat (map (fun i => map (idName i) (seq 0 k)) (seq a n))).
Proof.
  induction n as [|n IH]; intros a; cbn [seq map concat]; [constructor |].
  apply NoDup_app.
  - apply NoDup_map_NoDup_ForallPairs; [| apply seq_NoDup].
    intros x y _ _ H. now apply idName_inj in H.
  - apply IH.
  - intros x Hx Hin.
    apply in_map_iff in Hx. destruct Hx as [j [<- _]].
    apply in_concat in Hin. destruct Hin as [l [Hl Hj]].
    apply in_map_iff in Hl. destruct Hl as [i [<- Hi]].
    apply in_map_iff in Hj. destruct Hj as [j' [E _]].
    apply idName_inj in E. apply in_seq in Hi. lia.
Qed.

Lemma idEntries_names (cols : list ColumnMetadata) (normalized : list ObjectLiteral) :
  map fst (concat (mapi (idEntries getEntityValue cols) normalized))
  = concat (map (fun i => map (idName i) (seq 0 (List.length cols)))
              (seq 0 (List.length normalized))).
Proof.
  rewrite concat_map. f_equal. unfold mapi. rewrite map_mapi_from.
  rewrite <- mapi_from_seq. apply mapi_from_ext. intros id i.
  unfold idEntries, mapi. rewrite map_mapi_from. cbn [fst]. apply mapi_from_seq.
Qed.

(** X11.  When the entity has several primary columns or an embedded,
    [createWhereIdsExpression] renders, for the identity at position
    [i], the equalities of its primary columns joined by [AND], each
    against the placeholder of [id_<i>_<j>]; several identities are
    parenthesised, joined by [OR] and parenthesised again, one identity
    stands alone, and no identity gives [undefined].  The driver is
    handed consecutive indices from the size of the store.  The names
    bound in one call are pairwise distinct, so every value of every
    identity is read back from the store afterwards. *)
Theorem composite_identities :
  forall (m : QueryExpressionMap) (main : Alias) (md : EntityMetadata)
         (ids : list JsValue),
    mainAlias m = Some main ->
    metadata main = Some md ->
    negb (hasMultiplePrimaryKeys md) && (List.length (embeddeds md) =? 0)%nat = false ->
    let cols := primaryColumns md in
    let normalized := map (ensureEntityIdMap md) ids in
    let aliasText :=
      if aliasNamePrefixingEnabled m then escape esc m (name main) ++ "." else EmptyString in
    let first := List.length (JsObj.keys (nativeParameters m)) in
    let conditions :=
      mapi (fun (_ : ObjectLiteral) i =>
              idCondition esc createParameter m aliasText cols i
                (first + i * List.length cols))
        normalized in
    let entries := concat (mapi (idEntries getEntityValue cols) normalized) in
    createWhereIdsExpression esc createParameter pg createPropertyPath
      findColumnsWithPropertyPath getEntityValue ensureEntityIdMap m (JsArray ids)
    = Ok (match conditions with
          | [] => None
          | [condition] => Some condition
          | _ =>
              Some ("(" ++ Str.join " OR " (map (fun c => "(" ++ c ++ ")") conditions)
                      ++ ")")
          end,
          bindAll m entries)
    /\ NoDup (map fst entries)
    /\ (forall n v, In (n, v) entries ->
                    JsObj.get (nativeParameters (bindAll m entries)) n = Some v).
Proof.
  intros m main md ids Hmain Hmd Hpath cols normalized aliasText first conditions entries.
  assert (Hnd : NoDup (map fst entries)).
  { subst entries. rewrite idEntries_names. apply idNames_NoDup. }
  split; [| split; [exact Hnd | intros n v Hin; now apply get_bindAll]].
  unfold createWhereIdsExpression. rewrite Hmain, Hmd, Hpath.
  unfold createWhereIdsGeneral, mapiM. fold normalized aliasText first.
  rewrite whereIds_spec, mapi2_spec. cbn [bind fst snd].
  fold cols. fold (mapi (idEntries getEntityValue cols) normalized). fold entries.
  rewrite (mapi_from_ext _
             (fun (_ : ObjectLiteral) i =>
                idCondition esc createParameter m aliasText cols i
                  (first + i * List.length cols)))
    by (intros; now rewrite Nat.sub_0_r).
  fold (mapi (fun (_ : ObjectLiteral) i =>
                idCondition esc createParameter m aliasText cols i
                  (first + i * List.length cols)) normalized).
  fold conditions. clearbody conditions.
  destruct conditions as [|c [|c' conditions]]; reflexivity.
Qed.

End CompositeKey.

Lemma composite_identities_witness :
  outcome (createWhereIdsExpression backtick named false flatPropertyPath
             columnsWithPath entityValue idMap membershipBuilder
             (JsArray [JsObject [("tenantId", JsNumber 1); ("localId", JsNumber 1)];
                       JsObject [("tenantId", JsNumber 1); ("localId", JsNumber 2)]]))
  = Some (Some "((`m`.`tenant_id` = :id_0_0 AND `m`.`local_id` = :id_0_1) OR (`m`.`tenant_id` = :id_1_0 AND `m`.`local_id` = :id_1_1))",
          [("id_0_0", JsNumber 1); ("id_0_1", JsNumber 1);
           ("id_1_0", JsNumber 1); ("id_1_1", JsNumber 2)]).
Proof.
  rewrite (proj1 (composite_identities backtick named false flatPropertyPath
                    columnsWithPath entityValue idMap membershipBuilder
                    membershipAlias membership
                    [JsObject [("tenantId", JsNumber 1); ("localId", JsNumber 1)];
                     JsObject [("tenantId", JsNumber 1); ("localId", JsNumber 2)]]
                    eq_refl eq_refl eq_refl)).
  reflexivity.
Defined.

(* ================================================================== *)
(** ** [createWhereIdsExpression]: no identity *)

Section NoIdentity.

Variable esc : string -> string.
Variable createParameter : string -> nat -> string.
Variable pg : bool.
Variable createPropertyPath : EntityMetadata -> ObjectLiteral -> list string.
Variable findColumnsWithPropertyPath : EntityMetadata -> string -> list ColumnMetadata.
Variable getEntityValue : ColumnMetadata -> ObjectLiteral -> bool -> JsValue.
Variable ensureEntityIdMap : EntityMetadata -> JsValue -> ObjectLiteral.

(** X12.  An empty list of identities: on the single-key path the result
    is the predicate [0=1], which holds for no row; on the path of
    composite identities, and on the path taken for a primary column
    with a transformer, the result is [undefined].  The store is left as
    it was on every path. *)
Theorem no_identity :
  forall (m : QueryExpressionMap) (main : Alias) (md : EntityMetadata),
    mainAlias m = Some main ->
    metadata main = Some md ->
    (forall pk rest,
        hasMultiplePrimaryKeys md = false ->
        embeddeds md = [] ->
        primaryColumns md = pk :: rest ->
        transformer pk = false ->
        (forall v, createPropertyPath md [(propertyName pk, v)] = [propertyName pk]) ->
        findColumnsWithPropertyPath md (propertyName pk) = [pk] ->
        (forall v, getEntityValue pk [(propertyName pk, v)] true = v) ->
        createWhereIdsExpression esc createParameter pg createPropertyPath
          findColumnsWithPropertyPath getEntityValue ensureEntityIdMap m (JsArray [])
        = Ok (Some "0=1", m))
    /\ (negb (hasMultiplePrimaryKeys md) && (List.length (embeddeds md) =? 0)%nat = false ->
        createWhereIdsExpression esc createParameter pg createPropertyPath
          findColumnsWithPropertyPath getEntityValue ensureEntityIdMap m (JsArray [])
        = Ok (None, m))
    /\ (forall pk rest,
          primaryColumns md = pk :: rest ->
          transformer pk = true ->
          createWhereIdsExpression esc createParameter pg createPropertyPath
            findColumnsWithPropertyPath getEntityValue ensureEntityIdMap m (JsArray [])
          = Ok (None, m)).
Proof.
  intros m main md Hmain Hmd. unfold createWhereIdsExpression. rewrite Hmain, Hmd.
  split; [| split].
  - intros pk rest Hmulti Hemb Hpk Htr Hcpp Hfc Hgev.
    rewrite Hmulti, Hemb, Hpk, Htr. cbn [negb andb List.length Nat.eqb map].
    unfold computeWhereParameter. rewrite Hmain, Hmd.
    unfold mapiM. cbn [mapiM_from]. unfold whereWithMetadata. rewrite Hcpp.
    unfold mapiM. cbn [mapiM_from]. unfold whereProperty. rewrite Hfc.
    unfold mapiM. cbn [mapiM_from]. unfold whereColumn. rewrite Hgev.
    reflexivity.
  - intros Hpath. rewrite Hpath. reflexivity.
  - intros pk rest Hpk Htr. rewrite Hpk, Htr.
    destruct (negb (hasMultiplePrimaryKeys md) && (List.length (embeddeds md) =? 0)%nat);
      reflexivity.
Qed.

End NoIdentity.

Lemma no_identity_witness :
  createWhereIdsExpression backtick named false flatPropertyPath columnsWithPath
    entityValue idMap userBuilder (JsArray [])
  = Ok (Some "0=1", userBuilder).
Proof.
  apply (proj1 (no_identity backtick named false flatPropertyPath columnsWithPath
                  entityValue idMap userBuilder
                  {| name := "user"; metadata := Some user |} user eq_refl eq_refl)
           (col "id" "id") [] eq_refl eq_refl eq_refl eq_refl
           (fun v => eq_refl) eq_refl (fun v => eq_refl)).
Defined.

(* ================================================================== *)
(** ** [getTableName] *)

Lemma split_on_nonempty (sep : ascii) (s : string) : split_on sep s <> [].
Proof.
  destruct s as [|c s]; cbn [split_on]; [discriminate |].
  destruct (Ascii.eqb c sep); [discriminate |].
  destruct (split_on sep s); discriminate.
Qed.

Lemma join_cons (sep x : string) (l : list string) :
  l <> [] -> Str.join sep (x :: l) = x ++ sep ++ Str.join sep l.
Proof. destruct l; [contradiction | reflexivity]. Qed.

(** Joining the pieces with the separator gives the text back. *)
Lemma join_split_on (s : string) : Str.join "." (split_on "." s) = s.
Proof.
  induction s as [|c s IH]; [reflexivity |]. cbn [split_on].
  destruct (Ascii.eqb_spec c ".") as [->|Hc].
  - rewrite join_cons by apply split_on_nonempty. now rewrite IH.
  - pose proof (split_on_nonempty "." s) as Hne.
    destruct (split_on "." s) as [|piece pieces]; [contradiction |].
    destruct pieces as [|piece' pieces].
    + simpl in *. now rewrite IH.
    + rewrite join_cons in * by discriminate.
      change (String c piece ++ "." ++ Str.join "." (piece' :: pieces))
        with (String c (piece ++ "." ++ Str.join "." (piece' :: pieces))).
      now rewrite IH.
Qed.

Lemma split_on_dot_free (piece : string) :
  dot_free piece = true -> split_on "." piece = [piece].
Proof.
  induction piece as [|c piece IH]; [reflexivity |].
  unfold dot_free. cbn [Str.forallb split_on]. intros H.
  apply andb_prop in H. destruct H as [Hc H].
  destruct (Ascii.eqb c "."); [discriminate |].
  now rewrite (IH H).
Qed.

Lemma split_on_append (piece rest : string) :
  dot_free piece = true ->
  split_on "." (piece ++ String "." rest) = piece :: split_on "." rest.
Proof.
  induction piece as [|c piece IH]; [reflexivity |].
  unfold dot_free. cbn [Str.forallb]. intros H.
  apply andb_prop in H. destruct H as [Hc H].
  change (String c piece ++ String "." rest) with (String c (piece ++ String "." rest)).
  cbn [split_on]. destruct (Ascii.eqb c "."); [discriminate |].
  now rewrite (IH H).
Qed.

(** Splitting the join of pieces without dot gives the pieces back. *)
Lemma split_on_join (pieces : list string) :
  pieces <> [] ->
  Forall (fun piece => dot_free piece = true) pieces ->
  split_on "." (Str.join "." pieces) = pieces.
Proof.
  induction pieces as [|piece pieces IH]; [contradiction |].
  intros _ Hall. inversion Hall as [|? ? Hpiece Hrest]; subst.
  destruct pieces as [|piece' pieces].
  - now apply split_on_dot_free.
  - rewrite join_cons by discriminate.
    change ("." ++ Str.join "." (piece' :: pieces))
      with (String "." (Str.join "." (piece' :: pieces))).
    rewrite split_on_append by exact Hpiece.
    rewrite IH; [reflexivity | discriminate | exact Hrest].
Qed.

(** X13.  With the field [disableEscaping] false, hence after a call of
    [disableEscaping()], [getTableName] returns every table path as it
    is, whatever the driver. *)
Theorem getTableName_unescaped :
  forall (esc : string -> string) (m : QueryExpressionMap) (tablePath : string),
    (disableEscaping m = false -> getTableName esc m tablePath = tablePath)
    /\ getTableName esc (Builder.disableEscaping m) tablePath = tablePath.
Proof.
  assert (H : forall esc m tablePath,
             disableEscaping m = false -> getTableName esc m tablePath = tablePath).
  { intros esc m tablePath Hoff. unfold getTableName, escape. rewrite Hoff. cbn [negb].
    rewrite (map_ext _ (fun i => i)) by (intros i; now destruct (String.eqb i EmptyString)).
    rewrite map_id. apply join_split_on. }
  intros esc m tablePath. split; [apply H |]. now apply H.
Qed.

(** X14.  [getTableName] escapes the pieces of a table path one by one
    and keeps an empty piece empty: for pieces without dot, the path
    made of the pieces gives the path made of the escaped non-empty
    pieces, so [db..table] keeps its empty middle piece. *)
Theorem getTableName_pieces :
  forall (esc : string -> string) (m : QueryExpressionMap) (pieces : list string),
    pieces <> [] ->
    Forall (fun piece => dot_free piece = true) pieces ->
    getTableName esc m (Str.join "." pieces)
    = Str.join "."
        (map (fun piece =>
                if String.eqb piece EmptyString then EmptyString else escape esc m piece)
           pieces).
Proof.
  intros esc m pieces Hne Hall. unfold getTableName.
  rewrite split_on_join by assumption. f_equal. apply map_ext.
  intros piece. destruct (String.eqb_spec piece EmptyString) as [->|]; reflexivity.
Qed.

Lemma getTableName_pieces_witness :
  getTableName backtick userBuilder "db..table" = "`db`..`table`".
Proof.
  apply (getTableName_pieces backtick userBuilder ["db"; ""; "table"]).
  - discriminate.
  - repeat constructor.
Defined.

(* ================================================================== *)
(** ** The replacement table of an alias *)

Lemma get_fold_columns {A} (key value : A -> string) (l : list A) (r0 : JsObj.t string)
    (k : string) :
  JsObj.get (fold_left (fun r x => JsObj.set r (key x) (value x)) l r0) k
  = match find_last (fun x => String.eqb (key x) k) l with
    | Some x => Some (value x)
    | None => JsObj.get r0 k
    end.
Proof.
  unfold find_last. induction l as [|x l IH] using rev_ind; [reflexivity |].
  rewrite fold_left_app, rev_app_distr. cbn [fold_left rev app find].
  destruct (String.eqb_spec (key x) k) as [<-|Hne].
  - apply JsObjFacts.get_set_same.
  - rewrite JsObjFacts.get_set_other by exact Hne. exact IH.
Qed.

(** X15.  The replacement of a name other than [__proto__] follows the
    order of relevance: the database name of the last column that
    declares the name as its property path; failing that, of the last
    column that declares it as its property name; failing that, the name
    itself when it is the database name of a column; failing that, the
    entry of the relations. *)
Theorem replacements_precedence :
  forall (md : EntityMetadata) (k : string),
    k <> "__proto__" ->
    JsObj.get (replacements md) k
    = match find_last (fun c => String.eqb (propertyPath c) k) (columns md) with
      | Some c => Some (databaseName c)
      | None =>
          match find_last (fun c => String.eqb (propertyName c) k) (columns md) with
          | Some c => Some (databaseName c)
          | None =>
              match find_last (fun c => String.eqb (databaseName c) k) (columns md) with
              | Some c => Some (databaseName c)
              | None => JsObj.get (relationReplacements md) k
              end
          end
      end.
Proof.
  intros md k _. unfold replacements. fold (relationReplacements md).
  now rewrite !get_fold_columns.
Qed.

Lemma replacements_precedence_witness :
  JsObj.get (replacements auditedDocument) "deletedAt" = Some "deletedAt".
Proof.
  rewrite (replacements_precedence auditedDocument "deletedAt" ltac:(discriminate)).
  reflexivity.
Defined.

Lemma values_in_set (Q : string -> Prop) (r : JsObj.t string) (k0 v0 : string) :
  values_in Q r -> Q v0 -> values_in Q (JsObj.set r k0 v0).
Proof.
  intros Hr Hv k v. destruct (string_dec k0 k) as [->|Hne].
  - rewrite JsObjFacts.get_set_same. intros H. now injection H as <-.
  - rewrite JsObjFacts.get_set_other by exact Hne. apply Hr.
Qed.

Lemma values_in_fold {A} (Q : string -> Prop) (f : JsObj.t string -> A -> JsObj.t string)
    (l : list A) :
  (forall r x, In x l -> values_in Q r -> values_in Q (f r x)) ->
  forall r0, values_in Q r0 -> values_in Q (fold_left f l r0).
Proof.
  induction l as [|x l IH]; intros Hf r0 H0; [exact H0 |].
  cbn [fold_left]. apply IH.
  - intros r y Hy. apply Hf. now right.
  - apply Hf; [now left | exact H0].
Qed.

(** X16.  Every value of the replacement table is a database name of
    the entity: of one of its columns or of a join column of one of its
    relations.  The engine writes no other name. *)
Theorem replacements_are_physical_names :
  forall (md : EntityMetadata) (k v : string),
    JsObj.get (replacements md) k = Some v -> In v (physicalNames md).
Proof.
  intros md. change (values_in (fun v => In v (physicalNames md)) (replacements md)).
  assert (Hcol : forall c, In c (columns md) -> In (databaseName c) (physicalNames md)).
  { intros c Hc. unfold physicalNames. apply in_or_app. left. now apply in_map. }
  assert (Hjc : forall relation jc,
             In relation (relations md) ->
             In jc (joinColumns relation ++ inverseJoinColumns relation) ->
             In (databaseName (joinColumn jc)) (physicalNames md)).
  { intros relation jc Hr Hj. unfold physicalNames. apply in_or_app. right.
    apply in_flat_map. exists relation. split; [exact Hr |].
    apply in_map_iff. now exists jc. }
  unfold replacements.
  repeat (apply values_in_fold;
          [intros r c Hc Hr; apply values_in_set; [exact Hr | now apply Hcol] |]).
  apply values_in_fold.
  - intros r relation Hrel Hr. apply values_in_fold; [| exact Hr].
    intros r' jc Hj Hr'. apply values_in_set; [exact Hr' | now apply Hjc with relation].
  - apply values_in_fold; [| intros k v; discriminate].
    intros r relation Hrel Hr.
    destruct (joinColumns relation) as [|first rest] eqn:E; [exact Hr |].
    apply values_in_set; [exact Hr |].
    apply Hjc with relation; [exact Hrel |]. rewrite E. now left.
Qed.

Lemma replacements_are_physical_names_witness :
  In "first_name" (physicalNames user).
Proof.
  apply (replacements_are_physical_names user "firstName" "first_name"). reflexivity.
Defined.

(* ================================================================== *)
(** ** [replacePropertyNames]: what becomes of a property path *)

(** X17.  When the names in scope are separated and none of them is
    [__proto__], [replacePropertyNames] works token by token: the
    statement is cut at the spaces, [=], [(], [)], [,] and line
    terminators, these characters are kept in place, and a token is
    rewritten, by the substitutions of the aliases in order, exactly when
    a character of [ =(] or a line start stands before it and a
    character of [ =),] or a line end stands after it. *)
Theorem replacePropertyNames_token_by_token :
  forall (esc : string -> string) (m : QueryExpressionMap) (statement : string),
    Separation.names_separated esc m = true ->
    proto_free m = true ->
    replacePropertyNames esc m statement
    = Tokens.render
        (Tokens.map_tokens (Separation.substituteAll esc m (aliases m)) true
           (fst (Tokens.tok statement)) (snd (Tokens.tok statement))).
Proof.
  intros esc m statement Hsep _. unfold replacePropertyNames.
  rewrite <- (TokenFacts.untok_tok statement) at 1. unfold Tokens.render at 1.
  apply replaceAll_tokens; [exact Hsep | apply TokenFacts.well_formed_tok].
Qed.

Lemma replacePropertyNames_token_by_token_witness :
  replacePropertyNames backtick userBuilder "user.firstName = :n AND (user.id=:id)"
  = "`user`.`first_name` = :n AND (`user`.`id`=:id)".
Proof.
  rewrite (replacePropertyNames_token_by_token backtick userBuilder
             "user.firstName = :n AND (user.id=:id)" eq_refl eq_refl).
  reflexivity.
Defined.

Lemma key_of_get {V} (r : JsObj.t V) (k : string) (v : V) :
  JsObj.get r k = Some v -> In k (JsObj.keys r).
Proof.
  intros H. apply JsObjFacts.In_keys. apply JsObjFacts.get_In in H.
  apply in_map_iff. now exists (k, v).
Qed.

Lemma existsb_eqb_In (k : string) (ks : list string) :
  In k ks -> existsb (String.eqb k) ks = true.
Proof.
  intros H. apply existsb_exists. exists k. split; [exact H | apply String.eqb_refl].
Qed.

(** When the names in scope are separated, a statement that consists of
    a replacement key of an alias, written with the alias prefix, becomes
    the escaped alias prefix followed by the escaped replacement. *)
Lemma key_is_resolved (esc : string -> string) (m : QueryExpressionMap)
    (before after : list Alias) (a : Alias) (md : EntityMetadata) (k v : string) :
  aliases m = (before ++ a :: after)%list ->
  metadata a = Some md ->
  Separation.names_separated esc m = true ->
  (forall b, In b before ->
             Separation.aliasSubstitute esc m b (replaceAliasNamePrefix m a ++ k)
             = replaceAliasNamePrefix m a ++ k) ->
  JsObj.get (replacements md) k = Some v ->
  replacePropertyNames esc m (replaceAliasNamePrefix m a ++ k)
  = replacementAliasNamePrefix esc m a ++ escape esc m v.
Proof.
  intros Hscope Hmd Hsep Hbefore Hget.
  pose proof (key_of_get _ _ _ Hget) as Hkey.
  assert (Ha : Separation.alias_names_separated esc m a = true).
  { unfold Separation.names_separated in Hsep. rewrite forallb_forall in Hsep.
    apply Hsep. rewrite Hscope. apply in_or_app. right. now left. }
  destruct (separated_key esc m a md k Ha Hmd Hkey) as [Hclean [_ [_ Hfixed]]].
  unfold replacePropertyNames.
  change (replaceAliasNamePrefix m a ++ k)
    with (Tokens.untok [] (replaceAliasNamePrefix m a ++ k)) at 1.
  rewrite (replaceAll_tokens esc m (aliases m) Hsep)
    by (split; [constructor | exact Hclean]).
  cbn [Tokens.map_tokens Tokens.render Tokens.untok fst snd].
  rewrite Hscope. unfold Separation.substituteAll. rewrite fold_left_app.
  assert (Hskip : fold_left (fun t b => Separation.aliasSubstitute esc m b t) before
                    (replaceAliasNamePrefix m a ++ k)
                  = replaceAliasNamePrefix m a ++ k).
  { clear Hscope. induction before as [|b before IH]; [reflexivity |].
    cbn [fold_left]. rewrite Hbefore by now left.
    apply IH. intros b' Hb'. apply Hbefore. now right. }
  rewrite Hskip. cbn [fold_left].
  assert (Hsub : Separation.aliasSubstitute esc m a (replaceAliasNamePrefix m a ++ k)
                 = Separation.emitted esc m a (replacements md) k).
  { unfold Separation.aliasSubstitute. rewrite Hmd.
    unfold Tokens.substitute, Tokens.candidate.
    rewrite StrFacts.strip_prefix_app, existsb_eqb_In by exact Hkey. reflexivity. }
  rewrite Hsub.
  fold (Separation.substituteAll esc m after
          (Separation.emitted esc m a (replacements md) k)).
  rewrite substituteAll_fixed; [| | exact Hfixed].
  - unfold Separation.emitted, replacement_of. now rewrite Hget.
  - intros b Hb. rewrite Hscope. apply in_or_app. right. now right.
Qed.

(** X18.  When the names in scope are separated and none of them is
    [__proto__], a statement that consists of the property path of a
    column, written with the alias prefix, becomes the escaped alias
    prefix followed by the escaped database name of that column; the
    column is the last one that declares the path, and the aliases before
    this one in the scope do not take the text for a name of theirs. *)
Theorem property_path_is_resolved :
  forall (esc : string -> string) (m : QueryExpressionMap) (before after : list Alias)
         (a : Alias) (md : EntityMetadata) (c : ColumnMetadata),
    aliases m = (before ++ a :: after)%list ->
    metadata a = Some md ->
    Separation.names_separated esc m = true ->
    proto_free m = true ->
    (forall b, In b before ->
               Separation.aliasSubstitute esc m b
                 (replaceAliasNamePrefix m a ++ propertyPath c)
               = replaceAliasNamePrefix m a ++ propertyPath c) ->
    find_last (fun c' => String.eqb (propertyPath c') (propertyPath c)) (columns md)
    = Some c ->
    replacePropertyNames esc m (replaceAliasNamePrefix m a ++ propertyPath c)
    = replacementAliasNamePrefix esc m a ++ escape esc m (databaseName c).
Proof.
  intros esc m before after a md c Hscope Hmd Hsep _ Hbefore Hlast.
  apply key_is_resolved with before after md; try assumption.
  unfold replacements. now rewrite get_fold_columns, Hlast.
Qed.

Lemma property_path_is_resolved_witness :
  replacePropertyNames backtick userBuilder "user.firstName" = "`user`.`first_name`".
Proof.
  apply (property_path_is_resolved backtick userBuilder [] []
           {| name := "user"; metadata := Some user |} user
           (col "firstName" "first_name") eq_refl eq_refl eq_refl eq_refl).
  - intros b [].
  - reflexivity.
Defined.



(* ================================================================== *)
(** ** [createReturningExpression] *)

Lemma ColumnMetadata_eqb_eq (a b : ColumnMetadata) :
  ColumnMetadata_eqb a b = true <-> a = b.
Proof.
  unfold ColumnMetadata_eqb. destruct a as [d p pp t], b as [d' p' pp' t']. cbn.
  rewrite !andb_true_iff, !String.eqb_eq, Bool.eqb_true_iff. split.
  - intros [[[-> ->] ->] ->]. reflexivity.
  - intros H. injection H as -> -> -> ->. repeat split.
Qed.

Lemma existsb_ColumnMetadata (c : ColumnMetadata) (l : list ColumnMetadata) :
  existsb (ColumnMetadata_eqb c) l = true <-> In c l.
Proof.
  rewrite existsb_exists. split.
  - intros [x [Hx E]]. apply ColumnMetadata_eqb_eq in E. now subst.
  - intros H. exists c. split; [exact H | now apply ColumnMetadata_eqb_eq].
Qed.

Section ReturningFacts.

Variable esc : string -> string.
Variable createParameter : string -> nat -> string.
Variable kind : DriverKind.
Variable supported : bool.
Variable nativeParameterType : ColumnMetadata -> JsValue.
Variable BIND_OUT : JsValue.
Variable findColumnsWithPropertyPath : EntityMetadata -> string -> list ColumnMetadata.
Variable tablePathOf : Alias -> string.

Lemma mapC_returns (m : QueryExpressionMap) (main : Alias) (cols : list ColumnMetadata) :
  mainAlias m = Some main ->
  exists expressions,
    mapC (returningColumnExpression esc kind tablePathOf m) cols = Return expressions.
Proof.
  intros Hmain. induction cols as [|c cols [expressions IH]]; [now exists [] |].
  cbn [mapC]. rewrite IH. unfold returningColumnExpression, getMainTableName.
  rewrite Hmain.
  destruct kind; [| eexists; reflexivity ..].
  destruct (writes_rows (queryType m)); [eexists; reflexivity |].
  destruct (metadata main); eexists; reflexivity.
Qed.

(** X19.  [createReturningExpression] at its edges.  A raw [returning]
    text is the result, as it is, for every driver and every query type:
    no column is resolved, the extra returning columns are left out and
    the store is not written.  Once a main alias is set the method
    returns, whatever is requested.  Without main alias, a request for
    column names fails on reading the main alias. *)
Theorem returning_edges :
  forall (m : QueryExpressionMap) (extraReturningColumns : list ColumnMetadata),
    (forall s,
        createReturningExpression esc createParameter kind supported nativeParameterType
          BIND_OUT findColumnsWithPropertyPath tablePathOf m (ReturningString s)
          extraReturningColumns
        = Return (s, m))
    /\ (forall main returning,
          mainAlias m = Some main ->
          exists text m',
            createReturningExpression esc createParameter kind supported
              nativeParameterType BIND_OUT findColumnsWithPropertyPath tablePathOf
              m returning extraReturningColumns
            = Return (text, m'))
    /\ (forall columnName names,
          mainAlias m = None ->
          createReturningExpression esc createParameter kind supported
            nativeParameterType BIND_OUT findColumnsWithPropertyPath tablePathOf
            m (ReturningArray (columnName :: names)) extraReturningColumns
          = Abrupt (Raised (TypeError "mainAlias is undefined"))).
Proof.
  intros m extras. split; [reflexivity | split].
  - intros main returning Hmain. unfold createReturningExpression.
    assert (Hcols : exists requested,
               getReturningColumns findColumnsWithPropertyPath m returning = Ok requested).
    { unfold getReturningColumns. rewrite Hmain.
      destruct returning as [|s|[|columnName names]]; try (eexists; reflexivity).
      destruct (metadata main); eexists; reflexivity. }
    destruct Hcols as [requested ->]. cbn [lift bindC].
    destruct (returnedColumns supported returning extras requested) as [|c columns].
    + destruct returning; eexists; eexists; reflexivity.
    + destruct (mapC_returns m main (c :: columns) Hmain) as [expressions ->].
      cbn [bindC].
      destruct kind;
        try destruct (bindOutParameters createParameter nativeParameterType BIND_OUT m
                        (c :: columns));
        eexists; eexists; reflexivity.
  - intros columnName names Hmain. unfold createReturningExpression, getReturningColumns.
    now rewrite Hmain.
Qed.

Lemma bound_out_bindNative (m : QueryExpressionMap) (n n0 : string) (type : JsValue) :
  bound_out BIND_OUT m n ->
  bound_out BIND_OUT (bindNative m n0 (JsObject [("type", type); ("dir", BIND_OUT)])) n.
Proof.
  intros [t Ht]. unfold bound_out. cbn [bindNative nativeParameters with_nativeParameters].
  destruct (string_dec n0 n) as [->|Hne].
  - exists type. apply JsObjFacts.get_set_same.
  - exists t. now rewrite JsObjFacts.get_set_other.
Qed.

Lemma bindOutParameters_keeps (cols : list ColumnMetadata) :
  forall (m : QueryExpressionMap) (n : string),
    bound_out BIND_OUT m n ->
    bound_out BIND_OUT
      (snd (bindOutParameters createParameter nativeParameterType BIND_OUT m cols)) n.
Proof.
  induction cols as [|c cols IH]; intros m n H; [exact H |].
  cbn [bindOutParameters].
  destruct (bindOutParameters createParameter nativeParameterType BIND_OUT
              (bindNative m ("output_" ++ databaseName c)
                 (outParameter nativeParameterType BIND_OUT c)) cols)
    as [parameters m2] eqn:E.
  cbn [snd]. change m2 with (snd (parameters, m2)). rewrite <- E.
  apply IH. now apply bound_out_bindNative.
Qed.

Lemma bindOutParameters_spec (cols : list ColumnMetadata) :
  forall (m : QueryExpressionMap),
    List.length
      (fst (bindOutParameters createParameter nativeParameterType BIND_OUT m cols))
    = List.length cols
    /\ forall c, In c cols ->
         bound_out BIND_OUT
           (snd (bindOutParameters createParameter nativeParameterType BIND_OUT m cols))
           ("output_" ++ databaseName c).
Proof.
  induction cols as [|c cols IH]; intros m; [split; [reflexivity | contradiction] |].
  pose proof (bindOutParameters_keeps cols
                (bindNative m ("output_" ++ databaseName c)
                   (outParameter nativeParameterType BIND_OUT c))
                ("output_" ++ databaseName c)) as Hkeep.
  specialize (IH (bindNative m ("output_" ++ databaseName c)
                    (outParameter nativeParameterType BIND_OUT c))).
  cbn [bindOutParameters].
  destruct (bindOutParameters createParameter nativeParameterType BIND_OUT
              (bindNative m ("output_" ++ databaseName c)
                 (outParameter nativeParameterType BIND_OUT c)) cols)
    as [parameters m2].
  cbn [fst snd List.length] in *. destruct IH as [Hlen Hall]. split; [now rewrite Hlen |].
  intros c' [<-|Hc']; [| now apply Hall].
  apply Hkeep. exists (nativeParameterType c).
  cbn [bindNative nativeParameters with_nativeParameters].
  apply JsObjFacts.get_set_same.
Qed.

Lemma mapC_plain (m : QueryExpressionMap) (cols : list ColumnMetadata) :
  mapC (returningColumnExpression esc OracleDriver tablePathOf m) cols
  = Return (map (fun c => escape esc m (databaseName c)) cols).
Proof.
  induction cols as [|c cols IH]; [reflexivity |].
  cbn [mapC map]. rewrite IH. reflexivity.
Qed.

End ReturningFacts.

Section MergedFacts.

Variable supported : bool.

(** X20.  The extra returning columns are merged in when [returning] is
    not a raw text and the driver supports returning: the columns
    returned are the requested ones in their order, followed by the
    extra ones that were not requested, in their order; otherwise they
    are the requested ones alone.  A column that is requested once and
    listed once among the extra ones is returned once. *)
Theorem extra_columns_merged :
  forall (returning : Returning) (extraReturningColumns requested : list ColumnMetadata),
    returnedColumns supported returning extraReturningColumns requested
    = (requested
       ++ (if negb (is_raw returning) && supported
           then notRequested requested extraReturningColumns
           else []))%list
    /\ (forall c, In c (notRequested requested extraReturningColumns)
                  <-> In c extraReturningColumns /\ ~ In c requested)
    /\ (forall c,
          In c (returnedColumns supported returning extraReturningColumns requested)
          <-> In c requested
              \/ (In c extraReturningColumns /\ is_raw returning = false
                  /\ supported = true))
    /\ (NoDup requested -> NoDup extraReturningColumns ->
        NoDup (returnedColumns supported returning extraReturningColumns requested)).
Proof.
  intros returning extras requested.
  assert (Hkept : forall c, In c (notRequested requested extras)
                            <-> In c extras /\ ~ In c requested).
  { intros c. unfold notRequested. rewrite filter_In, negb_true_iff.
    rewrite <- not_true_iff_false, existsb_ColumnMetadata. reflexivity. }
  assert (E : returnedColumns supported returning extras requested
              = (requested
                 ++ (if negb (is_raw returning) && supported
                     then notRequested requested extras
                     else []))%list).
  { unfold returnedColumns, notRequested.
    destruct returning as [|s|names]; cbn [is_raw negb andb];
      try (symmetry; apply app_nil_r);
      (destruct extras as [|x extras];
       [cbn; destruct supported; now rewrite app_nil_r |];
       cbn [List.length Nat.ltb Nat.leb andb]; destruct supported;
       [reflexivity | now rewrite app_nil_r]). }
  split; [exact E | split; [exact Hkept |]]. rewrite E. split.
  - intros c. rewrite in_app_iff.
    destruct (is_raw returning), supported; cbn [negb andb];
      rewrite ?Hkept; cbn [In];
      destruct (existsb (ColumnMetadata_eqb c) requested) eqn:Ec;
      try (apply existsb_ColumnMetadata in Ec);
      try (assert (~ In c requested)
             by (intros Hin; apply existsb_ColumnMetadata in Hin; congruence));
      intuition congruence.
  - intros Hr He. apply NoDup_app; [exact Hr | |].
    + destruct (negb (is_raw returning) && supported); [| constructor].
      unfold notRequested. now apply NoDup_filter.
    + intros c Hc Hin.
      destruct (negb (is_raw returning) && supported); [| contradiction].
      apply Hkept in Hin. tauto.
Qed.

End MergedFacts.

Lemma extra_columns_merged_witness :
  returnedColumns true (ReturningArray ["firstName"])
    [col "id" "id"; col "firstName" "first_name"] [col "firstName" "first_name"]
  = [col "firstName" "first_name"; col "id" "id"].
Proof.
  rewrite (proj1 (extra_columns_merged true (ReturningArray ["firstName"])
                    [col "id" "id"; col "firstName" "first_name"]
                    [col "firstName" "first_name"])).
  reflexivity.
Defined.

Lemma length_insert_index x l :
  List.length (JsObj.insert_index x l) = S (List.length l).
Proof.
  induction l as [|y l IH]; [reflexivity |]. cbn [JsObj.insert_index].
  destruct (fst x <=? fst y)%N; cbn [List.length]; [reflexivity | now rewrite IH].
Qed.

Lemma length_sort_indices l : List.length (JsObj.sort_indices l) = List.length l.
Proof.
  induction l as [|x l IH]; [reflexivity |].
  cbn [JsObj.sort_indices]. now rewrite length_insert_index, IH.
Qed.

(** [Object.keys] lists every own key once. *)
Lemma length_keys {V} (o : JsObj.t V) : List.length (JsObj.keys o) = List.length o.
Proof.
  unfold JsObj.keys. rewrite length_app, length_map, length_sort_indices.
  rewrite <- (length_map fst o).
  induction (map fst o) as [|k ks IH]; [reflexivity |].
  cbn [JsObj.index_keys filter]. unfold JsObj.is_plain_key at 1.
  destruct (JsObj.array_index k); cbn [List.length]; lia.
Qed.

Lemma length_set_fresh {V} (o : JsObj.t V) (k : string) (v : V) :
  JsObj.get o k = None -> List.length (JsObj.set o k v) = S (List.length o).
Proof.
  induction o as [|[k' v'] o IH]; [reflexivity |]. cbn [JsObj.get JsObj.set].
  destruct (String.eqb k' k); [discriminate |].
  intros H. cbn [List.length]. now rewrite IH.
Qed.

Lemma size_bindAll_fresh (es : list (string * JsValue)) :
  NoDup (map fst es) ->
  forall m,
    (forall n, In n (map fst es) -> JsObj.get (nativeParameters m) n = None) ->
    List.length (JsObj.keys (nativeParameters (bindAll m es)))
    = List.length (JsObj.keys (nativeParameters m)) + List.length es.
Proof.
  induction es as [|[n0 v0] es IH]; intros Hnd m Hfresh.
  - cbn. lia.
  - cbn [map fst] in Hnd. inversion Hnd as [|? ? Hn0 Hnd']; subst.
    change (bindAll m ((n0, v0) :: es)) with (bindAll (bindNative m n0 v0) es).
    rewrite IH; [| exact Hnd' |].
    + cbn [bindNative nativeParameters with_nativeParameters].
      rewrite !length_keys, length_set_fresh by (apply Hfresh; now left).
      cbn [List.length]. lia.
    + intros n Hn. cbn [bindNative nativeParameters with_nativeParameters].
      rewrite JsObjFacts.get_set_other by (intros ->; contradiction).
      apply Hfresh. now right.
Qed.

Lemma mapi_from_ext_in {A B} (f g : A -> nat -> B) (l : list A) :
  forall i,
    (forall x k, i <= k < i + List.length l -> f x k = g x k) ->
    mapi_from f i l = mapi_from g i l.
Proof.
  induction l as [|x l IH]; intros i H; [reflexivity |].
  cbn [mapi_from]. rewrite H by (cbn [List.length]; lia).
  rewrite (IH (S i)); [reflexivity |].
  intros y k Hk. apply H. cbn [List.length]. lia.
Qed.

Lemma In_firstn_list {A} (n : nat) (l : list A) (x : A) : In x (firstn n l) -> In x l.
Proof.
  intros H. rewrite <- (firstn_skipn n l). apply in_or_app. now left.
Qed.

Lemma NoDup_firstn {A} (n : nat) (l : list A) : NoDup l -> NoDup (firstn n l).
Proof.
  intros H. rewrite <- (firstn_skipn n l) in H. now apply NoDup_app_remove_r in H.
Qed.

Section OracleFacts.

Variable esc : string -> string.
Variable createParameter : string -> nat -> string.
Variable supported : bool.
Variable nativeParameterType : ColumnMetadata -> JsValue.
Variable BIND_OUT : JsValue.
Variable findColumnsWithPropertyPath : EntityMetadata -> string -> list ColumnMetadata.
Variable tablePathOf : Alias -> string.

Lemma bindOutParameters_closed (cols : list ColumnMetadata) :
  forall m,
    bindOutParameters createParameter nativeParameterType BIND_OUT m cols
    = (outPlaceholders createParameter nativeParameterType BIND_OUT m cols,
       bindAll m (outEntries nativeParameterType BIND_OUT cols)).
Proof.
  induction cols as [|c cols IH]; intros m; [reflexivity |].
  cbn [bindOutParameters]. rewrite IH.
  unfold outPlaceholders, mapi. cbn [mapi_from]. rewrite mapi_from_succ.
  reflexivity.
Qed.

Lemma outPlaceholders_fresh (m : QueryExpressionMap) (cols : list ColumnMetadata) :
  NoDup (map databaseName cols) ->
  (forall c, In c cols ->
             JsObj.get (nativeParameters m) ("output_" ++ databaseName c) = None) ->
  outPlaceholders createParameter nativeParameterType BIND_OUT m cols
  = mapi (fun column i =>
            createParameter ("output_" ++ databaseName column)
              (List.length (JsObj.keys (nativeParameters m)) + S i))
      cols.
Proof.
  intros Hnd Hfresh. unfold outPlaceholders, mapi.
  apply mapi_from_ext_in. intros c i Hi. f_equal.
  assert (Hnames : NoDup (map fst (outEntries nativeParameterType BIND_OUT cols))).
  { unfold outEntries. rewrite map_map. cbn [fst].
    rewrite <- (map_map databaseName (fun d => "output_" ++ d)).
    apply NoDup_map_NoDup_ForallPairs; [| exact Hnd].
    intros x y _ _ H. now apply StrFacts.append_inv_head in H. }
  rewrite size_bindAll_fresh.
  - rewrite firstn_length_le; [reflexivity |].
    unfold outEntries. rewrite length_map. lia.
  - rewrite <- firstn_map. now apply NoDup_firstn.
  - intros n Hn. rewrite <- firstn_map in Hn. apply In_firstn_list in Hn.
    unfold outEntries in Hn. rewrite map_map in Hn. cbn [fst] in Hn.
    apply in_map_iff in Hn. destruct Hn as [c' [<- Hc']]. now apply Hfresh.
Qed.

End OracleFacts.

(** X21.  On Oracle, when columns are returned, the text lists the
    escaped database names of the columns, then [INTO] and, for each
    column in order, the placeholder that the driver makes for the name
    [output_<database name>] at the size of the store once that column
    is bound.  The store is the one after binding, for each column in
    order, that name to an output parameter, an object whose [dir] is
    [BIND_OUT], and every returned column is then bound so.  When the
    database names are distinct and none of the names is in the store
    before, the placeholders are numbered from the size of the store
    plus one. *)
Theorem oracle_binds_output_parameters :
  forall (esc : string -> string) (createParameter : string -> nat -> string)
         (supported : bool) (nativeParameterType : ColumnMetadata -> JsValue)
         (BIND_OUT : JsValue)
         (findColumnsWithPropertyPath : EntityMetadata -> string -> list ColumnMetadata)
         (tablePathOf : Alias -> string)
         (m : QueryExpressionMap) (returning : Returning)
         (extraReturningColumns requested columns : list ColumnMetadata),
    getReturningColumns findColumnsWithPropertyPath m returning = Ok requested ->
    returnedColumns supported returning extraReturningColumns requested = columns ->
    columns <> [] ->
    createReturningExpression esc createParameter OracleDriver supported
      nativeParameterType BIND_OUT findColumnsWithPropertyPath tablePathOf
      m returning extraReturningColumns
    = Return (Str.join ", " (map (fun c => escape esc m (databaseName c)) columns)
                ++ " INTO "
                ++ Str.join ", "
                     (outPlaceholders createParameter nativeParameterType BIND_OUT
                        m columns),
              bindAll m (outEntries nativeParameterType BIND_OUT columns))
    /\ (forall c, In c columns ->
                  bound_out BIND_OUT
                    (bindAll m (outEntries nativeParameterType BIND_OUT columns))
                    ("output_" ++ databaseName c))
    /\ (NoDup (map databaseName columns) ->
        (forall c, In c columns ->
                   JsObj.get (nativeParameters m) ("output_" ++ databaseName c) = None) ->
        outPlaceholders createParameter nativeParameterType BIND_OUT m columns
        = mapi (fun column i =>
                  createParameter ("output_" ++ databaseName column)
                    (List.length (JsObj.keys (nativeParameters m)) + S i))
            columns).
Proof.
  intros esc createParameter supported nativeParameterType BIND_OUT
         findColumnsWithPropertyPath tablePathOf m returning extras requested columns
         Hrequested Hcolumns Hne.
  split; [| split].
  - unfold createReturningExpression. rewrite Hrequested. cbn [lift bindC].
    rewrite Hcolumns. destruct columns as [|c columns]; [contradiction |].
    rewrite mapC_plain. cbn [bindC]. rewrite bindOutParameters_closed.
    destruct (queryType m); reflexivity.
  - intros c Hc.
    pose proof (proj2 (bindOutParameters_spec createParameter nativeParameterType
                         BIND_OUT columns m) c Hc) as H.
    now rewrite bindOutParameters_closed in H.
  - apply outPlaceholders_fresh.
Qed.

Lemma oracle_binds_output_parameters_witness :
  createReturningExpression backtick positional OracleDriver true
    (fun c => JsString "NUMBER") (JsNumber 3003) columnsWithPath name
    userInsert (ReturningArray ["id"; "firstName"]) []
  = Return ("`id`, `first_name` INTO :1, :2",
            bindAll userInsert
              (outEntries (fun c => JsString "NUMBER") (JsNumber 3003)
                 [col "id" "id"; col "firstName" "first_name"])).
Proof.
  rewrite (proj1 (oracle_binds_output_parameters backtick positional true
                    (fun c => JsString "NUMBER") (JsNumber 3003) columnsWithPath name
                    userInsert (ReturningArray ["id"; "firstName"]) []
                    [col "id" "id"; col "firstName" "first_name"]
                    [col "id" "id"; col "firstName" "first_name"]
                    eq_refl eq_refl ltac:(discriminate))).
  reflexivity.
Defined.

Section OutputClause.

Variable esc : string -> string.
Variable createParameter : string -> nat -> string.
Variable supported : bool.
Variable nativeParameterType : ColumnMetadata -> JsValue.
Variable BIND_OUT : JsValue.
Variable findColumnsWithPropertyPath : EntityMetadata -> string -> list ColumnMetadata.
Variable tablePathOf : Alias -> string.

Lemma mapC_map {A B} (f : A -> Completion B) (g : A -> B) (l : list A) :
  (forall x, In x l -> f x = Return (g x)) -> mapC f l = Return (map g l).
Proof.
  induction l as [|x l IH]; intros H; [reflexivity |].
  cbn [mapC map]. rewrite H by now left.
  cbn [bindC]. rewrite IH by (intros y Hy; apply H; now right). reflexivity.
Qed.

(** X22.  When columns are returned on a driver that is neither SQL
    Server nor Oracle, the text is the list of their escaped database
    names and the store is not written.  On SQL Server the names are
    prefixed with [INSERTED.] for insert, update, soft-delete and restore
    queries, and [INTO @OutputTable] follows for insert and update
    alone; for the other query types the names are prefixed with the
    escaped main table, and without main alias the method throws the
    error of [getMainTableName]. *)
Theorem output_clause_per_driver :
  forall (m : QueryExpressionMap) (returning : Returning)
         (extraReturningColumns requested columns : list ColumnMetadata),
    getReturningColumns findColumnsWithPropertyPath m returning = Ok requested ->
    returnedColumns supported returning extraReturningColumns requested = columns ->
    columns <> [] ->
    createReturningExpression esc createParameter OtherDriver supported
      nativeParameterType BIND_OUT findColumnsWithPropertyPath tablePathOf
      m returning extraReturningColumns
    = Return (Str.join ", " (map (fun c => escape esc m (databaseName c)) columns), m)
    /\ (writes_rows (queryType m) = true ->
        createReturningExpression esc createParameter SqlServerDriver supported
          nativeParameterType BIND_OUT findColumnsWithPropertyPath tablePathOf
          m returning extraReturningColumns
        = Return (Str.join ", "
                    (map (fun c => "INSERTED." ++ escape esc m (databaseName c)) columns)
                    ++ match queryType m with
                       | QInsert | QUpdate => " INTO @OutputTable"
                       | _ => EmptyString
                       end,
                  m))
    /\ (writes_rows (queryType m) = false ->
        forall main table,
          mainAlias m = Some main ->
          getMainTableName tablePathOf m = Return table ->
          createReturningExpression esc createParameter SqlServerDriver supported
            nativeParameterType BIND_OUT findColumnsWithPropertyPath tablePathOf
            m returning extraReturningColumns
          = Return (Str.join ", "
                      (map (fun c => escape esc m table ++ "."
                                       ++ escape esc m (databaseName c)) columns),
                    m))
    /\ (writes_rows (queryType m) = false ->
        mainAlias m = None ->
        exists message,
          createReturningExpression esc createParameter SqlServerDriver supported
            nativeParameterType BIND_OUT findColumnsWithPropertyPath tablePathOf
            m returning extraReturningColumns
          = Abrupt (PlainError message)).
Proof.
  intros m returning extras requested columns Hrequested Hcolumns Hne.
  unfold createReturningExpression. rewrite Hrequested. cbn [lift bindC].
  rewrite Hcolumns. destruct columns as [|c columns]; [contradiction |].
  split; [| split; [| split]].
  - rewrite (mapC_map _ (fun c => escape esc m (databaseName c))) by reflexivity.
    cbn [bindC]. reflexivity.
  - intros Hw.
    rewrite (mapC_map _ (fun c => "INSERTED." ++ escape esc m (databaseName c)))
      by (intros x _; unfold returningColumnExpression; now rewrite Hw).
    cbn [bindC]. destruct (queryType m); try discriminate;
      rewrite ?StrFacts.append_nil_r; reflexivity.
  - intros Hw main table Hmain Htable.
    rewrite (mapC_map _ (fun c => escape esc m table ++ "."
                                    ++ escape esc m (databaseName c)))
      by (intros x _; unfold returningColumnExpression; now rewrite Hw, Htable).
    cbn [bindC]. destruct (queryType m); try discriminate; reflexivity.
  - intros Hw Hmain. eexists. cbn [mapC]. unfold returningColumnExpression at 1.
    rewrite Hw. unfold getMainTableName. rewrite Hmain. reflexivity.
Qed.

End OutputClause.

Lemma output_clause_per_driver_witness :
  createReturningExpression backtick named SqlServerDriver true
    (fun c => JsString "NUMBER") (JsNumber 3003) columnsWithPath name
    userInsert (ReturningArray ["id"; "firstName"]) []
  = Return ("INSERTED.`id`, INSERTED.`first_name` INTO @OutputTable", userInsert).
Proof.
  apply (proj1 (proj2 (output_clause_per_driver backtick named true
                         (fun c => JsString "NUMBER") (JsNumber 3003) columnsWithPath
                         name userInsert (ReturningArray ["id"; "firstName"]) []
                         [col "id" "id"; col "firstName" "first_name"]
                         [col "id" "id"; col "firstName" "first_name"]
                         eq_refl eq_refl ltac:(discriminate)))).
  reflexivity.
Defined.

(* ================================================================== *)
(** ** Structured conditions: a record of plain values *)

Section PlainRecord.

Variable createParameter : string -> nat -> string.
Variable pg : bool.
Variable createPropertyPath : EntityMetadata -> ObjectLiteral -> list string.
Variable findColumnsWithPropertyPath : EntityMetadata -> string -> list ColumnMetadata.
Variable getEntityValue : ColumnMetadata -> ObjectLiteral -> bool -> JsValue.

Lemma whereColumn_plain main o wi path pi column ci (m : QueryExpressionMap)
    (index : nat) :
  is_plain (getEntityValue column o true) = true ->
  whereColumn createParameter pg getEntityValue main o wi path pi column ci (m, index)
  = Ok ((if aliasNamePrefixingEnabled m then name main ++ "." ++ path
         else propertyPath column)
          ++ " = " ++ createParameter (whereParameterName wi pi ci) index,
        (bindNative m (whereParameterName wi pi ci) (getEntityValue column o true),
         S index)).
Proof.
  intros Hplain. unfold whereColumn. cbn [fst snd].
  replace (S index - 1) with index by lia.
  destruct (getEntityValue column o true); try discriminate; reflexivity.
Qed.

Lemma whereProperties_plain (main : Alias) (md : EntityMetadata) (o : ObjectLiteral)
    (resolved : list (string * ColumnMetadata)) :
  (forall p c, In (p, c) resolved ->
               findColumnsWithPropertyPath md p = [c]
               /\ is_plain (getEntityValue c o true) = true) ->
  forall (i : nat) (m : QueryExpressionMap) (index : nat),
    mapiM_from
      (whereProperty createParameter pg findColumnsWithPropertyPath getEntityValue
         main md o 0)
      i (map fst resolved) (m, index)
    = Ok (mapi2_from
            (fun pc i p =>
               resolvedPath m main pc ++ " = "
                 ++ createParameter (whereParameterName 0 i 0) p)
            1 i index resolved,
          (bindAll m
             (mapi_from
                (fun pc i => (whereParameterName 0 i 0, getEntityValue (snd pc) o true))
                i resolved),
           index + List.length resolved)).
Proof.
  induction resolved as [|[p c] resolved IH]; intros Hall i m index.
  - simpl. now rewrite Nat.add_0_r.
  - destruct (Hall p c (or_introl eq_refl)) as [Hcols Hplain].
    cbn [map fst mapiM_from mapi_from mapi2_from]. unfold whereProperty at 1.
    rewrite Hcols. unfold mapiM. cbn [mapiM_from].
    rewrite whereColumn_plain by exact Hplain. cbn [bind].
    match goal with
    | |- context [filter truthy [?x]] =>
        assert (Hx : truthy x = true) by (apply truthy_app; reflexivity);
        cbn [filter]; rewrite Hx; cbn [Str.join]
    end.
    rewrite IH by (intros p' c' H'; apply Hall; now right).
    cbn [bind List.length snd].
    replace (S index + List.length resolved) with (index + S (List.length resolved))
      by lia.
    replace (index + 1) with (S index) by lia.
    reflexivity.
Qed.

Lemma filter_truthy_mapi_from {A} (f : A -> nat -> string) (l : list A) :
  (forall x k, truthy (f x k) = true) ->
  forall i, filter truthy (mapi_from f i l) = mapi_from f i l.
Proof.
  intros H. induction l as [|x l IH]; intros i; [reflexivity |].
  cbn [mapi_from filter]. now rewrite H, IH.
Qed.

Lemma whereParameterName_inj (i i' : nat) :
  whereParameterName 0 i 0 = whereParameterName 0 i' 0 -> i = i'.
Proof.
  unfold whereParameterName. intros H.
  change ("where_" ++ Str.of_nat 0 ++ "_" ++ Str.of_nat i ++ "_" ++ Str.of_nat 0)
    with ("where_0_" ++ Str.of_nat i ++ String "_" (Str.of_nat 0)) in H.
  change ("where_" ++ Str.of_nat 0 ++ "_" ++ Str.of_nat i' ++ "_" ++ Str.of_nat 0)
    with ("where_0_" ++ Str.of_nat i' ++ String "_" (Str.of_nat 0)) in H.
  apply StrFacts.append_inv_head in H.
  apply digits_separator_inj in H; try apply digits_of_nat.
  now apply of_nat_inj.
Qed.

(** X23.  On an alias with metadata, a record whose property paths
    resolve to one column each, with values that are neither [null] nor
    operators, compiles to the equalities of the paths joined by [AND];
    the value at position [i] is bound under [where_0_<i>_0], and the
    driver is handed consecutive indices from the size of the store.
    The names of one record are pairwise distinct, so every value is
    read back from the store afterwards. *)
Theorem plain_record_with_metadata :
  forall (m : QueryExpressionMap) (main : Alias) (md : EntityMetadata)
         (o : ObjectLiteral) (resolved : list (string * ColumnMetadata)),
    mainAlias m = Some main ->
    metadata main = Some md ->
    createPropertyPath md o = map fst resolved ->
    (forall p c, In (p, c) resolved ->
                 findColumnsWithPropertyPath md p = [c]
                 /\ is_plain (getEntityValue c o true) = true) ->
    let first := List.length (JsObj.keys (nativeParameters m)) in
    let entries :=
      mapi (fun pc i => (whereParameterName 0 i 0, getEntityValue (snd pc) o true))
        resolved in
    computeWhereParameter createParameter pg createPropertyPath
      findColumnsWithPropertyPath getEntityValue m (WhereObject o)
    = Ok (Str.join " AND "
            (mapi (fun pc i =>
                     resolvedPath m main pc ++ " = "
                       ++ createParameter (whereParameterName 0 i 0) (first + i))
               resolved),
          bindAll m entries)
    /\ NoDup (map fst entries)
    /\ (forall n v, In (n, v) entries ->
                    JsObj.get (nativeParameters (bindAll m entries)) n = Some v).
Proof.
  intros m main md o resolved Hmain Hmd Hpaths Hall first entries.
  assert (Hnd : NoDup (map fst entries)).
  { subst entries. unfold mapi. rewrite map_mapi_from. cbn [fst].
    rewrite mapi_from_seq.
    apply NoDup_map_NoDup_ForallPairs; [| apply seq_NoDup].
    intros x y _ _ H. now apply whereParameterName_inj. }
  split; [| split; [exact Hnd | intros n v Hin; now apply get_bindAll]].
  unfold computeWhereParameter. rewrite Hmain, Hmd.
  unfold mapiM. cbn [mapiM_from]. unfold whereWithMetadata, mapiM. rewrite Hpaths.
  rewrite (whereProperties_plain main md o resolved Hall). cbn [bind].
  rewrite mapi2_spec. fold first. fold entries.
  cbn [List.length Nat.ltb Nat.leb Str.join fst].
  rewrite (mapi_from_ext _
             (fun pc i =>
                resolvedPath m main pc ++ " = "
                  ++ createParameter (whereParameterName 0 i 0) (first + i)))
    by (intros; now rewrite Nat.sub_0_r, Nat.mul_1_r).
  rewrite filter_truthy_mapi_from by (intros; apply truthy_app; reflexivity).
  reflexivity.
Qed.

End PlainRecord.

Lemma plain_record_with_metadata_witness :
  outcome (computeWhereParameter named false flatPropertyPath columnsWithPath
             entityValue userBuilder
             (WhereObject [("firstName", JsString "a"); ("lastName", JsString "b")]))
  = Some ("user.firstName = :where_0_0_0 AND user.lastName = :where_0_1_0",
          [("where_0_0_0", JsString "a"); ("where_0_1_0", JsString "b")]).
Proof.
  rewrite (proj1 (plain_record_with_metadata named false flatPropertyPath
                    columnsWithPath entityValue userBuilder
                    {| name := "user"; metadata := Some user |} user
                    [("firstName", JsString "a"); ("lastName", JsString "b")]
                    [("firstName", col "firstName" "first_name");
                     ("lastName", col "lastName" "last_name")]
                    eq_refl eq_refl eq_refl
                    ltac:(intros p c [E|[E|[]]]; injection E as <- <-; split; reflexivity))).
  reflexivity.
Defined.
